(** * Voyage trip planner: route stops, points of interest, itinerary

    A shallow embedding of the computation core of the planner
    (the script with [addStop], [updateStop], [removeStop],
    [updateStopsList], [updateRoute], [filterPOIsByBudget],
    [createPOIMarker], [generateItinerary], [calculateRouteDistance],
    [haversineDistance] and [getIntermediatePoints]).

    Conventions of the embedding.
    - The global [state] object is a record threaded through every
      operation; an operation returns its completion and the new state.
    - Leaflet markers are mutable objects shared between [state.route.stops],
      [state.markers.stops] and [state.markers.pois]: they live in a store
      (a list indexed by allocation order) and are referred to by index.
    - JavaScript numbers are modelled by their use: a coordinate of the
      state is the real number that its double stands for, an index
      received from a caller is a rational (so that a fractional index is a
      possible input), budget levels and day counts are integers, a draw of
      [Math.random] is a rational in [0,1). Distances are computed on the
      binary64 floats themselves, with their rounding and their NaN;
      [Math.sin], [Math.cos] and [Math.atan2], which every engine
      approximates in its own way, are taken from the engine.
    - HTML text assigned to [innerHTML] is kept as the list of elements it
      describes, each element carrying the values interpolated into it.
    - Map view changes ([flyTo], [fitBounds]) and network requests are not
      part of the model.

    The repository holds two versions of the script. The functions on stops
    and the budget filter are the same in both; [createPOIMarker] (which
    also stores the category on the marker), the search locations along the
    route and the itinerary follow the later version, and so does the
    initial budget. *)

From Stdlib Require Import Floats Epsilon.
From Stdlib Require Import ZArith QArith Qround Reals Lqa Lra Lia.
From stdpp Require Import base list strings.

#[local] Open Scope Z_scope.
#[local] Set Warnings "-inexact-float".

(** ** JavaScript primitives used by the script *)

Inductive JsError : Type :=
| TypeError.

(** Every function of the script ends with a bare [return] or falls off its
    end: a normal completion carries the value [undefined]. *)
Inductive Completion : Type :=
| ReturnsUndefined
| Throws (e : JsError).

Definition Qlt_bool (a b : Q) : bool := negb (Qle_bool b a).

(** [ToIntegerOrInfinity] on a finite number: truncation towards zero. *)
Definition Qtrunc (q : Q) : Z :=
  if Qle_bool 0 q then Qfloor q else Qceiling q.

(** A number is an array index when it is a non-negative integer. *)
Definition is_array_index (q : Q) : bool :=
  Qeq_bool (inject_Z (Qfloor q)) q && (0 <=? Qfloor q).

(** [arr[index]]: [None] stands for [undefined]. *)
Definition array_get {A : Type} (arr : list A) (index : Q) : option A :=
  if is_array_index index then arr !! Z.to_nat (Qfloor index) else None.

(** [arr.splice(index, 1)], the array after the call. *)
Definition splice1 {A : Type} (arr : list A) (index : Q) : list A :=
  let len := Z.of_nat (length arr) in
  let rel := Qtrunc index in
  let start := if rel <? 0 then Z.max (len + rel) 0 else Z.min rel len in
  delete (Z.to_nat start) arr.

(** [arr.slice(from, to)]. *)
Definition slice {A : Type} (arr : list A) (from to : Z) : list A :=
  let len := Z.of_nat (length arr) in
  let k := if from <? 0 then Z.max (len + from) 0 else Z.min from len in
  let final := if to <? 0 then Z.max (len + to) 0 else Z.min to len in
  take (Z.to_nat (Z.max (final - k) 0)) (drop (Z.to_nat k) arr).

(** [String.fromCharCode(n)] is the one-character string whose UTF-16 code
    unit is [n] modulo 2^16; a label is kept as that code unit. *)
Definition String_fromCharCode (n : Z) : Z := n mod 65536.

(** [Math.ceil] on a rational. *)
Definition Math_ceil (q : Q) : Z := Qceiling q.

(** [Math.round] on a real: the integer [floor (x + 1/2)]. *)
Definition Math_round (x : R) : Z := (up (x + 1 / 2) - 1)%Z.

(** The Number values of the distance computation are the binary64 floats;
    [+], [-], [*], [/] and [Math.sqrt] are the IEEE operations. *)
Definition Math_PI : float := 0x1.921fb54442d18p+1%float.

Definition Math_sqrt (x : float) : float := PrimFloat.sqrt x.

(** [Math.sin], [Math.cos] and [Math.atan2] are approximations that the
    engine chooses: the functions that the page runs with. *)
Record MathLibrary : Type := {
  Math_sin : float → float;
  Math_cos : float → float;
  Math_atan2 : float → float → float
}.

(** What the language fixes of them here: NaN in, NaN out. *)
Definition conforming (M : MathLibrary) : Prop :=
  Math_sin M nan = nan ∧ Math_cos M nan = nan ∧
  ∀ y x, PrimFloat.is_nan y || PrimFloat.is_nan x = true → Math_atan2 M y x = nan.

(** A table of sines and cosines: the doubles nearest to the exact values
    at the angles of 0.08 and 90 degrees, as rounded by the script:
    sin(-0.0013962634015954637) = -0.0013962629479142763,
    sin(1.5707963267948966) = 1 and
    cos(0.0013962634015954637) = cos(-0.0013962634015954637)
    = 0.9999990252244151. *)
Definition nearest_values : MathLibrary :=
  {| Math_sin x :=
       if (x =? -0x1.6e05a695f8191p-10)%float then (-0x1.6e059ecaa87dcp-10)%float
       else if (x =? 0x1.921fb54442d18p+0)%float then 1%float
       else nan;
     Math_cos x :=
       if (PrimFloat.abs x =? 0x1.6e05a695f8191p-10)%float then 0x1.ffffdf4abdd1ep-1%float
       else nan;
     Math_atan2 y x := nan |}.

(** The [Math] object of the engine: some conforming library. *)
Definition Math : MathLibrary :=
  epsilon (inhabits nearest_values) conforming.

Definition two52 : float := 0x1p+52%float.

(** The largest integral Number not above [y], for [0 <= y < 2^52]: adding
    and subtracting 2^52 rounds [y] to an integer. *)
Definition floor_small (y : float) : float :=
  let r := (y + two52 - two52)%float in
  if (y <? r)%float then (r - 1)%float else r.

(** [Math.floor]: a Number that is NaN, infinite, zero or at least 2^52 in
    magnitude is integral already. *)
Definition Math_floor (n : float) : float :=
  if PrimFloat.is_nan n || (two52 <=? PrimFloat.abs n)%float || (n =? 0)%float then n
  else if (0 <? n)%float then floor_small n
  else
    let r := floor_small (- n)%float in
    if (r =? - n)%float then n else (- (r + 1))%float.

(** [Math.round] on a Number: NaN, the infinities and the integral Numbers
    are returned as they are, a Number of (0, 0.5) gives +0, one of
    [-0.5, 0) gives -0, any other the nearest integer, the upper one in a
    tie. *)
Definition Math_round_number (n : float) : float :=
  if PrimFloat.is_nan n || (two52 <=? PrimFloat.abs n)%float || (n =? 0)%float then n
  else if (0 <? n)%float && (n <? 0.5)%float then 0%float
  else if (n <? 0)%float && (-0.5 <=? n)%float then PrimFloat.neg_zero
  else
    let f := Math_floor n in
    if (0.5 <=? n - f)%float then (f + 1)%float else f.

(** The real number that a finite double stands for. *)
Definition double_value (d : float) : option R :=
  match Prim2SF d with
  | S754_zero _ => Some 0%R
  | S754_finite s m e => Some (IZR (cond_Zopp s (Z.pos m)) * powerRZ 2 e)%R
  | _ => None
  end.

(** The double that stands for a coordinate of the state. *)
Definition to_double (x : R) : float :=
  epsilon (inhabits 0%float) (fun d => double_value d = Some x).

(** ** Configuration tables *)

Record PoiType : Type := {
  pt_icon : string;
  pt_color : string;
  pt_tags : list string;
  pt_name : string
}.

Definition POI_TYPES (category : string) : option PoiType :=
  if String.eqb category "food" then
    Some {| pt_icon := "🍽️"; pt_color := "#ef4444";
            pt_tags := ["amenity=restaurant"; "amenity=fast_food"; "amenity=food_court"];
            pt_name := "Restaurant" |}
  else if String.eqb category "cafe" then
    Some {| pt_icon := "☕"; pt_color := "#f59e0b";
            pt_tags := ["amenity=cafe"; "shop=coffee"];
            pt_name := "Cafe" |}
  else if String.eqb category "shop" then
    Some {| pt_icon := "🛍️"; pt_color := "#3b82f6";
            pt_tags := ["shop=mall"; "shop=department_store"; "shop=supermarket"; "shop=clothes"];
            pt_name := "Shop" |}
  else if String.eqb category "luxury" then
    Some {| pt_icon := "💎"; pt_color := "#a855f7";
            pt_tags := ["shop=jewelry"; "shop=boutique"; "shop=watches"; "amenity=spa"];
            pt_name := "Luxury" |}
  else if String.eqb category "landmark" then
    Some {| pt_icon := "🏛️"; pt_color := "#06b6d4";
            pt_tags := ["tourism=attraction"; "tourism=museum"; "historic=monument"; "tourism=viewpoint"];
            pt_name := "Landmark" |}
  else if String.eqb category "hotel" then
    Some {| pt_icon := "🏨"; pt_color := "#22c55e";
            pt_tags := ["tourism=hotel"; "tourism=guest_house"; "tourism=hostel"];
            pt_name := "Hotel" |}
  else None.

Record BudgetInfo : Type := {
  bi_name : string;
  bi_class : string;
  bi_symbol : string
}.

Definition BUDGET_LEVELS (level : Z) : option BudgetInfo :=
  if level =? 1 then Some {| bi_name := "Economy"; bi_class := "economy"; bi_symbol := "₹" |}
  else if level =? 2 then Some {| bi_name := "Moderate"; bi_class := "moderate"; bi_symbol := "₹₹" |}
  else if level =? 3 then Some {| bi_name := "Premium"; bi_class := "premium"; bi_symbol := "₹₹₹" |}
  else if level =? 4 then Some {| bi_name := "Luxury"; bi_class := "luxury"; bi_symbol := "₹₹₹₹" |}
  else None.

(** ** Application state *)

(** A reference to a marker object: its position in the store. *)
Abbreviation ref := nat.

(** The [divIcon] of a stop marker: the class of its inner element, its
    background colour and the letter shown. *)
Record StopIcon : Type := {
  si_type : string;
  si_background : string;
  si_label : Z
}.

Record StopMarker : Type := {
  sm_latlng : R * R;
  sm_icon : StopIcon;
  sm_popup : option (string * Z);   (* name and label given to bindPopup *)
  sm_on_map : bool
}.

Record PoiPopup : Type := {
  pp_name : string;
  pp_type : string;
  pp_price_range : string;
  pp_budget_class : string;
  pp_budget_symbol : string
}.

Record PoiMarker : Type := {
  pm_latlng : R * R;
  pm_icon_color : string;
  pm_icon_glyph : string;
  pm_budget : option Z;             (* options.budget *)
  pm_category : option string;      (* options.category *)
  pm_opacity : Q;
  pm_popup : option PoiPopup;
  pm_on_map : bool
}.

Record Stop : Type := {
  lat : R;
  lon : R;
  name : string;
  marker : ref
}.

(** One [<li>] of the stops list. *)
Inductive StopDetails : Type :=
| ClickOnMapToSet
| StopOf (position total : nat).

Record StopItem : Type := {
  li_index : option nat;            (* data-index; absent on the placeholder *)
  li_type : string;                 (* class next to stop-marker *)
  li_label : Z;
  li_name : string;
  li_details : StopDetails
}.

(** One entry of a day of the itinerary. *)
Record Place : Type := {
  pl_icon : string;
  pl_name : string;
  pl_type : string
}.

(** The elements of the itinerary panel. *)
Inductive ItineraryBlock : Type :=
| RouteInfo (stops : nat) (distance_km : float) (days : Z)
| ItineraryEmpty                   (* "No places found to add to itinerary" *)
| ItineraryDay (day : Z) (places : list Place).

(** A search location: a stop or a point between two stops. *)
Inductive PointName : Type :=
| NameOf (s : string)
| EnRoute (percent : Z).           (* "En Route (p%)" *)

Record Point : Type := {
  p_lat : R;
  p_lon : R;
  p_name : PointName
}.

Record State : Type := {
  stop_markers : list StopMarker;   (* store of the stop marker objects *)
  poi_markers : list PoiMarker;     (* store of the POI marker objects *)
  markers_stops : list ref;         (* state.markers.stops *)
  markers_pois : list ref;          (* state.markers.pois *)
  route_polyline : option (list (R * R));   (* state.route.polyline *)
  polyline_on_map : bool;
  route_stops : list Stop;          (* state.route.stops *)
  trip_days : Z;                    (* state.trip.days *)
  trip_budget : Z;                  (* state.trip.budget *)
  currentDestination : option Point;
  dom_stops_list : list StopItem;   (* #stops-list *)
  dom_itinerary : option (list ItineraryBlock)
    (* #itinerary-content; None when the panel is not in the page *)
}.

Definition initial_state : State := {|
  stop_markers := [];
  poi_markers := [];
  markers_stops := [];
  markers_pois := [];
  route_polyline := None;
  polyline_on_map := false;
  route_stops := [];
  trip_days := 3;
  trip_budget := 25000;
  currentDestination := None;
  dom_stops_list := [];
  dom_itinerary := Some []
|}.

(** Assignments to one field of [state]. *)
Definition with_stop_markers (h : list StopMarker) (st : State) : State :=
  {| stop_markers := h; poi_markers := poi_markers st;
     markers_stops := markers_stops st; markers_pois := markers_pois st;
     route_polyline := route_polyline st; polyline_on_map := polyline_on_map st;
     route_stops := route_stops st; trip_days := trip_days st;
     trip_budget := trip_budget st; currentDestination := currentDestination st;
     dom_stops_list := dom_stops_list st; dom_itinerary := dom_itinerary st |}.

Definition with_poi_markers (h : list PoiMarker) (st : State) : State :=
  {| stop_markers := stop_markers st; poi_markers := h;
     markers_stops := markers_stops st; markers_pois := markers_pois st;
     route_polyline := route_polyline st; polyline_on_map := polyline_on_map st;
     route_stops := route_stops st; trip_days := trip_days st;
     trip_budget := trip_budget st; currentDestination := currentDestination st;
     dom_stops_list := dom_stops_list st; dom_itinerary := dom_itinerary st |}.

Definition with_markers_stops (l : list ref) (st : State) : State :=
  {| stop_markers := stop_markers st; poi_markers := poi_markers st;
     markers_stops := l; markers_pois := markers_pois st;
     route_polyline := route_polyline st; polyline_on_map := polyline_on_map st;
     route_stops := route_stops st; trip_days := trip_days st;
     trip_budget := trip_budget st; currentDestination := currentDestination st;
     dom_stops_list := dom_stops_list st; dom_itinerary := dom_itinerary st |}.

Definition with_markers_pois (l : list ref) (st : State) : State :=
  {| stop_markers := stop_markers st; poi_markers := poi_markers st;
     markers_stops := markers_stops st; markers_pois := l;
     route_polyline := route_polyline st; polyline_on_map := polyline_on_map st;
     route_stops := route_stops st; trip_days := trip_days st;
     trip_budget := trip_budget st; currentDestination := currentDestination st;
     dom_stops_list := dom_stops_list st; dom_itinerary := dom_itinerary st |}.

Definition with_polyline (p : option (list (R * R))) (shown : bool) (st : State) : State :=
  {| stop_markers := stop_markers st; poi_markers := poi_markers st;
     markers_stops := markers_stops st; markers_pois := markers_pois st;
     route_polyline := p; polyline_on_map := shown;
     route_stops := route_stops st; trip_days := trip_days st;
     trip_budget := trip_budget st; currentDestination := currentDestination st;
     dom_stops_list := dom_stops_list st; dom_itinerary := dom_itinerary st |}.

Definition with_route_stops (l : list Stop) (st : State) : State :=
  {| stop_markers := stop_markers st; poi_markers := poi_markers st;
     markers_stops := markers_stops st; markers_pois := markers_pois st;
     route_polyline := route_polyline st; polyline_on_map := polyline_on_map st;
     route_stops := l; trip_days := trip_days st;
     trip_budget := trip_budget st; currentDestination := currentDestination st;
     dom_stops_list := dom_stops_list st; dom_itinerary := dom_itinerary st |}.

Definition with_trip_budget (b : Z) (st : State) : State :=
  {| stop_markers := stop_markers st; poi_markers := poi_markers st;
     markers_stops := markers_stops st; markers_pois := markers_pois st;
     route_polyline := route_polyline st; polyline_on_map := polyline_on_map st;
     route_stops := route_stops st; trip_days := trip_days st;
     trip_budget := b; currentDestination := currentDestination st;
     dom_stops_list := dom_stops_list st; dom_itinerary := dom_itinerary st |}.

Definition with_trip_days (d : Z) (st : State) : State :=
  {| stop_markers := stop_markers st; poi_markers := poi_markers st;
     markers_stops := markers_stops st; markers_pois := markers_pois st;
     route_polyline := route_polyline st; polyline_on_map := polyline_on_map st;
     route_stops := route_stops st; trip_days := d;
     trip_budget := trip_budget st; currentDestination := currentDestination st;
     dom_stops_list := dom_stops_list st; dom_itinerary := dom_itinerary st |}.

Definition with_dom_stops_list (l : list StopItem) (st : State) : State :=
  {| stop_markers := stop_markers st; poi_markers := poi_markers st;
     markers_stops := markers_stops st; markers_pois := markers_pois st;
     route_polyline := route_polyline st; polyline_on_map := polyline_on_map st;
     route_stops := route_stops st; trip_days := trip_days st;
     trip_budget := trip_budget st; currentDestination := currentDestination st;
     dom_stops_list := l; dom_itinerary := dom_itinerary st |}.

Definition with_dom_itinerary (c : option (list ItineraryBlock)) (st : State) : State :=
  {| stop_markers := stop_markers st; poi_markers := poi_markers st;
     markers_stops := markers_stops st; markers_pois := markers_pois st;
     route_polyline := route_polyline st; polyline_on_map := polyline_on_map st;
     route_stops := route_stops st; trip_days := trip_days st;
     trip_budget := trip_budget st; currentDestination := currentDestination st;
     dom_stops_list := dom_stops_list st; dom_itinerary := c |}.

(** ** Trip duration *)

Definition adjustDays (delta : Z) (st : State) : State :=
  with_trip_days (Z.max 1 (Z.min 30 (trip_days st + delta))) st.

(** ** Route stops *)

(** The stops list of the side panel, from the current stops. *)
Definition stop_item_type (index len : nat) : string :=
  if (index =? 0)%nat then "start"
  else if (index =? len - 1)%nat && (1 <? len)%nat then "end"
  else "".

Definition stops_list_html (stops : list Stop) : list StopItem :=
  if (length stops =? 0)%nat then
    [ {| li_index := None; li_type := "start"; li_label := 65;
         li_name := "Starting Point"; li_details := ClickOnMapToSet |} ]
  else
    imap (fun index stop =>
            {| li_index := Some index;
               li_type := stop_item_type index (length stops);
               li_label := String_fromCharCode (65 + Z.of_nat index);
               li_name := name stop;
               li_details := StopOf (index + 1) (length stops) |}) stops.

Definition updateStopsList (st : State) : State :=
  with_dom_stops_list (stops_list_html (route_stops st)) st.

Definition updateRoute (st : State) : State :=
  let st1 := match route_polyline st with
             | Some p => with_polyline (Some p) false st
             | None => st
             end in
  if (length (route_stops st1) <? 2)%nat then st1
  else with_polyline (Some (map (fun stop => (lat stop, lon stop)) (route_stops st1))) true st1.

Definition stop_background (type : string) : string :=
  if String.eqb type "start" then "#34d399"
  else if String.eqb type "end" then "#f472b6"
  else "#6366f1".

Definition addStop (lat0 lon0 : R) (name0 : string) (type : string) (st : State)
  : Completion * State :=
  let stopIndex := length (route_stops st) in
  let markerLabel := String_fromCharCode (65 + Z.of_nat stopIndex) in
  let markerIcon := {| si_type := type; si_background := stop_background type;
                       si_label := markerLabel |} in
  let m := length (stop_markers st) in
  let new_marker := {| sm_latlng := (lat0, lon0); sm_icon := markerIcon;
                       sm_popup := Some (name0, markerLabel); sm_on_map := true |} in
  let st1 := with_stop_markers (stop_markers st ++ [new_marker]) st in
  let st2 := with_route_stops
               (route_stops st1 ++ [ {| lat := lat0; lon := lon0; name := name0; marker := m |} ])
               st1 in
  let st3 := with_markers_stops (markers_stops st2 ++ [m]) st2 in
  (ReturnsUndefined, updateRoute (updateStopsList st3)).

(** The default of the fourth parameter. *)
Definition addStop_default (lat0 lon0 : R) (name0 : string) (st : State)
  : Completion * State :=
  addStop lat0 lon0 name0 "stop" st.

Definition setLatLng (ll : R * R) (m : StopMarker) : StopMarker :=
  {| sm_latlng := ll; sm_icon := sm_icon m; sm_popup := sm_popup m;
     sm_on_map := sm_on_map m |}.

Definition setIcon (icon : StopIcon) (m : StopMarker) : StopMarker :=
  {| sm_latlng := sm_latlng m; sm_icon := icon; sm_popup := sm_popup m;
     sm_on_map := sm_on_map m |}.

Definition removeLayer (m : StopMarker) : StopMarker :=
  {| sm_latlng := sm_latlng m; sm_icon := sm_icon m; sm_popup := sm_popup m;
     sm_on_map := false |}.

Definition updateStop (index : Q) (lat0 lon0 : R) (name0 : string) (st : State)
  : Completion * State :=
  match array_get (route_stops st) index with
  | None => (ReturnsUndefined, st)
  | Some stop =>
      let st1 := with_stop_markers
                   (alter (setLatLng (lat0, lon0)) (marker stop) (stop_markers st)) st in
      let stop' := {| lat := lat0; lon := lon0; name := name0; marker := marker stop |} in
      let st2 := with_route_stops
                   (<[Z.to_nat (Qfloor index) := stop']> (route_stops st1)) st1 in
      (ReturnsUndefined, updateRoute (updateStopsList st2))
  end.

(** The icon given to the marker at position [i] when the markers are
    re-labelled after a removal. *)
Definition relabel_icon (i : nat) : StopIcon :=
  let label := String_fromCharCode (65 + Z.of_nat i) in
  let type := if (i =? 0)%nat then "start" else "stop" in
  {| si_type := type;
     si_background := if String.eqb type "start" then "#34d399" else "#6366f1";
     si_label := label |}.

(** [stops.forEach((stop, i) => stop.marker.setIcon(...))], from index [i]. *)
Fixpoint relabel_from (i : nat) (stops : list Stop) (h : list StopMarker)
  : list StopMarker :=
  match stops with
  | [] => h
  | stop :: rest => relabel_from (S i) rest (alter (setIcon (relabel_icon i)) (marker stop) h)
  end.

Definition removeStop (index : Q) (st : State) : Completion * State :=
  if Qlt_bool index 0 || Qle_bool (inject_Z (Z.of_nat (length (route_stops st)))) index
  then (ReturnsUndefined, st)
  else
    match array_get (route_stops st) index with
    | None => (Throws TypeError, st)       (* reading [marker] of undefined *)
    | Some stop =>
        let st1 := with_stop_markers (alter removeLayer (marker stop) (stop_markers st)) st in
        let st2 := with_route_stops (splice1 (route_stops st1) index) st1 in
        let st3 := with_markers_stops (splice1 (markers_stops st2) index) st2 in
        let st4 := with_stop_markers (relabel_from 0 (route_stops st3) (stop_markers st3)) st3 in
        (ReturnsUndefined, updateRoute (updateStopsList st4))
    end.

(** A stop sequence built by appending stops one after the other. *)
Record AppendArgs : Type := {
  a_lat : R;
  a_lon : R;
  a_name : string;
  a_type : string
}.

Definition append (a : AppendArgs) (st : State) : State :=
  snd (addStop (a_lat a) (a_lon a) (a_name a) (a_type a) st).

Definition append_all (args : list AppendArgs) (st : State) : State :=
  foldl (fun s a => append a s) st args.

(** ** Points of interest *)

(** An element of an Overpass answer: its position and [tags.name]. *)
Record RawPoi : Type := {
  poi_lat : R;
  poi_lon : R;
  poi_tags_name : option string
}.

(** [a || b] on strings: the empty string is falsy. *)
Definition or_string (a : option string) (b : string) : string :=
  match a with
  | Some s => if String.eqb s "" then b else s
  | None => b
  end.

Definition price_range (budget : Z) : string :=
  if budget <=? 2 then "₹200 - ₹500"
  else if budget =? 3 then "₹500 - ₹1500"
  else "₹1500+".

(** [createPOIMarker(poi, category)], where [r] is the value drawn by
    [Math.random()] for the budget level. The popup text reads
    [budgetInfo.class]: when [BUDGET_LEVELS] has no entry for the level the
    function throws after the marker was put on the map and before it is
    pushed on [state.markers.pois]. *)
Definition createPOIMarker (poi : RawPoi) (category : string) (r : Q) (st : State)
  : Completion * State :=
  match POI_TYPES category with
  | None => (Throws TypeError, st)
  | Some poiType =>
      let name0 := or_string (poi_tags_name poi) (pt_name poiType) in
      let budget := Math_ceil (r * 4) in
      let budgetInfo := BUDGET_LEVELS budget in
      let m := length (poi_markers st) in
      let new_marker := {| pm_latlng := (poi_lat poi, poi_lon poi);
                           pm_icon_color := pt_color poiType;
                           pm_icon_glyph := pt_icon poiType;
                           pm_budget := Some budget;
                           pm_category := Some category;
                           pm_opacity := 1;
                           pm_popup := None;
                           pm_on_map := true |} in
      let st1 := with_poi_markers (poi_markers st ++ [new_marker]) st in
      let priceRange := price_range budget in
      match budgetInfo with
      | None => (Throws TypeError, st1)
      | Some info =>
          let popup := {| pp_name := name0; pp_type := pt_name poiType;
                          pp_price_range := priceRange;
                          pp_budget_class := bi_class info;
                          pp_budget_symbol := bi_symbol info |} in
          let bind := fun mk =>
            {| pm_latlng := pm_latlng mk; pm_icon_color := pm_icon_color mk;
               pm_icon_glyph := pm_icon_glyph mk; pm_budget := pm_budget mk;
               pm_category := pm_category mk; pm_opacity := pm_opacity mk;
               pm_popup := Some popup; pm_on_map := pm_on_map mk |} in
          let st2 := with_poi_markers (alter bind m (poi_markers st1)) st1 in
          (ReturnsUndefined, with_markers_pois (markers_pois st2 ++ [m]) st2)
      end
  end.

Definition poi_removeLayer (mk : PoiMarker) : PoiMarker :=
  {| pm_latlng := pm_latlng mk; pm_icon_color := pm_icon_color mk;
     pm_icon_glyph := pm_icon_glyph mk; pm_budget := pm_budget mk;
     pm_category := pm_category mk; pm_opacity := pm_opacity mk;
     pm_popup := pm_popup mk; pm_on_map := false |}.

Definition clearPOIMarkers (st : State) : State :=
  let h := foldl (fun h r => alter poi_removeLayer r h) (poi_markers st) (markers_pois st) in
  with_markers_pois [] (with_poi_markers h st).

Definition setOpacity (o : Q) (mk : PoiMarker) : PoiMarker :=
  {| pm_latlng := pm_latlng mk; pm_icon_color := pm_icon_color mk;
     pm_icon_glyph := pm_icon_glyph mk; pm_budget := pm_budget mk;
     pm_category := pm_category mk; pm_opacity := o;
     pm_popup := pm_popup mk; pm_on_map := pm_on_map mk |}.

(** [marker.options.budget || 2]: [undefined] and [0] are falsy. *)
Definition markerBudget (mk : PoiMarker) : Z :=
  match pm_budget mk with
  | Some b => if b =? 0 then 2 else b
  | None => 2
  end.

(** The body of the [forEach] of [filterPOIsByBudget]. *)
Definition budget_opacity (budget : Z) (mk : PoiMarker) : PoiMarker :=
  let visible := markerBudget mk <=? budget in
  if visible then setOpacity 1 mk else setOpacity (2 # 10) mk.

Definition filterPOIsByBudget (st : State) : State :=
  with_poi_markers
    (foldl (fun h r => alter (budget_opacity (trip_budget st)) r h)
           (poi_markers st) (markers_pois st))
    st.

(** [handleBudgetChange], with [value] the integer parsed from the slider. *)
Definition handleBudgetChange (value : Z) (st : State) : State :=
  filterPOIsByBudget (with_trip_budget value st).

(** A marker is shown at full opacity. *)
Definition is_visible (h : list PoiMarker) (r : ref) : bool :=
  match h !! r with
  | Some mk => Qeq_bool (pm_opacity mk) 1
  | None => false
  end.

(** The level stored on the marker behind a reference. *)
Definition stored_budget (h : list PoiMarker) (r : ref) : option Z :=
  mk ← h !! r; pm_budget mk.

(** Every record of the catalog is a marker of the store whose level is
    one of the keys of [BUDGET_LEVELS]. *)
Definition valid_level (b : Z) : bool := (1 <=? b) && (b <=? 4).

Definition valid_catalog (st : State) : bool :=
  forallb (fun r => match stored_budget (poi_markers st) r with
                    | Some b => valid_level b
                    | None => false
                    end) (markers_pois st).

(** ** Geometry *)

(** [haversineDistance(lat1, lon1, lat2, lon2)] with the library [M] for
    [Math.sin], [Math.cos] and [Math.atan2]. *)
Definition haversineDistance (M : MathLibrary) (lat1 lon1 lat2 lon2 : float) : float :=
  let R0 := 6371%float in
  let dLat := ((lat2 - lat1) * Math_PI / 180)%float in
  let dLon := ((lon2 - lon1) * Math_PI / 180)%float in
  let a := (Math_sin M (dLat / 2) * Math_sin M (dLat / 2) +
            Math_cos M (lat1 * Math_PI / 180) * Math_cos M (lat2 * Math_PI / 180) *
            Math_sin M (dLon / 2) * Math_sin M (dLon / 2))%float in
  let c := (2 * Math_atan2 M (Math_sqrt a) (Math_sqrt (1 - a)))%float in
  (R0 * c)%float.

(** The pairs [(stops[i], stops[i + 1])] for [i] from [0] to [length - 2]. *)
Fixpoint segments {A : Type} (l : list A) : list (A * A) :=
  match l with
  | [] => []
  | a :: rest =>
      match rest with
      | [] => []
      | b :: _ => (a, b) :: segments rest
      end
  end.

Definition totalDistance (stops : list Stop) : float :=
  foldl (fun total '(from, to) =>
           (total + haversineDistance Math (to_double (lat from)) (to_double (lon from))
                                           (to_double (lat to)) (to_double (lon to)))%float)
        0%float (segments stops).

Definition calculateRouteDistance (st : State) : float :=
  if (length (route_stops st) <? 2)%nat then 0%float
  else Math_round_number (totalDistance (route_stops st)).

(** The integers [1, 2, ..., n] of a counting loop. *)
Definition count_from_1 (n : Z) : list Z :=
  map Z.of_nat (seq 1 (Z.to_nat n)).

Definition getIntermediatePoints (from to : Point) (numPoints : Z) : list Point :=
  map (fun i =>
         let fraction := (IZR i / IZR (numPoints + 1))%R in
         {| p_lat := (p_lat from + (p_lat to - p_lat from) * fraction)%R;
            p_lon := (p_lon from + (p_lon to - p_lon from) * fraction)%R;
            p_name := EnRoute (Math_round (fraction * 100)) |})
      (count_from_1 numPoints).

(** ** Search locations of [explorePlaces] *)

(** What a search location keeps of a stop. *)
Definition point_of_stop (s : Stop) : Point :=
  {| p_lat := lat s; p_lon := lon s; p_name := NameOf (name s) |}.

(** The [searchPoints] array, with the number of points between two stops
    as a parameter. *)
Definition routeSearchPoints (pointsPerSegment : Z) (st : State) : list Point :=
  if (0 <? length (route_stops st))%nat then
    map point_of_stop (route_stops st) ++
    flat_map (fun '(from, to) =>
                getIntermediatePoints (point_of_stop from) (point_of_stop to) pointsPerSegment)
             (segments (route_stops st))
  else
    match currentDestination st with
    | Some d => [d]
    | None => []
    end.

(** [explorePlaces] asks for 3 points between each pair of stops. *)
Definition explorePlaces_searchPoints (st : State) : list Point :=
  routeSearchPoints 3 st.

(** ** Itinerary *)

(** An element of the [pois] array built by [generateItinerary]. *)
Record PoiInfo : Type := {
  pi_name : string;
  pi_category : option string;
  pi_latlng : R * R;
  pi_icon : string
}.

(** [html.match(/>([^<]+)</)?.[1] || 'Place'] on the icon of a POI marker:
    the first [>] of the icon text closes its opening tag, so the match is
    the text up to the closing tag, which is the glyph of the category (no
    glyph of [POI_TYPES] holds a [<]); without a glyph nothing matches. *)
Definition icon_text (glyph : string) : string :=
  if String.eqb glyph "" then "Place" else glyph.

Definition category_type (category : option string) : option PoiType :=
  c ← category; POI_TYPES c.

Definition poi_info (mk : PoiMarker) : PoiInfo :=
  {| pi_name := icon_text (pm_icon_glyph mk);
     pi_category := pm_category mk;
     pi_latlng := pm_latlng mk;
     pi_icon := or_string (pt_icon <$> category_type (pm_category mk)) "📍" |}.

Definition itinerary_pois (st : State) : list PoiInfo :=
  omap (fun r => poi_info <$> poi_markers st !! r) (markers_pois st).

Definition poi_place (poi : PoiInfo) : Place :=
  {| pl_icon := pi_icon poi;
     pl_name := pi_name poi;
     pl_type := or_string (pt_name <$> category_type (pi_category poi)) "Place" |}.

Definition start_place (stops : list Stop) : list Place :=
  match stops !! 0%nat with
  | Some s => [ {| pl_icon := "🟢"; pl_name := or_string (Some (name s)) "Start";
                   pl_type := "Starting Point" |} ]
  | None => []
  end.

Definition end_place (stops : list Stop) : list Place :=
  match stops !! (length stops - 1)%nat with
  | Some s => [ {| pl_icon := "🔴"; pl_name := or_string (Some (name s)) "Destination";
                   pl_type := "Final Destination" |} ]
  | None => []
  end.

(** The entries of a day: the start of the route on the first day, the
    places of the day, the destination on the day [tripDays]. *)
Definition day_places (stops : list Stop) (tripDays day : Z) (dayPois : list PoiInfo)
  : list Place :=
  (if (day =? 1) && (0 <? length stops)%nat then start_place stops else []) ++
  map poi_place dayPois ++
  (if (day =? tripDays) && (1 <? length stops)%nat then end_place stops else []).

(** One turn of the loop over the days: nothing for a day without places. *)
Definition itinerary_day (stops : list Stop) (pois : list PoiInfo)
    (tripDays poisPerDay day : Z) : list ItineraryBlock :=
  let startIdx := (day - 1) * poisPerDay in
  let dayPois := slice pois startIdx (startIdx + poisPerDay) in
  if (length dayPois =? 0)%nat then []
  else [ ItineraryDay day (day_places stops tripDays day dayPois) ].

(** The text that [generateItinerary] assigns to the panel. *)
Definition itinerary_html (st : State) : list ItineraryBlock :=
  let routeDistance := calculateRouteDistance st in
  let tripDays := trip_days st in
  let pois := itinerary_pois st in
  let header := RouteInfo (length (route_stops st)) routeDistance tripDays in
  if (length pois =? 0)%nat then [header; ItineraryEmpty]
  else
    let poisPerDay := Math_ceil (inject_Z (Z.of_nat (length pois)) / inject_Z tripDays) in
    header :: flat_map (itinerary_day (route_stops st) pois tripDays poisPerDay)
                       (count_from_1 tripDays).

Definition generateItinerary (st : State) : Completion * State :=
  match dom_itinerary st with
  | None => (ReturnsUndefined, st)
  | Some _ => (ReturnsUndefined, with_dom_itinerary (Some (itinerary_html st)) st)
  end.

(** The days of an itinerary, and the places of each day. *)
Definition itinerary_days (html : list ItineraryBlock) : list (Z * list Place) :=
  omap (fun b => match b with
                 | ItineraryDay d places => Some (d, places)
                 | _ => None
                 end) html.

(** ** Well-formed stores and sample data *)

(** The markers of the stops are distinct objects of the store. *)
Definition stops_wf (st : State) : Prop :=
  NoDup (marker <$> route_stops st) ∧
  Forall (fun r => (r < length (stop_markers st))%nat) (marker <$> route_stops st).

(** Out of the valid range [0, length) of the stop sequence. *)
Definition out_of_range (index : Q) (st : State) : Prop :=
  (index < 0 ∨ inject_Z (Z.of_nat (length (route_stops st))) <= index)%Q.

(** A completion that tells the caller that something went wrong. *)
Definition signals_error (c : Completion) : Prop :=
  match c with
  | Throws _ => True
  | ReturnsUndefined => False
  end.

Definition delhi : AppendArgs :=
  {| a_lat := 28.6139%R; a_lon := 77.2090%R; a_name := "Delhi"; a_type := "start" |}.
Definition mathura : AppendArgs :=
  {| a_lat := 27.4924%R; a_lon := 77.6737%R; a_name := "Mathura"; a_type := "stop" |}.
Definition agra : AppendArgs :=
  {| a_lat := 27.1767%R; a_lon := 78.0081%R; a_name := "Agra"; a_type := "end" |}.

Definition delhi_agra : State := append_all [delhi; agra] initial_state.
Definition delhi_mathura_agra : State := append_all [delhi; mathura; agra] initial_state.

(** The level stored on a record is at most [maxLevel]. *)
Definition level_at_most (h : list PoiMarker) (maxLevel : Z) (r : ref) : bool :=
  match stored_budget h r with
  | Some b => b <=? maxLevel
  | None => false
  end.

(** The records shown at full opacity, in the order of the catalog. *)
Definition visible_pois (st : State) : list ref :=
  List.filter (is_visible (poi_markers st)) (markers_pois st).

(** Ingestion of one answer of the data source, one draw per element. *)
Definition ingest (category : string) (st : State) (entry : RawPoi * Q) : State :=
  snd (createPOIMarker (fst entry) category (snd entry) st).

Definition red_fort : RawPoi :=
  {| poi_lat := 28.6562%R; poi_lon := 77.2410%R; poi_tags_name := Some "Red Fort" |}.

(** Four records with the levels 1, 2, 3 and 4. *)
Definition four_levels : State :=
  foldl (ingest "landmark") initial_state
        [(red_fort, 1 # 8); (red_fort, 1 # 2); (red_fort, 5 # 8); (red_fort, 9 # 10)].

(** A catalog holding a record whose stored level is 0. *)
Definition zero_level_catalog : State :=
  with_markers_pois [0%nat] (ingest "landmark" initial_state (red_fort, 0%Q)).

(** The kinds of the entries of a day, for display. *)
Definition day_entry_types (d : Z * list Place) : Z * list string :=
  (fst d, map pl_type (snd d)).

(** The partition of a list into contiguous chunks of [p] elements, the
    last one shorter when the length is not a multiple of [p], as the
    specification of the planner words it. *)
Fixpoint chunks_fuel {A : Type} (fuel p : nat) (l : list A) : list (list A) :=
  match fuel with
  | O => []
  | S fuel' =>
      match l with
      | [] => []
      | _ :: _ => take p l :: chunks_fuel fuel' p (drop p l)
      end
  end.

Definition contiguous_chunks {A : Type} (p : nat) (l : list A) : list (list A) :=
  chunks_fuel (length l) p l.

(** Two stops, four places, the three days of the initial state. *)
Definition delhi_agra_four_places : State :=
  foldl (ingest "landmark") delhi_agra
        [(red_fort, 1 # 8); (red_fort, 1 # 2); (red_fort, 5 # 8); (red_fort, 9 # 10)].

(** Two stops, seven places, three days. *)
Definition delhi_agra_seven_places : State :=
  foldl (ingest "landmark") delhi_agra
        [(red_fort, 1 # 8); (red_fort, 1 # 2); (red_fort, 5 # 8); (red_fort, 9 # 10);
         (red_fort, 1 # 2); (red_fort, 1 # 2); (red_fort, 1 # 2)].

(** ** Commands on the route *)

(** The calls that change the stops, as the page issues them one after the
    other. An exception ends the handler that made the call and the next
    call starts from the state it left. *)
Inductive RouteCommand : Type :=
| AddStop (lat0 lon0 : R) (name0 type : string)
| UpdateStop (index : Q) (lat0 lon0 : R) (name0 : string)
| RemoveStop (index : Q).

Definition run_command (c : RouteCommand) (st : State) : Completion * State :=
  match c with
  | AddStop lat0 lon0 name0 type => addStop lat0 lon0 name0 type st
  | UpdateStop index lat0 lon0 name0 => updateStop index lat0 lon0 name0 st
  | RemoveStop index => removeStop index st
  end.

Definition run_commands (cs : list RouteCommand) (st : State) : State :=
  foldl (fun s c => snd (run_command c s)) st cs.

(** The marker of the stop at position [j] is where the stop is, on the map,
    and shows the letter of the position. *)
Definition marker_in_place (st : State) (j : nat) (s : Stop) : Prop :=
  ∃ mk, stop_markers st !! marker s = Some mk ∧
        si_label (sm_icon mk) = String_fromCharCode (65 + Z.of_nat j) ∧
        sm_latlng mk = (lat s, lon s) ∧
        sm_on_map mk = true.

(** The positions of the stops, as the route line takes them. *)
Definition stop_latlngs (stops : list Stop) : list (R * R) :=
  map (fun stop => (lat stop, lon stop)) stops.

(** What holds of the route between two commands. *)
Record route_inv (st : State) : Prop := {
  inv_wf : stops_wf st;
  inv_aligned : markers_stops st = marker <$> route_stops st;
  inv_markers : ∀ j s, route_stops st !! j = Some s → marker_in_place st j s;
  inv_list : route_stops st ≠ [] → dom_stops_list st = stops_list_html (route_stops st);
  inv_polyline_shown : polyline_on_map st = (2 <=? length (route_stops st))%nat;
  inv_polyline : polyline_on_map st = true →
                 route_polyline st = Some (stop_latlngs (route_stops st))
}.

(** Three stops, the second removed, the first moved. *)
Definition sample_commands : list RouteCommand :=
  [ AddStop 28.6139%R 77.2090%R "Delhi" "start";
    AddStop 27.4924%R 77.6737%R "Mathura" "stop";
    AddStop 27.1767%R 78.0081%R "Agra" "end";
    RemoveStop (inject_Z 1);
    UpdateStop (inject_Z 0) 28.7041%R 77.1025%R "New Delhi" ].

Definition agra_stop : Stop :=
  {| lat := 27.1767%R; lon := 78.0081%R; name := "Agra"; marker := 2%nat |}.

(** The term [a] that [haversineDistance] takes the square roots of. *)
Definition haversine_a (M : MathLibrary) (lat1 lon1 lat2 lon2 : float) : float :=
  let dLat := ((lat2 - lat1) * Math_PI / 180)%float in
  let dLon := ((lon2 - lon1) * Math_PI / 180)%float in
  (Math_sin M (dLat / 2) * Math_sin M (dLat / 2) +
   Math_cos M (lat1 * Math_PI / 180) * Math_cos M (lat2 * Math_PI / 180) *
   Math_sin M (dLon / 2) * Math_sin M (dLon / 2))%float.

(** ** Answers of the data source *)

(** [data.elements.forEach(poi => createPOIMarker(poi, category))]: each
    element comes with the value that [Math.random()] draws for its level;
    an exception ends the loop. *)
Fixpoint create_markers (category : string) (elements : list (RawPoi * Q)) (st : State)
  : Completion * State :=
  match elements with
  | [] => (ReturnsUndefined, st)
  | (poi, r) :: rest =>
      match createPOIMarker poi category r st with
      | (ReturnsUndefined, st') => create_markers category rest st'
      | (Throws e, st') => (Throws e, st')
      end
  end.

(** [fetchPOIs(lat, lon, category)], from the point where the request has
    been answered: [response] is [None] when the request or the reading of
    its answer failed. The handler of the function catches whatever the loop
    throws. Nothing of the function reads the state before that point, and
    the loop runs without interruption. *)
Definition fetchPOIs (category : string) (response : option (list (RawPoi * Q)))
    (st : State) : Completion * State :=
  match POI_TYPES category with
  | None => (ReturnsUndefined, st)
  | Some _ =>
      match response with
      | None => (ReturnsUndefined, st)
      | Some elements => (ReturnsUndefined, snd (create_markers category elements st))
      end
  end.

(** A draw that gives a level of [BUDGET_LEVELS]. *)
Definition positive_draw (r : Q) : Prop := (0 < r)%Q ∧ (r < 1)%Q.

(** The markers that ingestion creates for draws strictly between 0 and 1. *)
Definition ingested (category : string) (mk : PoiMarker) : Prop :=
  (∃ b, pm_budget mk = Some b ∧ 1 <= b <= 4) ∧
  pm_category mk = Some category ∧ pm_on_map mk = true ∧ pm_opacity mk = 1%Q.

Definition jama_masjid : RawPoi :=
  {| poi_lat := 28.6507%R; poi_lon := 77.2334%R; poi_tags_name := None |}.

(** ** The page around the route *)

Definition with_currentDestination (d : option Point) (st : State) : State :=
  {| stop_markers := stop_markers st; poi_markers := poi_markers st;
     markers_stops := markers_stops st; markers_pois := markers_pois st;
     route_polyline := route_polyline st; polyline_on_map := polyline_on_map st;
     route_stops := route_stops st; trip_days := trip_days st;
     trip_budget := trip_budget st; currentDestination := d;
     dom_stops_list := dom_stops_list st; dom_itinerary := dom_itinerary st |}.

(** The character [','], of code 44. *)
Definition comma : Ascii.ascii := Ascii.Ascii false false true true false true false false.

(** [s.split(',')[0]]: the text before the first comma. *)
Fixpoint first_segment (s : string) : string :=
  match s with
  | EmptyString => EmptyString
  | String c rest =>
      if Ascii.eqb c comma then EmptyString else String c (first_segment rest)
  end.

(** A result of the place search: the numbers that [parseFloat] reads from
    [lat] and [lon], and [display_name]. *)
Record GeocodeResult : Type := {
  gr_lat : R;
  gr_lon : R;
  gr_display_name : string
}.

(** A search input and the container of its results. *)
Record SearchBox : Type := {
  sb_value : string;
  sb_results_shown : bool
}.

Record AddStopMode : Type := {
  isAddingStop : bool;
  body_cursor : string;
  add_stop_btn_html : string;
  add_stop_btn_active : bool
}.

Record TileLayers : Type := {
  currentLayer : string;
  streetLayer_on_map : bool;
  satelliteLayer_on_map : bool
}.

(** A category of the side panel: [dataset.category], the checkbox and the
    class [active]. *)
Record CategoryItem : Type := {
  ci_category : string;
  ci_checked : bool;
  ci_active : bool
}.

Record WidgetCheckbox : Type := {
  wc_category : string;
  wc_checked : bool
}.

(** What #explore-btn shows: the spinner with "Searching...", or
    "Explore Places". *)
Inductive ExploreLabel : Type :=
| Searching
| ExplorePlaces.

Record ExploreButton : Type := {
  eb_html : ExploreLabel;
  eb_disabled : bool
}.

(** The rest of [state] and the elements of the document that the handlers
    below read and write. *)
Record Page : Type := {
  state : State;   (* the part of [state] and of the page modelled above *)
  currentOrigin : option Point;   (* state.currentOrigin *)
  selectedCategories : list string;   (* state.selectedCategories, in insertion order *)
  add_stop : AddStopMode;   (* state.isAddingStop, the cursor and #add-stop-btn *)
  layers : TileLayers;   (* the tile layers of the map *)
  origin_search : SearchBox;   (* #origin-search and its results *)
  destination_search : SearchBox;   (* #destination-search and its results *)
  poi_categories : list CategoryItem;   (* the .poi-category elements *)
  widget_checkboxes : list WidgetCheckbox;   (* the .widget-checkbox elements *)
  poi_filter_widget_shown : bool;   (* display of #poi-filter-widget *)
  explore_btn : ExploreButton;   (* #explore-btn *)
  alerts : list string   (* the messages of [alert], oldest first *)
}.

(** Assignments to one part of the page. *)
Definition with_state (x : State) (pg : Page) : Page :=
  {| state := x; currentOrigin := currentOrigin pg;
     selectedCategories := selectedCategories pg; add_stop := add_stop pg;
     layers := layers pg; origin_search := origin_search pg;
     destination_search := destination_search pg; poi_categories := poi_categories pg;
     widget_checkboxes := widget_checkboxes pg;
     poi_filter_widget_shown := poi_filter_widget_shown pg; explore_btn := explore_btn pg;
     alerts := alerts pg |}.

Definition with_currentOrigin (x : option Point) (pg : Page) : Page :=
  {| state := state pg; currentOrigin := x; selectedCategories := selectedCategories pg;
     add_stop := add_stop pg; layers := layers pg; origin_search := origin_search pg;
     destination_search := destination_search pg; poi_categories := poi_categories pg;
     widget_checkboxes := widget_checkboxes pg;
     poi_filter_widget_shown := poi_filter_widget_shown pg; explore_btn := explore_btn pg;
     alerts := alerts pg |}.

Definition with_selectedCategories (x : list string) (pg : Page) : Page :=
  {| state := state pg; currentOrigin := currentOrigin pg; selectedCategories := x;
     add_stop := add_stop pg; layers := layers pg; origin_search := origin_search pg;
     destination_search := destination_search pg; poi_categories := poi_categories pg;
     widget_checkboxes := widget_checkboxes pg;
     poi_filter_widget_shown := poi_filter_widget_shown pg; explore_btn := explore_btn pg;
     alerts := alerts pg |}.

Definition with_add_stop (x : AddStopMode) (pg : Page) : Page :=
  {| state := state pg; currentOrigin := currentOrigin pg;
     selectedCategories := selectedCategories pg; add_stop := x; layers := layers pg;
     origin_search := origin_search pg; destination_search := destination_search pg;
     poi_categories := poi_categories pg; widget_checkboxes := widget_checkboxes pg;
     poi_filter_widget_shown := poi_filter_widget_shown pg; explore_btn := explore_btn pg;
     alerts := alerts pg |}.

Definition with_layers (x : TileLayers) (pg : Page) : Page :=
  {| state := state pg; currentOrigin := currentOrigin pg;
     selectedCategories := selectedCategories pg; add_stop := add_stop pg; layers := x;
     origin_search := origin_search pg; destination_search := destination_search pg;
     poi_categories := poi_categories pg; widget_checkboxes := widget_checkboxes pg;
     poi_filter_widget_shown := poi_filter_widget_shown pg; explore_btn := explore_btn pg;
     alerts := alerts pg |}.

Definition with_origin_search (x : SearchBox) (pg : Page) : Page :=
  {| state := state pg; currentOrigin := currentOrigin pg;
     selectedCategories := selectedCategories pg; add_stop := add_stop pg;
     layers := layers pg; origin_search := x; destination_search := destination_search pg;
     poi_categories := poi_categories pg; widget_checkboxes := widget_checkboxes pg;
     poi_filter_widget_shown := poi_filter_widget_shown pg; explore_btn := explore_btn pg;
     alerts := alerts pg |}.

Definition with_destination_search (x : SearchBox) (pg : Page) : Page :=
  {| state := state pg; currentOrigin := currentOrigin pg;
     selectedCategories := selectedCategories pg; add_stop := add_stop pg;
     layers := layers pg; origin_search := origin_search pg; destination_search := x;
     poi_categories := poi_categories pg; widget_checkboxes := widget_checkboxes pg;
     poi_filter_widget_shown := poi_filter_widget_shown pg; explore_btn := explore_btn pg;
     alerts := alerts pg |}.

Definition with_poi_categories (x : list CategoryItem) (pg : Page) : Page :=
  {| state := state pg; currentOrigin := currentOrigin pg;
     selectedCategories := selectedCategories pg; add_stop := add_stop pg;
     layers := layers pg; origin_search := origin_search pg;
     destination_search := destination_search pg; poi_categories := x;
     widget_checkboxes := widget_checkboxes pg;
     poi_filter_widget_shown := poi_filter_widget_shown pg; explore_btn := explore_btn pg;
     alerts := alerts pg |}.

Definition with_widget_checkboxes (x : list WidgetCheckbox) (pg : Page) : Page :=
  {| state := state pg; currentOrigin := currentOrigin pg;
     selectedCategories := selectedCategories pg; add_stop := add_stop pg;
     layers := layers pg; origin_search := origin_search pg;
     destination_search := destination_search pg; poi_categories := poi_categories pg;
     widget_checkboxes := x; poi_filter_widget_shown := poi_filter_widget_shown pg;
     explore_btn := explore_btn pg; alerts := alerts pg |}.

Definition with_poi_filter_widget_shown (x : bool) (pg : Page) : Page :=
  {| state := state pg; currentOrigin := currentOrigin pg;
     selectedCategories := selectedCategories pg; add_stop := add_stop pg;
     layers := layers pg; origin_search := origin_search pg;
     destination_search := destination_search pg; poi_categories := poi_categories pg;
     widget_checkboxes := widget_checkboxes pg; poi_filter_widget_shown := x;
     explore_btn := explore_btn pg; alerts := alerts pg |}.

Definition with_explore_btn (x : ExploreButton) (pg : Page) : Page :=
  {| state := state pg; currentOrigin := currentOrigin pg;
     selectedCategories := selectedCategories pg; add_stop := add_stop pg;
     layers := layers pg; origin_search := origin_search pg;
     destination_search := destination_search pg; poi_categories := poi_categories pg;
     widget_checkboxes := widget_checkboxes pg;
     poi_filter_widget_shown := poi_filter_widget_shown pg; explore_btn := x;
     alerts := alerts pg |}.

Definition with_alerts (x : list string) (pg : Page) : Page :=
  {| state := state pg; currentOrigin := currentOrigin pg;
     selectedCategories := selectedCategories pg; add_stop := add_stop pg;
     layers := layers pg; origin_search := origin_search pg;
     destination_search := destination_search pg; poi_categories := poi_categories pg;
     widget_checkboxes := widget_checkboxes pg;
     poi_filter_widget_shown := poi_filter_widget_shown pg; explore_btn := explore_btn pg;
     alerts := x |}.

(** [initMap]: the street layer is added to the map. *)
Definition initMap_layers : TileLayers :=
  {| currentLayer := "street"; streetLayer_on_map := true; satelliteLayer_on_map := false |}.

Definition switchToSatelliteView (l : TileLayers) : TileLayers :=
  if negb (String.eqb (currentLayer l) "satellite") then
    {| currentLayer := "satellite"; streetLayer_on_map := false;
       satelliteLayer_on_map := true |}
  else l.

Definition switchToStreetView (l : TileLayers) : TileLayers :=
  if negb (String.eqb (currentLayer l) "street") then
    {| currentLayer := "street"; streetLayer_on_map := true;
       satelliteLayer_on_map := false |}
  else l.

(** [hideSearchResults(type)]. *)
Definition hide_results (b : SearchBox) : SearchBox :=
  {| sb_value := sb_value b; sb_results_shown := false |}.

Definition hideSearchResults (type : string) (pg : Page) : Page :=
  if String.eqb type "origin" then with_origin_search (hide_results (origin_search pg)) pg
  else with_destination_search (hide_results (destination_search pg)) pg.

Definition set_value (v : string) (b : SearchBox) : SearchBox :=
  {| sb_value := v; sb_results_shown := sb_results_shown b |}.

(** [selectLocation(result, type)]; the move of the map view is left out. *)
Definition selectLocation (result : GeocodeResult) (type : string) (pg : Page)
  : Completion * Page :=
  let lat0 := gr_lat result in
  let lon0 := gr_lon result in
  let name0 := first_segment (gr_display_name result) in
  let pg1 := if String.eqb type "origin"
             then with_origin_search (set_value name0 (origin_search pg)) pg
             else with_destination_search (set_value name0 (destination_search pg)) pg in
  let pg2 := hideSearchResults type pg1 in
  let selected := {| p_lat := lat0; p_lon := lon0; p_name := NameOf name0 |} in
  if String.eqb type "origin" then
    let pg3 := with_currentOrigin (Some selected) pg2 in
    let r := if (length (route_stops (state pg3)) =? 0)%nat
             then addStop lat0 lon0 name0 "start" (state pg3)
             else updateStop 0 lat0 lon0 name0 (state pg3) in
    (fst r, with_state (snd r) pg3)
  else
    let pg3 := with_state (with_currentDestination (Some selected) (state pg2)) pg2 in
    let r := if (length (route_stops (state pg3)) =? 0)%nat
             then addStop lat0 lon0 name0 "start" (state pg3)
             else if (length (route_stops (state pg3)) =? 1)%nat
             then addStop lat0 lon0 name0 "end" (state pg3)
             else
               let lastIndex := (Z.of_nat (length (route_stops (state pg3))) - 1)%Z in
               updateStop (inject_Z lastIndex) lat0 lon0 name0 (state pg3) in
    (fst r, with_state (snd r) pg3).

(** [selectDestination(result)]. *)
Definition selectDestination (result : GeocodeResult) (pg : Page) : Completion * Page :=
  selectLocation result "destination" pg.

Definition enableAddStopMode (pg : Page) : Page :=
  with_add_stop {| isAddingStop := true; body_cursor := "crosshair";
                   add_stop_btn_html := "<span>📍</span> Click on map...";
                   add_stop_btn_active := true |} pg.

Definition disableAddStopMode (pg : Page) : Page :=
  with_add_stop {| isAddingStop := false; body_cursor := "";
                   add_stop_btn_html := "<span>+</span> Add a stop";
                   add_stop_btn_active := false |} pg.

(** [reverseGeocode(lat, lon)], from the answer of the service: [None] when
    the request or the reading of its answer threw, [Some None] for an answer
    without [display_name]. *)
Definition reverseGeocode (answer : option (option string)) : string :=
  match answer with
  | Some (Some display_name) =>
      or_string (Some (first_segment display_name)) "Unknown location"
  | _ => "Unknown location"
  end.

(** [handleMapClick(e)] up to its return: in the mode for adding a stop the
    request of the name is sent for the position of the click, and the mode
    is left. *)
Definition handleMapClick (lat0 lng : R) (pg : Page) : option (R * R) * Page :=
  if isAddingStop (add_stop pg) then (Some (lat0, lng), disableAddStopMode pg)
  else (None, pg).

(** The continuation [name => addStop(lat, lng, name)] of the request. *)
Definition handleMapClick_then (latlng : R * R) (answer : option (option string))
    (pg : Page) : Completion * Page :=
  let r := addStop_default (fst latlng) (snd latlng) (reverseGeocode answer) (state pg) in
  (fst r, with_state (snd r) pg).

(** The operations of a [Set] of strings, kept in insertion order. *)
Definition Set_has (x : string) (s : list string) : bool := bool_decide (x ∈ s).

Definition Set_add (x : string) (s : list string) : list string :=
  if Set_has x s then s else s ++ [x].

Definition Set_delete (x : string) (s : list string) : list string :=
  filter (fun y => y ≠ x) s.

(** [toggleCategory(element)], for the element at position [i] of the
    categories of the side panel. *)
Definition toggleCategory (i : nat) (pg : Page) : Page :=
  match poi_categories pg !! i with
  | None => pg
  | Some element =>
      let category := ci_category element in
      let checked := negb (ci_checked element) in
      let element' := {| ci_category := category; ci_checked := checked;
                         ci_active := checked |} in
      let pg1 := with_poi_categories (<[i := element']> (poi_categories pg)) pg in
      if checked
      then with_selectedCategories (Set_add category (selectedCategories pg1)) pg1
      else with_selectedCategories (Set_delete category (selectedCategories pg1)) pg1
  end.

Definition syncWidgetWithSidebar (pg : Page) : Page :=
  with_widget_checkboxes
    (map (fun widget =>
            {| wc_category := wc_category widget;
               wc_checked := Set_has (wc_category widget) (selectedCategories pg) |})
         (widget_checkboxes pg))
    pg.

Definition alert (message : string) (pg : Page) : Page :=
  with_alerts (alerts pg ++ [message]) pg.

(** The calls [fetchPOIs(point.lat, point.lon, category)] of [explorePlaces],
    in the order of the two loops. *)
Definition explorePlaces_fetches (pg : Page) : list (Point * string) :=
  flat_map (fun point => map (fun category => (point, category)) (selectedCategories pg))
           (explorePlaces_searchPoints (state pg)).

(** An answered call of [fetchPOIs]: its category and what the data source
    gave. *)
Record Answer : Type := {
  an_category : string;
  an_response : option (list (RawPoi * Q))
}.

Definition no_places_message : string :=
  "No places found in this area. This region may have limited data in OpenStreetMap. Try searching in a major city.".

(** The calls of [fetchPOIs] resume one after the other as their answers
    arrive. *)
Definition fetch_all (answers : list Answer) (st : State) : State :=
  foldl (fun s a => snd (fetchPOIs (an_category a) (an_response a) s)) st answers.

(** [explorePlaces()], run from the click to the end with no other handler
    in between: [answers] holds the calls of [fetchPOIs] in the order in which
    they resume. [fetchPOIs] never rejects, so [Promise.all] resolves; the
    moves of the map view are left out. *)
Definition explorePlaces (answers : list Answer) (pg : Page) : Completion * Page :=
  if (length (route_stops (state pg)) =? 0)%nat
     && negb (bool_decide (is_Some (currentDestination (state pg))))
  then (ReturnsUndefined, alert "Please select a destination first" pg)
  else
    let pg1 := with_explore_btn
                 {| eb_html := Searching; eb_disabled := true |} pg in
    let pg2 := with_state (clearPOIMarkers (state pg1)) pg1 in
    let pg3 := syncWidgetWithSidebar pg2 in
    let pg4 := with_state (fetch_all answers (state pg3)) pg3 in
    let pg5 := if (length (markers_pois (state pg4)) =? 0)%nat
               then alert no_places_message pg4
               else pg4 in
    let pg6 := with_poi_filter_widget_shown true pg5 in
    let pg7 := with_state (filterPOIsByBudget (state pg6)) pg6 in
    let pg8 := with_layers (switchToSatelliteView (layers pg7)) pg7 in
    let r := generateItinerary (state pg8) in
    let pg9 := with_state (snd r) pg8 in
    (fst r, with_explore_btn {| eb_html := ExplorePlaces; eb_disabled := false |} pg9).

(** The page after [initMap], for a document with the six categories of
    [POI_TYPES] in the side panel and in the widget, the three categories of
    [state.selectedCategories] checked. *)
Definition six_categories : list string :=
  ["food"; "cafe"; "shop"; "luxury"; "landmark"; "hotel"].

Definition initial_page : Page :=
  {| state := initial_state;
     currentOrigin := None;
     selectedCategories := ["food"; "cafe"; "landmark"];
     add_stop := {| isAddingStop := false; body_cursor := "";
                    add_stop_btn_html := "<span>+</span> Add a stop";
                    add_stop_btn_active := false |};
     layers := initMap_layers;
     origin_search := {| sb_value := ""; sb_results_shown := false |};
     destination_search := {| sb_value := ""; sb_results_shown := false |};
     poi_categories :=
       map (fun c => let on := bool_decide (c ∈ ["food"; "cafe"; "landmark"]) in
                     {| ci_category := c; ci_checked := on; ci_active := on |})
           six_categories;
     widget_checkboxes :=
       map (fun c => {| wc_category := c; wc_checked := true |}) six_categories;
     poi_filter_widget_shown := false;
     explore_btn := {| eb_html := ExplorePlaces; eb_disabled := false |};
     alerts := [] |}.

Definition india_gate : GeocodeResult :=
  {| gr_lat := 28.6129%R; gr_lon := 77.2295%R;
     gr_display_name := "India Gate, Rajpath, New Delhi, Delhi, 110001, India" |}.

Definition taj_mahal : GeocodeResult :=
  {| gr_lat := 27.1751%R; gr_lon := 78.0421%R;
     gr_display_name := "Taj Mahal, Dharmapuri, Agra, Uttar Pradesh, 282001, India" |}.

(** The checkbox of every category of the side panel says whether the
    category is selected, and the class [active] follows the checkbox. *)
Definition sidebar_in_sync (pg : Page) : Prop :=
  ∀ element, element ∈ poi_categories pg →
    ci_checked element = Set_has (ci_category element) (selectedCategories pg) ∧
    ci_active element = ci_checked element.

(** What a stop and a search location keep of a selected result. *)
Definition stop_of_result (result : GeocodeResult) (m : ref) : Stop :=
  {| lat := gr_lat result; lon := gr_lon result;
     name := first_segment (gr_display_name result); marker := m |}.

Definition point_of_result (result : GeocodeResult) : Point :=
  {| p_lat := gr_lat result; p_lon := gr_lon result;
     p_name := NameOf (first_segment (gr_display_name result)) |}.

(** The records of the catalog are markers made after the store held
    [base] markers, and they are on the map. *)
Definition fresh_catalog (base : nat) (st : State) : Prop :=
  ∀ r, r ∈ markers_pois st →
    (base <= r)%nat ∧ ∃ mk, poi_markers st !! r = Some mk ∧ pm_on_map mk = true.

(** What [explorePlaces] leaves alone of the state [st0] it starts from. *)
Definition same_route (st0 st : State) : Prop :=
  route_stops st = route_stops st0 ∧ stop_markers st = stop_markers st0 ∧
  markers_stops st = markers_stops st0 ∧ dom_stops_list st = dom_stops_list st0 ∧
  route_polyline st = route_polyline st0 ∧ polyline_on_map st = polyline_on_map st0 ∧
  trip_days st = trip_days st0 ∧ trip_budget st = trip_budget st0 ∧
  currentDestination st = currentDestination st0.

(** The number of elements of the answers. *)
Definition answered_elements (answers : list Answer) : nat :=
  sum_list_with (fun a => length (default [] (an_response a))) answers.

(** Two answers for a search around the Red Fort. *)
Definition sample_answers : list Answer :=
  [ {| an_category := "landmark";
       an_response := Some [(red_fort, 1 # 2); (jama_masjid, 7 # 8)] |};
    {| an_category := "food"; an_response := None |} ].

(** The page with the route from Delhi to Agra and four places found by an
    earlier search. *)
Definition explore_page : Page := with_state delhi_agra_four_places initial_page.

(** Exactly one tile layer is on the map, the one that [state.currentLayer]
    names. *)
Definition one_layer_shown (l : TileLayers) : Prop :=
  (currentLayer l = "street" ∧ streetLayer_on_map l = true ∧ satelliteLayer_on_map l = false) ∨
  (currentLayer l = "satellite" ∧ streetLayer_on_map l = false ∧ satelliteLayer_on_map l = true).

(** The popup of the marker of the stop at position [j] names the stop and
    reads "Stop" with the letter of [j]. *)
Definition popups_in_step (st : State) : Prop :=
  ∀ j s, route_stops st !! j = Some s →
    ∃ mk, stop_markers st !! marker s = Some mk ∧
          sm_popup mk = Some (name s, String_fromCharCode (65 + Z.of_nat j)).

(** * Properties *)

(** ** Array primitives at an integer index *)

Section ArrayIndex.
Context {A : Type}.
Implicit Types (arr : list A) (i : nat) (q : Q).

Lemma is_array_index_nat i : is_array_index (inject_Z (Z.of_nat i)) = true.
Proof.
  unfold is_array_index. rewrite Qfloor_Z.
  apply andb_true_intro; split.
  - apply Qeq_bool_iff. reflexivity.
  - apply Z.leb_le. lia.
Qed.

Lemma array_get_nat arr i : array_get arr (inject_Z (Z.of_nat i)) = arr !! i.
Proof.
  unfold array_get. rewrite is_array_index_nat, Qfloor_Z, Nat2Z.id. reflexivity.
Qed.

Lemma Qtrunc_nat i : Qtrunc (inject_Z (Z.of_nat i)) = Z.of_nat i.
Proof.
  unfold Qtrunc.
  assert (Qle_bool 0 (inject_Z (Z.of_nat i)) = true) as ->.
  { apply Qle_bool_iff. change 0%Q with (inject_Z 0). rewrite <- Zle_Qle. lia. }
  apply Qfloor_Z.
Qed.

Lemma splice1_nat arr i :
  (i < length arr)%nat → splice1 arr (inject_Z (Z.of_nat i)) = delete i arr.
Proof.
  intros Hi. unfold splice1. rewrite Qtrunc_nat.
  destruct (Z.ltb_spec (Z.of_nat i) 0) as [Hneg|_]; [lia|].
  rewrite Z.min_l by lia. rewrite Nat2Z.id. reflexivity.
Qed.

(** Reading outside the array gives [undefined]. *)
Lemma array_get_out_of_range arr q :
  (q < 0 ∨ inject_Z (Z.of_nat (length arr)) <= q)%Q → array_get arr q = None.
Proof.
  intros Hout. unfold array_get, is_array_index.
  destruct (Qeq_bool (inject_Z (Qfloor q)) q) eqn:Hint; [|reflexivity].
  destruct (Z.leb_spec 0 (Qfloor q)) as [Hpos|Hneg]; [|reflexivity].
  simpl. apply lookup_ge_None_2.
  apply Qeq_bool_iff in Hint.
  destruct Hout as [Hlt|Hge].
  - exfalso. rewrite <- Hint in Hlt. change 0%Q with (inject_Z 0) in Hlt.
    rewrite <- Zlt_Qlt in Hlt. lia.
  - rewrite <- Hint in Hge. rewrite <- Zle_Qle in Hge. lia.
Qed.
End ArrayIndex.

(** ** The stop sequence *)

Lemma updateRoute_route_stops st : route_stops (updateRoute st) = route_stops st.
Proof. unfold updateRoute. repeat case_match; reflexivity. Qed.

Lemma updateRoute_stop_markers st : stop_markers (updateRoute st) = stop_markers st.
Proof. unfold updateRoute. repeat case_match; reflexivity. Qed.

Lemma updateRoute_dom_stops_list st : dom_stops_list (updateRoute st) = dom_stops_list st.
Proof. unfold updateRoute. repeat case_match; reflexivity. Qed.

Lemma append_route_stops a st :
  route_stops (append a st) =
  route_stops st ++ [ {| lat := a_lat a; lon := a_lon a; name := a_name a;
                         marker := length (stop_markers st) |} ].
Proof. unfold append, addStop. simpl. rewrite updateRoute_route_stops. reflexivity. Qed.

Lemma append_stop_markers_length a st :
  length (stop_markers (append a st)) = S (length (stop_markers st)).
Proof.
  unfold append, addStop. simpl. rewrite updateRoute_stop_markers. simpl.
  rewrite length_app. simpl. lia.
Qed.

Lemma append_wf a st : stops_wf st → stops_wf (append a st).
Proof.
  intros [Hnd Hlt]. unfold stops_wf.
  rewrite append_route_stops, append_stop_markers_length, fmap_app. simpl.
  split.
  - apply NoDup_app. split; [exact Hnd|]. split.
    + intros r Hr Hnew. apply list_elem_of_singleton in Hnew. subst r.
      rewrite Forall_forall in Hlt. specialize (Hlt _ Hr). lia.
    + apply NoDup_singleton.
  - apply Forall_app. split.
    + eapply Forall_impl; [exact Hlt|]. simpl. intros; lia.
    + apply Forall_singleton. lia.
Qed.

Lemma initial_state_wf : stops_wf initial_state.
Proof. split; simpl; constructor. Qed.

Lemma append_all_wf args : ∀ st, stops_wf st → stops_wf (append_all args st).
Proof.
  induction args as [|a args IH]; intros st Hwf; simpl; [exact Hwf|].
  apply IH, append_wf, Hwf.
Qed.

Lemma append_all_names args : ∀ st,
  name <$> route_stops (append_all args st) = (name <$> route_stops st) ++ (a_name <$> args).
Proof.
  unfold append_all. induction args as [|a args IH]; intros st; simpl.
  - rewrite app_nil_r. reflexivity.
  - rewrite IH, append_route_stops, fmap_app. simpl.
    rewrite <- app_assoc. reflexivity.
Qed.

Lemma append_all_length args st :
  length (route_stops (append_all args st)) = (length (route_stops st) + length args)%nat.
Proof.
  rewrite <- (length_fmap name), append_all_names, length_app, !length_fmap. reflexivity.
Qed.

(** Re-labelling leaves the markers of other stops alone. *)
Lemma relabel_from_other stops : ∀ i h r,
  r ∉ marker <$> stops → relabel_from i stops h !! r = h !! r.
Proof.
  induction stops as [|a rest IH]; intros i h r Hr; simpl; [reflexivity|].
  rewrite fmap_cons in Hr. apply not_elem_of_cons in Hr as [Hne Hr].
  rewrite IH by exact Hr. apply list_lookup_alter_ne. congruence.
Qed.

(** Re-labelling gives the marker of the stop at position [j] the icon of
    position [i + j]. *)
Lemma relabel_from_lookup stops : ∀ i h j s,
  NoDup (marker <$> stops) → stops !! j = Some s →
  relabel_from i stops h !! marker s = setIcon (relabel_icon (i + j)) <$> h !! marker s.
Proof.
  induction stops as [|a rest IH]; intros i h j s Hnd Hj; [discriminate|].
  rewrite fmap_cons in Hnd. apply NoDup_cons in Hnd as [Hfresh Hnd].
  destruct j as [|j]; simpl in Hj |- *.
  - injection Hj as ->. rewrite relabel_from_other by exact Hfresh.
    rewrite Nat.add_0_r. apply list_lookup_alter_eq.
  - rewrite (IH (S i) _ j s Hnd Hj).
    rewrite list_lookup_alter_ne.
    + replace (S i + j)%nat with (i + S j)%nat by lia. reflexivity.
    + intros Heq. apply Hfresh. rewrite Heq.
      apply list_elem_of_fmap_2. eapply list_elem_of_lookup_2. exact Hj.
Qed.

Lemma removeStop_guard_in_range st (i : nat) :
  (i < length (route_stops st))%nat →
  Qlt_bool (inject_Z (Z.of_nat i)) 0
  || Qle_bool (inject_Z (Z.of_nat (length (route_stops st)))) (inject_Z (Z.of_nat i)) = false.
Proof.
  intros Hi. apply orb_false_intro.
  - unfold Qlt_bool. apply negb_false_iff, Qle_bool_iff.
    change 0%Q with (inject_Z 0). rewrite <- Zle_Qle. lia.
  - apply not_true_is_false. intros H. apply Qle_bool_iff in H.
    rewrite <- Zle_Qle in H. lia.
Qed.

(** The effect of removing the stop at an integer position of the sequence. *)
Lemma removeStop_in_range st (i : nat) stop :
  route_stops st !! i = Some stop →
  let r := removeStop (inject_Z (Z.of_nat i)) st in
  fst r = ReturnsUndefined ∧
  route_stops (snd r) = delete i (route_stops st) ∧
  dom_stops_list (snd r) = stops_list_html (delete i (route_stops st)) ∧
  stop_markers (snd r) =
    relabel_from 0 (delete i (route_stops st))
                 (alter removeLayer (marker stop) (stop_markers st)).
Proof.
  intros Hstop r. subst r. unfold removeStop.
  pose proof (lookup_lt_Some _ _ _ Hstop) as Hi.
  rewrite removeStop_guard_in_range by exact Hi.
  rewrite array_get_nat, Hstop. simpl.
  rewrite updateRoute_route_stops, updateRoute_dom_stops_list, updateRoute_stop_markers.
  simpl. rewrite splice1_nat by exact Hi. auto.
Qed.

(** The item of the stops list at a position of a non-empty sequence. *)
Lemma stops_list_html_lookup stops j s :
  stops !! j = Some s →
  stops_list_html stops !! j =
    Some {| li_index := Some j;
            li_type := stop_item_type j (length stops);
            li_label := String_fromCharCode (65 + Z.of_nat j);
            li_name := name s;
            li_details := StopOf (j + 1) (length stops) |}.
Proof.
  intros Hj. unfold stops_list_html.
  destruct (Nat.eqb_spec (length stops) 0) as [Hlen|_].
  - apply lookup_lt_Some in Hj. lia.
  - rewrite list_lookup_imap, Hj. reflexivity.
Qed.

(** The capital letters: positions 0 to 25 are labelled A to Z. *)
Lemma String_fromCharCode_letter (j : nat) :
  (j < 26)%nat →
  String_fromCharCode (65 + Z.of_nat j) = 65 + Z.of_nat j ∧
  65 <= String_fromCharCode (65 + Z.of_nat j) <= 90.
Proof.
  intros Hj. unfold String_fromCharCode. rewrite Z.mod_small by lia. lia.
Qed.

(** What the stops list and the icons of the markers show after a
    removal. In a stop sequence built by N appends, after the removal of the
    stop at any position [i < N], N - 1 stops remain (the others, in their
    order); the stop at position [j] carries the label
    [String.fromCharCode(65 + j)] both in the stops list and on the icon of
    its marker, the stop at position 0 has the role [start], and the stop at
    the last position has the role [end] in the stops list whenever more
    than one stop remains. *)
Theorem remove_relabels_stops (args : list AppendArgs) (i : nat) :
  (i < length args)%nat →
  let st := append_all args initial_state in
  let st' := snd (removeStop (inject_Z (Z.of_nat i)) st) in
  let remaining := length (route_stops st') in
  remaining = (length args - 1)%nat ∧
  name <$> route_stops st' = delete i (a_name <$> args) ∧
  ∀ (j : nat) (s : Stop), route_stops st' !! j = Some s →
    ∃ item mk,
      dom_stops_list st' !! j = Some item ∧
      stop_markers st' !! marker s = Some mk ∧
      li_index item = Some j ∧
      li_name item = name s ∧
      li_label item = String_fromCharCode (65 + Z.of_nat j) ∧
      si_label (sm_icon mk) = String_fromCharCode (65 + Z.of_nat j) ∧
      (j = 0%nat → li_type item = "start" ∧ si_type (sm_icon mk) = "start") ∧
      (j = (remaining - 1)%nat → (1 < remaining)%nat → li_type item = "end").
Proof.
  intros Hi st st' remaining.
  assert (length (route_stops st) = length args) as Hlen.
  { subst st. rewrite append_all_length. reflexivity. }
  destruct (lookup_lt_is_Some_2 (route_stops st) i) as [stop Hstop]; [lia|].
  destruct (removeStop_in_range st i stop Hstop) as (_ & Hstops & Hdom & Hmk).
  fold st' in Hstops, Hdom, Hmk.
  assert (stops_wf st) as [Hnd Hlt].
  { subst st. apply append_all_wf, initial_state_wf. }
  assert (remaining = (length args - 1)%nat) as Hrem.
  { subst remaining. rewrite Hstops, length_delete by eauto. lia. }
  split; [exact Hrem|]. split.
  { rewrite Hstops. subst st.
    rewrite list_fmap_delete, append_all_names. reflexivity. }
  intros j s Hj.
  assert (NoDup (marker <$> route_stops st')) as Hnd'.
  { rewrite Hstops, list_fmap_delete. eapply sublist_NoDup; [exact Hnd|apply sublist_delete]. }
  assert (marker s ∈ marker <$> route_stops st) as Hin.
  { apply list_elem_of_fmap_2. rewrite Hstops in Hj.
    eapply elem_of_sublist; [|apply sublist_delete].
    eapply list_elem_of_lookup_2, Hj. }
  rewrite Forall_forall in Hlt. specialize (Hlt _ Hin).
  destruct (lookup_lt_is_Some_2 (alter removeLayer (marker stop) (stop_markers st)) (marker s))
    as [mk0 Hmk0]; [rewrite length_alter; exact Hlt|].
  eexists _, (setIcon (relabel_icon j) mk0).
  split; [rewrite Hdom, <- Hstops; apply stops_list_html_lookup, Hj|].
  split.
  { rewrite Hmk, <- Hstops.
    rewrite (relabel_from_lookup _ 0 _ j s Hnd' Hj), Hmk0. reflexivity. }
  simpl. do 4 (split; [reflexivity|]). split.
  - intros ->. split; reflexivity.
  - intros -> Hmany. unfold stop_item_type. fold remaining.
    destruct (Nat.eqb_spec (remaining - 1) 0) as [H0|_]; [lia|].
    rewrite Nat.eqb_refl. simpl.
    destruct (Nat.ltb_spec 1 remaining); [reflexivity|lia].
Qed.

Lemma remove_relabels_stops_witness :
  (1 < length [delhi; mathura; agra])%nat ∧
  length (route_stops (snd (removeStop (inject_Z (Z.of_nat 1)) delhi_mathura_agra))) = 2%nat.
Proof.
  split; [simpl; lia|].
  apply (remove_relabels_stops [delhi; mathura; agra] 1). simpl; lia.
Defined.

(** On the map, the re-labelling of [removeStop] only tells the first
    marker from the others: after the removal of Mathura the marker of Agra,
    created with the type [end], has the type [stop], while the stops list
    shows Agra as [end]. *)
Remark removeStop_marker_types :
  let st' := snd (removeStop (inject_Z 1) delhi_mathura_agra) in
  (fun s => si_type <$> (sm_icon <$> stop_markers st' !! marker s)) <$> route_stops st'
    = [Some "start"; Some "stop"] ∧
  li_type <$> dom_stops_list st' = ["start"; "end"].
Proof. split; vm_compute; reflexivity. Qed.

(** Appending keeps the popups in step with the positions. *)
Lemma append_stop_markers a st :
  ∃ mk, stop_markers (append a st) = stop_markers st ++ [mk] ∧
        sm_popup mk = Some (a_name a,
                            String_fromCharCode (65 + Z.of_nat (length (route_stops st)))).
Proof.
  unfold append, addStop. cbn [snd]. rewrite updateRoute_stop_markers.
  eexists. split; reflexivity.
Qed.

Lemma append_popups a st :
  stops_wf st → popups_in_step st → popups_in_step (append a st).
Proof.
  intros [_ Hlt] Hpop j s Hj. rewrite append_route_stops in Hj.
  destruct (append_stop_markers a st) as (new & -> & Hnew).
  rewrite Forall_forall in Hlt.
  destruct (decide (j < length (route_stops st))%nat) as [Hold|Hlast].
  - rewrite lookup_app_l in Hj by exact Hold.
    destruct (Hpop j s Hj) as (mk & Hmk & Hpopup). exists mk. split; [|exact Hpopup].
    rewrite lookup_app_l by (eapply lookup_lt_Some; exact Hmk). exact Hmk.
  - rewrite lookup_app_r in Hj by lia.
    destruct (j - length (route_stops st))%nat as [|k] eqn:Hk; [|destruct k; discriminate].
    injection Hj as <-. cbn [marker name]. exists new.
    rewrite lookup_app_r, Nat.sub_diag by lia. split; [reflexivity|].
    rewrite Hnew. repeat f_equal. lia.
Qed.

Lemma append_all_popups args : ∀ st,
  stops_wf st → popups_in_step st → popups_in_step (append_all args st).
Proof.
  induction args as [|a args IH]; intros st Hwf Hpop; [exact Hpop|].
  apply IH; [apply append_wf, Hwf|apply append_popups; assumption].
Qed.

(** C1. In a stop sequence built by three appends or more, after the
    removal of the stop at any position [i], the stop at the last position
    is shown as [end] in the stops list while the re-labelling loop of
    [removeStop] has given its marker the type [stop] and the colour of an
    ordinary stop: the loop knows [start] and [stop] only. From the position
    [i] on, the letter of a stop in the stops list and on the icon of its
    marker is the letter of its position, while the popup of the marker
    still reads the letter of the position before the removal, one further
    in the alphabet. *)
Theorem remove_leaves_markers_out_of_step (args : list AppendArgs) (i : nat) :
  (i < length args)%nat → (2 < length args)%nat →
  let st := append_all args initial_state in
  let st' := snd (removeStop (inject_Z (Z.of_nat i)) st) in
  let last := (length (route_stops st') - 1)%nat in
  (∃ s item mk,
     route_stops st' !! last = Some s ∧
     dom_stops_list st' !! last = Some item ∧
     stop_markers st' !! marker s = Some mk ∧
     li_type item = "end" ∧
     si_type (sm_icon mk) = "stop" ∧
     si_background (sm_icon mk) = "#6366f1") ∧
  (∀ j s, (i <= j)%nat → route_stops st' !! j = Some s →
     ∃ item mk,
       dom_stops_list st' !! j = Some item ∧
       stop_markers st' !! marker s = Some mk ∧
       li_label item = String_fromCharCode (65 + Z.of_nat j) ∧
       si_label (sm_icon mk) = String_fromCharCode (65 + Z.of_nat j) ∧
       sm_popup mk = Some (name s, String_fromCharCode (65 + Z.of_nat (S j)))).
Proof.
  intros Hi Hmany st st' last.
  assert (length (route_stops st) = length args) as Hlen.
  { subst st. rewrite append_all_length. reflexivity. }
  destruct (lookup_lt_is_Some_2 (route_stops st) i) as [stop Hstop]; [lia|].
  destruct (removeStop_in_range st i stop Hstop) as (_ & Hstops & Hdom & Hmk).
  fold st' in Hstops, Hdom, Hmk.
  assert (stops_wf st) as [Hnd Hlt].
  { subst st. apply append_all_wf, initial_state_wf. }
  assert (popups_in_step st) as Hpop.
  { subst st. apply append_all_popups; [apply initial_state_wf|]. intros j s Hj. discriminate. }
  assert (length (route_stops st') = (length args - 1)%nat) as Hrem.
  { rewrite Hstops, length_delete by eauto. lia. }
  assert (NoDup (marker <$> route_stops st')) as Hnd'.
  { rewrite Hstops, list_fmap_delete. eapply sublist_NoDup; [exact Hnd|apply sublist_delete]. }
  (* the marker of a remaining stop, from the marker it had before *)
  assert (∀ j s, route_stops st' !! j = Some s →
            ∃ j0 mk0, route_stops st !! j0 = Some s ∧
                      j0 = (if decide (j < i)%nat then j else S j) ∧
                      stop_markers st !! marker s = Some mk0 ∧
                      stop_markers st' !! marker s = Some (setIcon (relabel_icon j) mk0))
    as Hmarker.
  { intros j s Hj.
    assert (route_stops st !! (if decide (j < i)%nat then j else S j) = Some s) as Hj0.
    { rewrite Hstops in Hj. destruct (decide (j < i)%nat) as [Hlow|Hhigh].
      - rewrite list_lookup_delete_lt in Hj by exact Hlow. exact Hj.
      - rewrite list_lookup_delete_ge in Hj by lia. exact Hj. }
    destruct (Hpop _ _ Hj0) as (mk0 & Hmk0 & _).
    exists (if decide (j < i)%nat then j else S j), mk0.
    split; [exact Hj0|]. split; [reflexivity|]. split; [exact Hmk0|].
    rewrite Hmk, <- Hstops, (relabel_from_lookup _ 0 _ j s Hnd' Hj).
    rewrite list_lookup_alter_ne, Hmk0; [reflexivity|].
    intros Heq.
    assert (i = (if decide (j < i)%nat then j else S j)) as Hsame.
    { eapply NoDup_lookup; [exact Hnd| |].
      - rewrite list_lookup_fmap, Hstop. reflexivity.
      - rewrite list_lookup_fmap, Hj0. simpl. f_equal. symmetry. exact Heq. }
    destruct (decide (j < i)%nat); lia. }
  split.
  - destruct (lookup_lt_is_Some_2 (route_stops st') last) as [s Hs]; [subst last; lia|].
    destruct (Hmarker _ _ Hs) as (j0 & mk0 & _ & _ & _ & Hmk').
    eexists s, _, _. split; [exact Hs|].
    split; [rewrite Hdom, <- Hstops; apply stops_list_html_lookup, Hs|].
    split; [exact Hmk'|].
    assert (last ≠ 0)%nat as Hpos by (subst last; lia).
    cbn [li_type sm_icon setIcon relabel_icon si_type si_background].
    destruct (Nat.eqb_spec last 0) as [|_]; [contradiction|].
    split; [|split; reflexivity].
    unfold stop_item_type. destruct (Nat.eqb_spec last 0) as [|_]; [contradiction|].
    subst last. rewrite Nat.eqb_refl. simpl.
    destruct (Nat.ltb_spec 1 (length (route_stops st'))); [reflexivity|lia].
  - intros j s Hij Hj.
    destruct (Hmarker _ _ Hj) as (j0 & mk0 & Hj0 & -> & Hmk0 & Hmk').
    destruct (decide (j < i)%nat) as [Hlow|_]; [lia|].
    destruct (Hpop _ _ Hj0) as (mk1 & Hmk1 & Hpopup).
    rewrite Hmk0 in Hmk1. injection Hmk1 as <-.
    eexists _, _. split; [rewrite Hdom, <- Hstops; apply stops_list_html_lookup, Hj|].
    split; [exact Hmk'|]. split; [reflexivity|]. split; [reflexivity|]. exact Hpopup.
Qed.

Lemma remove_leaves_markers_out_of_step_witness :
  (1 < length [delhi; mathura; agra])%nat ∧
  (2 < length [delhi; mathura; agra])%nat ∧
  ∃ s item mk,
    route_stops (snd (removeStop (inject_Z (Z.of_nat 1)) delhi_mathura_agra)) !! 1%nat = Some s ∧
    dom_stops_list (snd (removeStop (inject_Z (Z.of_nat 1)) delhi_mathura_agra)) !! 1%nat
      = Some item ∧
    stop_markers (snd (removeStop (inject_Z (Z.of_nat 1)) delhi_mathura_agra)) !! marker s
      = Some mk ∧
    li_type item = "end" ∧
    si_type (sm_icon mk) = "stop" ∧
    si_background (sm_icon mk) = "#6366f1".
Proof.
  assert (1 < length [delhi; mathura; agra])%nat as H1 by (simpl; lia).
  assert (2 < length [delhi; mathura; agra])%nat as H2 by (simpl; lia).
  split; [exact H1|]. split; [exact H2|].
  exact (proj1 (remove_leaves_markers_out_of_step [delhi; mathura; agra] 1 H1 H2)).
Defined.

(** The sibling paths: [addStop] gives a marker created with the type [end]
    the colour of the destination, and after the removal of Mathura the
    stops list shows Agra as [end] with the letter B, while the marker of
    Agra has the type [stop], the letter B on its icon and "Stop C" in its
    popup. *)
Remark removeStop_marker_of_agra :
  let st' := snd (removeStop (inject_Z 1) delhi_mathura_agra) in
  stop_background "end" = "#f472b6" ∧
  (sm_icon <$> stop_markers delhi_mathura_agra !! 2%nat)
    = Some {| si_type := "end"; si_background := "#f472b6"; si_label := 67 |} ∧
  (sm_icon <$> stop_markers st' !! 2%nat)
    = Some {| si_type := "stop"; si_background := "#6366f1"; si_label := 66 |} ∧
  (sm_popup <$> stop_markers st' !! 2%nat) = Some (Some ("Agra", 67)) ∧
  ((fun item => (li_type item, li_label item, li_name item)) <$> dom_stops_list st')
    = [("start", 65, "Delhi"); ("end", 66, "Agra")].
Proof. repeat split; vm_compute; reflexivity. Qed.

(** ** Indices outside the stop sequence *)

Lemma updateStop_out_of_range st index lat0 lon0 name0 :
  out_of_range index st → updateStop index lat0 lon0 name0 st = (ReturnsUndefined, st).
Proof.
  intros Hout. unfold updateStop.
  rewrite array_get_out_of_range by exact Hout. reflexivity.
Qed.

Lemma removeStop_out_of_range st index :
  out_of_range index st → removeStop index st = (ReturnsUndefined, st).
Proof.
  intros Hout. unfold removeStop.
  assert (Qlt_bool index 0
          || Qle_bool (inject_Z (Z.of_nat (length (route_stops st)))) index = true) as ->;
    [|reflexivity].
  apply orb_true_iff. destruct Hout as [Hlt|Hge].
  - left. unfold Qlt_bool. apply negb_true_iff, not_true_is_false.
    intros Hle. apply Qle_bool_iff in Hle. apply (Qlt_not_le _ _ Hlt Hle).
  - right. apply Qle_bool_iff, Hge.
Qed.

Lemma updateStop_completion st index lat0 lon0 name0 :
  fst (updateStop index lat0 lon0 name0 st) = ReturnsUndefined.
Proof. unfold updateStop. case_match; reflexivity. Qed.

Lemma removeStop_completion_in_range st (i : nat) :
  (i < length (route_stops st))%nat →
  fst (removeStop (inject_Z (Z.of_nat i)) st) = ReturnsUndefined.
Proof.
  intros Hi. destruct (lookup_lt_is_Some_2 (route_stops st) i Hi) as [stop Hstop].
  apply (removeStop_in_range st i stop Hstop).
Qed.

Lemma out_of_range_5_delhi_agra : out_of_range (inject_Z 5) delhi_agra.
Proof. right. vm_compute. discriminate. Qed.

(** C9. With an index outside [0, length), [updateStop] and [removeStop]
    leave the whole state as it was: the stops (their number, coordinates
    and names), the stops list with its labels and roles, and the markers. *)
Theorem out_of_range_leaves_state (st : State) (index : Q)
    (lat0 lon0 : R) (name0 : string) :
  out_of_range index st →
  snd (updateStop index lat0 lon0 name0 st) = st ∧
  snd (removeStop index st) = st.
Proof.
  intros Hout.
  rewrite updateStop_out_of_range, removeStop_out_of_range by exact Hout.
  split; reflexivity.
Qed.

Lemma out_of_range_leaves_state_witness :
  out_of_range (inject_Z 5) delhi_agra ∧
  snd (updateStop (inject_Z 5) 0%R 0%R "Jaipur" delhi_agra) = delhi_agra ∧
  snd (removeStop (inject_Z 5) delhi_agra) = delhi_agra.
Proof.
  split; [right; vm_compute; discriminate|].
  apply (out_of_range_leaves_state delhi_agra (inject_Z 5) 0%R 0%R "Jaipur").
  right. vm_compute. discriminate.
Defined.

(** C3, as stated, fails: with two stops and index 5, neither [updateStop]
    nor [removeStop] tells the caller that the index was out of range. *)
Lemma out_of_range_not_reported :
  out_of_range (inject_Z 5) delhi_agra ∧
  ¬ signals_error (fst (updateStop (inject_Z 5) 0%R 0%R "Jaipur" delhi_agra)) ∧
  ¬ signals_error (fst (removeStop (inject_Z 5) delhi_agra)).
Proof.
  split; [exact out_of_range_5_delhi_agra|].
  rewrite updateStop_out_of_range, removeStop_out_of_range
    by exact out_of_range_5_delhi_agra.
  simpl. tauto.
Qed.

(** C3, amended. With an index outside [0, length), [updateStop] and
    [removeStop] complete with [undefined] and an unchanged state, the
    completion that a call with a valid index has too: they do nothing, they
    report nothing, and they do not clamp the index. *)
Theorem out_of_range_returns_silently (st : State) (index : Q)
    (lat0 lon0 : R) (name0 : string) :
  out_of_range index st →
  updateStop index lat0 lon0 name0 st = (ReturnsUndefined, st) ∧
  removeStop index st = (ReturnsUndefined, st) ∧
  ∀ i : nat, (i < length (route_stops st))%nat →
    fst (updateStop (inject_Z (Z.of_nat i)) lat0 lon0 name0 st) = ReturnsUndefined ∧
    fst (removeStop (inject_Z (Z.of_nat i)) st) = ReturnsUndefined.
Proof.
  intros Hout. split; [apply updateStop_out_of_range, Hout|].
  split; [apply removeStop_out_of_range, Hout|].
  intros i Hi. split.
  - apply updateStop_completion.
  - apply removeStop_completion_in_range, Hi.
Qed.

Lemma out_of_range_returns_silently_witness :
  out_of_range (- (1 # 2)) delhi_agra ∧
  removeStop (- (1 # 2)) delhi_agra = (ReturnsUndefined, delhi_agra).
Proof.
  split; [left; reflexivity|].
  apply (out_of_range_returns_silently delhi_agra (- (1 # 2)) 0%R 0%R "Jaipur").
  left. reflexivity.
Defined.

(** A fractional index inside the range passes the guard of [removeStop]
    and finds no stop: the call throws. *)
Remark removeStop_fractional_index :
  removeStop (1 # 2) delhi_agra = (Throws TypeError, delhi_agra).
Proof. reflexivity. Qed.

(** ** The budget filter *)

Lemma markerBudget_setOpacity o mk : markerBudget (setOpacity o mk) = markerBudget mk.
Proof. reflexivity. Qed.

Lemma budget_opacity_idem b mk :
  budget_opacity b (budget_opacity b mk) = budget_opacity b mk.
Proof.
  unfold budget_opacity.
  destruct (markerBudget mk <=? b) eqn:Hv; rewrite markerBudget_setOpacity, Hv; reflexivity.
Qed.

Lemma budget_opacity_budget b mk : pm_budget (budget_opacity b mk) = pm_budget mk.
Proof. unfold budget_opacity. case_match; reflexivity. Qed.

Lemma budget_opacity_info b mk : poi_info (budget_opacity b mk) = poi_info mk.
Proof. unfold budget_opacity. case_match; reflexivity. Qed.

Lemma budget_opacity_visible b mk :
  Qeq_bool (pm_opacity (budget_opacity b mk)) 1 = (markerBudget mk <=? b).
Proof. unfold budget_opacity. case_match; reflexivity. Qed.

(** The store after the [forEach] of the filter: the markers of the catalog
    got their opacity, the others were not touched. *)
Lemma budget_fold_lookup b refs : ∀ (h : list PoiMarker) (r : nat),
  foldl (fun h r => alter (budget_opacity b) r h) h refs !! r =
  if bool_decide (r ∈ refs) then budget_opacity b <$> h !! r else h !! r.
Proof.
  induction refs as [|a refs IH]; intros h r; simpl; [reflexivity|].
  rewrite IH. destruct (decide (a = r)) as [->|Hne].
  - rewrite list_lookup_alter_eq.
    rewrite (bool_decide_eq_true_2 (r ∈ r :: refs)) by left.
    case_bool_decide; [|reflexivity].
    destruct (h !! r); simpl; [|reflexivity]. rewrite budget_opacity_idem. reflexivity.
  - rewrite list_lookup_alter_ne by exact Hne.
    rewrite (bool_decide_ext (r ∈ a :: refs) (r ∈ refs)); [reflexivity|].
    rewrite elem_of_cons. split; [intros [Heq|Hin]; [congruence|exact Hin]|auto].
Qed.

Lemma handleBudgetChange_lookup v st r :
  poi_markers (handleBudgetChange v st) !! r =
  if bool_decide (r ∈ markers_pois st)
  then budget_opacity v <$> poi_markers st !! r else poi_markers st !! r.
Proof. unfold handleBudgetChange, filterPOIsByBudget. simpl. apply budget_fold_lookup. Qed.

Lemma handleBudgetChange_markers_pois v st :
  markers_pois (handleBudgetChange v st) = markers_pois st.
Proof. reflexivity. Qed.

Lemma handleBudgetChange_stored_budget v st r :
  stored_budget (poi_markers (handleBudgetChange v st)) r = stored_budget (poi_markers st) r.
Proof.
  unfold stored_budget. rewrite handleBudgetChange_lookup.
  case_bool_decide; [|reflexivity].
  destruct (poi_markers st !! r); simpl; [|reflexivity]. apply budget_opacity_budget.
Qed.

Lemma handleBudgetChange_poi_info v st r :
  poi_info <$> poi_markers (handleBudgetChange v st) !! r = poi_info <$> poi_markers st !! r.
Proof.
  rewrite handleBudgetChange_lookup. case_bool_decide; [|reflexivity].
  destruct (poi_markers st !! r); simpl; [|reflexivity]. rewrite budget_opacity_info. reflexivity.
Qed.

Lemma handleBudgetChange_itinerary_pois v st :
  itinerary_pois (handleBudgetChange v st) = itinerary_pois st.
Proof.
  unfold itinerary_pois. rewrite handleBudgetChange_markers_pois.
  induction (markers_pois st) as [|r refs IH]; [reflexivity|].
  cbn [omap list_omap]. rewrite handleBudgetChange_poi_info, <- IH. reflexivity.
Qed.

(** A record of the catalog is visible after the filter exactly when its
    level, with 2 standing for a level that is absent or zero, is at most
    the budget. *)
Lemma visible_after_filter v st r mk :
  r ∈ markers_pois st → poi_markers st !! r = Some mk →
  is_visible (poi_markers (handleBudgetChange v st)) r = (markerBudget mk <=? v).
Proof.
  intros Hin Hmk. unfold is_visible.
  rewrite handleBudgetChange_lookup, bool_decide_eq_true_2, Hmk by exact Hin.
  simpl. apply budget_opacity_visible.
Qed.

Lemma BUDGET_LEVELS_valid b info : BUDGET_LEVELS b = Some info → valid_level b = true.
Proof.
  unfold BUDGET_LEVELS, valid_level. intros H.
  repeat (match type of H with
          | context [?x =? ?y] => destruct (Z.eqb_spec x y); [subst; reflexivity|]
          end).
  discriminate.
Qed.

Lemma valid_catalog_lookup st r :
  valid_catalog st = true → r ∈ markers_pois st →
  ∃ mk b, poi_markers st !! r = Some mk ∧ pm_budget mk = Some b ∧ 1 <= b <= 4.
Proof.
  unfold valid_catalog. intros Hall Hin. rewrite forallb_forall in Hall.
  apply list_elem_of_In in Hin. specialize (Hall r Hin). unfold stored_budget in Hall.
  destruct (poi_markers st !! r) as [mk|]; simpl in Hall; [|discriminate].
  destruct (pm_budget mk) as [b|] eqn:Hb; [|discriminate].
  exists mk, b. unfold valid_level in Hall. apply andb_prop in Hall as [H1 H4].
  apply Z.leb_le in H1, H4. auto.
Qed.

(** The catalogs that ingestion builds are valid. *)
Lemma valid_catalog_initial : valid_catalog initial_state = true.
Proof. reflexivity. Qed.

Lemma valid_catalog_clear st : valid_catalog (clearPOIMarkers st) = true.
Proof. reflexivity. Qed.

Lemma valid_catalog_createPOIMarker poi category r st :
  valid_catalog st = true → valid_catalog (snd (createPOIMarker poi category r st)) = true.
Proof.
  intros Hok. unfold createPOIMarker.
  destruct (POI_TYPES category) as [poiType|]; [|exact Hok].
  assert (∀ (f : PoiMarker → PoiMarker) x k, k ∈ markers_pois st →
            stored_budget (alter f (length (poi_markers st)) (poi_markers st ++ [x])) k
            = stored_budget (poi_markers st) k) as Hold.
  { intros f x k Hk.
    destruct (valid_catalog_lookup st k Hok Hk) as (mk & b & Hmk & _).
    pose proof (lookup_lt_Some _ _ _ Hmk) as Hlt. unfold stored_budget.
    rewrite list_lookup_alter_ne by lia. rewrite lookup_app_l by exact Hlt. reflexivity. }
  destruct (BUDGET_LEVELS (Math_ceil (r * 4))) as [info|] eqn:Hinfo; simpl.
  - unfold valid_catalog. simpl. rewrite forallb_app. apply andb_true_intro. split.
    + apply forallb_forall. intros k Hk. apply list_elem_of_In in Hk.
      rewrite Hold by exact Hk.
      unfold valid_catalog in Hok. rewrite forallb_forall in Hok.
      apply Hok, list_elem_of_In, Hk.
    + simpl. unfold stored_budget.
      rewrite list_lookup_alter_eq, lookup_app_r, Nat.sub_diag by lia. simpl.
      rewrite (BUDGET_LEVELS_valid _ _ Hinfo). reflexivity.
  - unfold valid_catalog. simpl. apply forallb_forall. intros k Hk.
    apply list_elem_of_In in Hk.
    destruct (valid_catalog_lookup st k Hok Hk) as (mk & b & Hmk & Hb & Hrange).
    unfold stored_budget. rewrite lookup_app_l by (eapply lookup_lt_Some, Hmk).
    rewrite Hmk. simpl. rewrite Hb. unfold valid_level.
    apply andb_true_intro. split; apply Z.leb_le; lia.
Qed.

Lemma valid_catalog_handleBudgetChange v st :
  valid_catalog st = true → valid_catalog (handleBudgetChange v st) = true.
Proof.
  unfold valid_catalog. rewrite handleBudgetChange_markers_pois. intros Hok.
  rewrite forallb_forall in Hok |- *. intros r Hr.
  rewrite handleBudgetChange_stored_budget. apply Hok, Hr.
Qed.

(** C6. On a catalog built by ingestion, the budget filter shows at full
    opacity exactly the records whose level is at most [maxLevel], in the
    order of the catalog, and leaves the catalog as it was: the same list of
    records, of the same size, with the same stored levels, and the same
    entries for the itinerary. *)
Theorem filterByBudget_selects (st : State) (maxLevel : Z) :
  valid_catalog st = true →
  let st' := handleBudgetChange maxLevel st in
  visible_pois st' = List.filter (level_at_most (poi_markers st) maxLevel) (markers_pois st) ∧
  markers_pois st' = markers_pois st ∧
  length (markers_pois st') = length (markers_pois st) ∧
  (∀ r, stored_budget (poi_markers st') r = stored_budget (poi_markers st) r) ∧
  itinerary_pois st' = itinerary_pois st.
Proof.
  intros Hok st'. subst st'. split; [|split; [reflexivity|split; [reflexivity|split]]].
  - unfold visible_pois. rewrite handleBudgetChange_markers_pois.
    apply filter_ext_in. intros r Hr. apply list_elem_of_In in Hr.
    destruct (valid_catalog_lookup st r Hok Hr) as (mk & b & Hmk & Hb & Hrange).
    rewrite (visible_after_filter _ _ _ mk Hr Hmk).
    unfold level_at_most, stored_budget, markerBudget. rewrite Hmk. simpl. rewrite Hb.
    destruct (Z.eqb_spec b 0); [lia|reflexivity].
  - intros r. apply handleBudgetChange_stored_budget.
  - apply handleBudgetChange_itinerary_pois.
Qed.

(** The levels 1, 2, 3, 4 and the budget 2: the records of levels 1 and 2. *)
Lemma filterByBudget_selects_witness :
  valid_catalog four_levels = true ∧
  map (stored_budget (poi_markers four_levels)) (markers_pois four_levels)
    = [Some 1; Some 2; Some 3; Some 4] ∧
  visible_pois (handleBudgetChange 2 four_levels) = [0%nat; 1%nat].
Proof.
  split; [reflexivity|]. split; [reflexivity|].
  rewrite (proj1 (filterByBudget_selects four_levels 2 eq_refl)). reflexivity.
Defined.

(** ** Levels assigned at ingestion *)

Lemma Math_ceil_draw_range (q : Q) :
  (0 <= q)%Q → (q < 1)%Q → 0 <= Math_ceil (q * 4) <= 4.
Proof.
  intros H0 H1. unfold Math_ceil. split.
  - change (Qceiling 0 <= Qceiling (q * 4)). apply Qceiling_resp_le. Lqa.lra.
  - change (Qceiling (q * 4) <= Qceiling 4). apply Qceiling_resp_le. Lqa.lra.
Qed.

Lemma Math_ceil_draw_zero (q : Q) :
  (0 <= q)%Q → (Math_ceil (q * 4) = 0 ↔ (q == 0)%Q).
Proof.
  intros H0. unfold Math_ceil. split.
  - intros Hc. pose proof (Qle_ceiling (q * 4)) as Hle. rewrite Hc in Hle.
    change (inject_Z 0) with 0%Q in Hle. Lqa.lra.
  - intros Hq. rewrite Hq. reflexivity.
Qed.

(** The marker created with the draw 0 stores the level 0. *)
Lemma createPOIMarker_draw_zero poi category st :
  is_Some (POI_TYPES category) →
  stored_budget (poi_markers (snd (createPOIMarker poi category 0 st)))
                (length (poi_markers st)) = Some 0.
Proof.
  intros [poiType Hty]. unfold createPOIMarker. rewrite Hty. simpl.
  unfold stored_budget. rewrite lookup_app_r, Nat.sub_diag by lia. reflexivity.
Qed.

(** It is not added to the catalog: the popup text cannot be built. *)
Lemma createPOIMarker_draw_zero_throws poi category st :
  is_Some (POI_TYPES category) →
  fst (createPOIMarker poi category 0 st) = Throws TypeError ∧
  markers_pois (snd (createPOIMarker poi category 0 st)) = markers_pois st.
Proof.
  intros [poiType Hty]. unfold createPOIMarker. rewrite Hty. simpl. auto.
Qed.

(** C10. A record of the catalog whose stored level is absent or zero is
    shown by the budget filter exactly when the budget is at least 2, and
    the assignment [Math.ceil(r * 4)] of ingestion yields a level from 0 to
    4 for a draw [r] of [0,1), the level 0 (which is not a key of
    [BUDGET_LEVELS]) exactly for the draw 0, which is then the level stored
    on the marker. *)
Theorem zero_level_counts_as_two (st : State) (maxLevel : Z) (r : nat) (mk : PoiMarker) :
  r ∈ markers_pois st →
  poi_markers st !! r = Some mk →
  pm_budget mk = None ∨ pm_budget mk = Some 0 →
  (is_visible (poi_markers (handleBudgetChange maxLevel st)) r = true ↔ 2 <= maxLevel) ∧
  Math_ceil (0 * 4) = 0 ∧
  BUDGET_LEVELS (Math_ceil (0 * 4)) = None ∧
  (∀ q : Q, (0 <= q)%Q → (q < 1)%Q →
     0 <= Math_ceil (q * 4) <= 4 ∧ (Math_ceil (q * 4) = 0 ↔ (q == 0)%Q)) ∧
  (∀ poi category st0, is_Some (POI_TYPES category) →
     stored_budget (poi_markers (snd (createPOIMarker poi category 0 st0)))
                   (length (poi_markers st0)) = Some 0).
Proof.
  intros Hin Hmk Hlevel. split; [|split; [reflexivity|split; [reflexivity|split]]].
  - rewrite (visible_after_filter _ _ _ mk Hin Hmk).
    assert (markerBudget mk = 2) as ->.
    { unfold markerBudget. destruct Hlevel as [-> | ->]; reflexivity. }
    apply Z.leb_le.
  - intros q H0 H1. split; [apply Math_ceil_draw_range; assumption|].
    apply Math_ceil_draw_zero, H0.
  - intros poi category st0. apply createPOIMarker_draw_zero.
Qed.

Lemma zero_level_counts_as_two_witness :
  stored_budget (poi_markers zero_level_catalog) 0%nat = Some 0 ∧
  (is_visible (poi_markers (handleBudgetChange 1 zero_level_catalog)) 0%nat = true ↔ 2 <= 1).
Proof.
  split; [reflexivity|].
  eapply (zero_level_counts_as_two zero_level_catalog 1 0%nat).
  - left.
  - reflexivity.
  - right. reflexivity.
Defined.

(** ** Contiguous chunks *)

Section Chunks.
Context {A : Type}.
Implicit Types (l : list A) (p fuel k : nat).

Lemma chunks_fuel_nil fuel p : chunks_fuel fuel p (@nil A) = [].
Proof. destruct fuel; reflexivity. Qed.

(** More fuel than the list needs changes nothing. *)
Lemma chunks_fuel_enough p : (1 <= p)%nat → ∀ fuel1 fuel2 l,
  (length l <= fuel1 * p)%nat → (length l <= fuel2 * p)%nat →
  chunks_fuel fuel1 p l = chunks_fuel fuel2 p l.
Proof.
  intros Hp. induction fuel1 as [|fuel1 IH]; intros fuel2 l H1 H2.
  - destruct l; [|simpl in H1; lia]. rewrite !chunks_fuel_nil. reflexivity.
  - destruct l as [|x l]; [rewrite !chunks_fuel_nil; reflexivity|].
    destruct fuel2 as [|fuel2]; [simpl in H2; lia|].
    cbn [chunks_fuel]. f_equal. apply IH; rewrite length_drop; lia.
Qed.

Lemma contiguous_chunks_fuel p fuel l :
  (1 <= p)%nat → (length l <= fuel * p)%nat →
  chunks_fuel fuel p l = contiguous_chunks p l.
Proof.
  intros Hp Hfuel. unfold contiguous_chunks.
  apply chunks_fuel_enough; [exact Hp|exact Hfuel|nia].
Qed.

Lemma chunks_fuel_length fuel p : ∀ l, (length (chunks_fuel fuel p l) <= fuel)%nat.
Proof.
  induction fuel as [|fuel IH]; intros l; simpl; [lia|].
  destruct l; simpl; [lia|]. specialize (IH (drop p (a :: l))). lia.
Qed.

Lemma chunks_fuel_concat p : (1 <= p)%nat → ∀ fuel l,
  (length l <= fuel * p)%nat → concat (chunks_fuel fuel p l) = l.
Proof.
  intros Hp. induction fuel as [|fuel IH]; intros l Hl.
  - destruct l; [reflexivity|simpl in Hl; lia].
  - destruct l as [|x l]; [reflexivity|].
    cbn [chunks_fuel concat]. rewrite IH by (rewrite length_drop; lia).
    apply take_drop.
Qed.

(** The chunk of rank [k] holds the elements from [k * p], [p] of them or
    what is left. *)
Lemma chunks_fuel_lookup p : ∀ fuel l k chunk,
  chunks_fuel fuel p l !! k = Some chunk →
  chunk = take p (drop (k * p) l) ∧ (k * p < length l)%nat.
Proof.
  induction fuel as [|fuel IH]; intros l k chunk Hk; [discriminate|].
  destruct l as [|x l]; [discriminate|]. cbn [chunks_fuel] in Hk.
  destruct k as [|k].
  - injection Hk as <-. simpl. split; [reflexivity|lia].
  - cbn [lookup list_lookup] in Hk. apply IH in Hk as [-> Hlt].
    rewrite drop_drop, length_drop in *.
    replace (S k * p)%nat with (p + k * p)%nat by lia. split; [reflexivity|lia].
Qed.

Lemma contiguous_chunks_size p l k chunk :
  contiguous_chunks p l !! k = Some chunk →
  length chunk = Nat.min p (length l - k * p) ∧ (k * p < length l)%nat.
Proof.
  intros Hk. apply chunks_fuel_lookup in Hk as [-> Hlt].
  rewrite length_take, length_drop. auto.
Qed.

(** [slice(a, a + b)] with non-negative bounds. *)
Lemma slice_take_drop l (a b : nat) :
  slice l (Z.of_nat a) (Z.of_nat a + Z.of_nat b) = take b (drop a l).
Proof.
  unfold slice.
  destruct (Z.ltb_spec (Z.of_nat a) 0) as [Hneg|_]; [lia|].
  destruct (Z.ltb_spec (Z.of_nat a + Z.of_nat b) 0) as [Hneg|_]; [lia|].
  destruct (Nat.le_gt_cases a (length l)) as [Hin|Hout].
  - rewrite (Z.min_l (Z.of_nat a)), Nat2Z.id by lia.
    destruct (Nat.le_gt_cases (a + b) (length l)) as [Hfit|Hlong].
    + f_equal. lia.
    + rewrite !take_ge; [reflexivity| |]; rewrite length_drop; lia.
  - rewrite !drop_ge by lia. rewrite !take_nil. reflexivity.
Qed.
End Chunks.

(** ** The itinerary *)

(** The buttons of the trip duration keep the number of days in [1, 30]. *)
Lemma adjustDays_range delta st : 1 <= trip_days (adjustDays delta st) <= 30.
Proof. unfold adjustDays. simpl. lia. Qed.

(** [poisPerDay] is the ceiling of [n / tripDays]. *)
Lemma poisPerDay_bounds (n d : Z) :
  0 < n → 1 <= d →
  let p := Math_ceil (inject_Z n / inject_Z d) in
  1 <= p ∧ n <= p * d ∧ (p - 1) * d < n.
Proof.
  intros Hn Hd p.
  assert (0 < inject_Z d)%Q as Hdq.
  { change 0%Q with (inject_Z 0). rewrite <- Zlt_Qlt. lia. }
  assert (¬ (inject_Z d == 0)%Q) as Hd0.
  { intros H. rewrite H in Hdq. discriminate. }
  assert (n <= p * d) as Hup.
  { pose proof (Qle_ceiling (inject_Z n / inject_Z d)) as H. fold (Math_ceil (inject_Z n / inject_Z d)) in H.
    fold p in H. apply (Qmult_le_compat_r _ _ (inject_Z d)) in H; [|apply Qlt_le_weak, Hdq].
    rewrite Qmult_comm, Qmult_div_r in H by exact Hd0.
    rewrite <- inject_Z_mult, <- Zle_Qle in H. exact H. }
  assert ((p - 1) * d < n) as Hlow.
  { pose proof (Qceiling_lt (inject_Z n / inject_Z d)) as H. fold (Math_ceil (inject_Z n / inject_Z d)) in H.
    fold p in H. apply (Qmult_lt_compat_r _ _ (inject_Z d) Hdq) in H.
    rewrite (Qmult_comm (_ / _)), Qmult_div_r in H by exact Hd0.
    rewrite <- inject_Z_mult, <- Zlt_Qlt in H. exact H. }
  split; [nia|]. split; assumption.
Qed.

(** The days written by the loop from the day [s + 1] on, over [c] turns. *)
Lemma itinerary_loop stops pois d (pn : nat) : (1 <= pn)%nat → ∀ (c s : nat),
  flat_map (itinerary_day stops pois d (Z.of_nat pn)) (map Z.of_nat (seq (S s) c)) =
  imap (fun k chunk =>
          ItineraryDay (Z.of_nat (S s + k)) (day_places stops d (Z.of_nat (S s + k)) chunk))
       (chunks_fuel c pn (drop (s * pn) pois)).
Proof.
  intros Hp. induction c as [|c IH]; intros s; [reflexivity|].
  cbn [seq map flat_map]. rewrite (IH (S s)).
  replace (drop (S s * pn) pois) with (drop pn (drop (s * pn) pois))
    by (rewrite drop_drop; f_equal; lia).
  unfold itinerary_day at 1.
  replace ((Z.of_nat (S s) - 1) * Z.of_nat pn) with (Z.of_nat (s * pn)) by lia.
  rewrite slice_take_drop.
  destruct (drop (s * pn) pois) as [|x rest] eqn:Hdrop.
  - rewrite take_nil, drop_nil, !chunks_fuel_nil. reflexivity.
  - cbn [chunks_fuel]. rewrite imap_cons.
    destruct pn as [|pn]; [lia|]. cbn [take length Nat.eqb app].
    rewrite Nat.add_0_r. f_equal.
    apply imap_ext. intros k chunk _. simpl.
    replace (S (s + S k)) with (S (S (s + k))) by lia. reflexivity.
Qed.

Lemma itinerary_days_imap {A : Type} (l : list A) :
  ∀ (g : nat → Z) (h : nat → A → list Place),
  itinerary_days (imap (fun k x => ItineraryDay (g k) (h k x)) l) =
  imap (fun k x => (g k, h k x)) l.
Proof.
  unfold itinerary_days. induction l as [|x l IH]; intros g h; [reflexivity|].
  rewrite !imap_cons. cbn [omap list_omap]. f_equal.
  exact (IH (fun m => g (S m)) (fun m => h (S m))).
Qed.

Lemma itinerary_html_empty st :
  itinerary_pois st = [] →
  itinerary_html st =
    [RouteInfo (length (route_stops st)) (calculateRouteDistance st) (trip_days st);
     ItineraryEmpty].
Proof. intros Hempty. unfold itinerary_html. rewrite Hempty. reflexivity. Qed.

Lemma itinerary_html_nonempty st :
  itinerary_pois st ≠ [] →
  itinerary_html st =
    RouteInfo (length (route_stops st)) (calculateRouteDistance st) (trip_days st) ::
    flat_map (itinerary_day (route_stops st) (itinerary_pois st) (trip_days st)
                (Math_ceil (inject_Z (Z.of_nat (length (itinerary_pois st)))
                            / inject_Z (trip_days st))))
             (count_from_1 (trip_days st)).
Proof.
  intros Hne. unfold itinerary_html.
  destruct (itinerary_pois st) as [|x l]; [congruence|reflexivity].
Qed.

(** The days of the itinerary: the chunks of the catalog, numbered from 1. *)
Lemma itinerary_days_chunks st :
  1 <= trip_days st →
  itinerary_days (itinerary_html st) =
    imap (fun k chunk =>
            (Z.of_nat k + 1,
             day_places (route_stops st) (trip_days st) (Z.of_nat k + 1) chunk))
         (contiguous_chunks
            (Z.to_nat (Math_ceil (inject_Z (Z.of_nat (length (itinerary_pois st)))
                                  / inject_Z (trip_days st))))
            (itinerary_pois st)) ∧
  contiguous_chunks
    (Z.to_nat (Math_ceil (inject_Z (Z.of_nat (length (itinerary_pois st)))
                          / inject_Z (trip_days st))))
    (itinerary_pois st)
  = chunks_fuel (Z.to_nat (trip_days st))
      (Z.to_nat (Math_ceil (inject_Z (Z.of_nat (length (itinerary_pois st)))
                            / inject_Z (trip_days st))))
      (itinerary_pois st).
Proof.
  intros Hd. destruct (itinerary_pois st) as [|x l] eqn:Hpois.
  - rewrite itinerary_html_empty by exact Hpois.
    unfold contiguous_chunks. rewrite !chunks_fuel_nil. split; reflexivity.
  - rewrite itinerary_html_nonempty by congruence. rewrite Hpois.
    set (pois := x :: l). set (n := Z.of_nat (length pois)).
    destruct (poisPerDay_bounds n (trip_days st)) as (Hp & Hup & _); [subst n; simpl; lia|exact Hd|].
    set (p := Math_ceil (inject_Z n / inject_Z (trip_days st))) in *.
    assert (chunks_fuel (Z.to_nat (trip_days st)) (Z.to_nat p) pois
            = contiguous_chunks (Z.to_nat p) pois) as Hfuel.
    { apply contiguous_chunks_fuel; [lia|]. subst n. nia. }
    split; [|symmetry; exact Hfuel].
    change (itinerary_days (?b :: ?rest)) with (itinerary_days rest).
    unfold count_from_1. rewrite <- (Z2Nat.id p) at 1 by lia.
    rewrite (itinerary_loop _ _ _ (Z.to_nat p)) by lia.
    rewrite Nat.mul_0_l, drop_0, Hfuel.
    rewrite (itinerary_days_imap _ (fun k => Z.of_nat (1 + k))
               (fun k => day_places (route_stops st) (trip_days st) (Z.of_nat (1 + k)))).
    apply imap_ext. intros k chunk _. simpl.
    replace (Z.of_nat (S k)) with (Z.of_nat k + 1) by lia. reflexivity.
Qed.

(** The [pois] array of [generateItinerary] has one element per record of
    the catalog. *)
Lemma itinerary_pois_length (st : State) :
  valid_catalog st = true → length (itinerary_pois st) = length (markers_pois st).
Proof.
  intros Hok. unfold itinerary_pois.
  assert (∀ r, r ∈ markers_pois st → is_Some (poi_markers st !! r)) as Hrefs.
  { intros r Hr. destruct (valid_catalog_lookup st r Hok Hr) as (mk & _ & Hmk & _). eauto. }
  induction (markers_pois st) as [|r refs IH]; [reflexivity|].
  cbn [omap list_omap length].
  destruct (Hrefs r) as [mk ->]; [left|]. simpl.
  rewrite IH; [reflexivity|]. intros r' Hr'. apply Hrefs. right. exact Hr'.
Qed.

(** C4. With [tripDays] in [1, 30], the days of the itinerary are the
    contiguous chunks of [poisPerDay = Math.ceil(n / tripDays)] records of
    the catalog, in the order of the catalog: one day per chunk, numbered
    from 1, at most [tripDays] of them, none of them empty, each of
    [poisPerDay] records but for the last one which takes what is left; the
    chunks put together are the catalog. With 7 records and 3 days the
    chunks have 3, 3 and 1 records. *)
Theorem plan_partitions_catalog (st : State) :
  1 <= trip_days st <= 30 →
  let pois := itinerary_pois st in
  let poisPerDay :=
    Math_ceil (inject_Z (Z.of_nat (length pois)) / inject_Z (trip_days st)) in
  let chunks := contiguous_chunks (Z.to_nat poisPerDay) pois in
  itinerary_days (itinerary_html st) =
    imap (fun k chunk =>
            (Z.of_nat k + 1,
             day_places (route_stops st) (trip_days st) (Z.of_nat k + 1) chunk))
         chunks ∧
  concat chunks = pois ∧
  Z.of_nat (length chunks) <= trip_days st ∧
  (∀ (k : nat) (chunk : list PoiInfo), chunks !! k = Some chunk →
     (0 < length chunk)%nat ∧
     Z.of_nat (length chunk)
       = Z.min poisPerDay (Z.of_nat (length pois) - Z.of_nat k * poisPerDay)) ∧
  (length pois = 7%nat → trip_days st = 3 → length <$> chunks = [3; 3; 1]%nat).
Proof.
  intros [Hd _] pois poisPerDay chunks.
  destruct (itinerary_days_chunks st Hd) as [Hdays Hfuel].
  fold pois in Hdays, Hfuel. fold poisPerDay in Hdays, Hfuel. fold chunks in Hdays, Hfuel.
  split; [exact Hdays|].
  assert (pois ≠ [] → 1 <= poisPerDay ∧ Z.of_nat (length pois) <= poisPerDay * trip_days st)
    as Hbounds.
  { intros Hne.
    destruct (poisPerDay_bounds (Z.of_nat (length pois)) (trip_days st)) as (Hp & Hup & _);
      [destruct pois; [congruence|simpl; lia]|exact Hd|].
    fold poisPerDay in Hp, Hup. auto. }
  split; [|split; [|split]].
  - destruct pois as [|x l] eqn:Hpois; [reflexivity|].
    destruct Hbounds as [Hp Hup]; [congruence|].
    subst chunks. unfold contiguous_chunks. apply chunks_fuel_concat; [lia|nia].
  - rewrite Hfuel.
    pose proof (chunks_fuel_length (Z.to_nat (trip_days st)) (Z.to_nat poisPerDay) pois). lia.
  - intros k chunk Hk. subst chunks.
    destruct (contiguous_chunks_size _ _ _ _ Hk) as [Hlen Hlt].
    destruct Hbounds as [Hp Hup]; [intros Hnil; rewrite Hnil in Hlt; simpl in Hlt; lia|].
    split; nia.
  - intros Hn Hd3. subst chunks poisPerDay. rewrite Hn, Hd3.
    change (Z.to_nat (Math_ceil (inject_Z (Z.of_nat 7) / inject_Z 3))) with 3%nat.
    do 8 (destruct pois as [|? pois]; try discriminate Hn). reflexivity.
Qed.

Lemma plan_partitions_catalog_witness :
  1 <= trip_days delhi_agra_seven_places <= 30 ∧
  (length ∘ snd) <$> itinerary_days (itinerary_html delhi_agra_seven_places)
    = [4; 3; 2]%nat ∧
  length <$> contiguous_chunks 3 (itinerary_pois delhi_agra_seven_places)
    = [3; 3; 1]%nat.
Proof.
  split; [vm_compute; split; discriminate|].
  split.
  - rewrite (proj1 (plan_partitions_catalog delhi_agra_seven_places
                      ltac:(vm_compute; split; discriminate))).
    reflexivity.
  - reflexivity.
Defined.

(** C7. With an empty catalog the panel gets the route header followed by
    the notice that no places were found, and no day; the notice is written
    for an empty catalog only, so the result is told apart from any list of
    days. *)
Theorem empty_catalog_nothing_to_plan (st : State) :
  markers_pois st = [] →
  itinerary_html st =
    [RouteInfo (length (route_stops st)) (calculateRouteDistance st) (trip_days st);
     ItineraryEmpty] ∧
  itinerary_days (itinerary_html st) = [] ∧
  (∀ c, dom_itinerary st = Some c →
        dom_itinerary (snd (generateItinerary st)) = Some (itinerary_html st)) ∧
  (∀ st0 : State, ItineraryEmpty ∈ itinerary_html st0 ↔ itinerary_pois st0 = []).
Proof.
  intros Hempty.
  assert (itinerary_pois st = []) as Hpois by (unfold itinerary_pois; rewrite Hempty; reflexivity).
  rewrite (itinerary_html_empty st Hpois).
  split; [reflexivity|]. split; [reflexivity|]. split.
  - intros c Hc. unfold generateItinerary. rewrite Hc. simpl.
    rewrite (itinerary_html_empty st Hpois). reflexivity.
  - intros st0. split.
    + intros Hin. destruct (itinerary_pois st0) as [|x l] eqn:Hst0; [reflexivity|].
      exfalso. rewrite itinerary_html_nonempty in Hin by congruence.
      apply elem_of_cons in Hin as [Hin|Hin]; [discriminate|].
      apply list_elem_of_In, in_flat_map in Hin as (day & _ & Hin).
      unfold itinerary_day in Hin. case_match; [destruct Hin|].
      destruct Hin as [Hin|[]]. discriminate.
    + intros Hst0. rewrite (itinerary_html_empty st0 Hst0). right. left.
Qed.

Lemma empty_catalog_nothing_to_plan_witness :
  markers_pois (with_trip_days 1 delhi_agra) = [] ∧
  itinerary_days (itinerary_html (with_trip_days 1 delhi_agra)) = [] ∧
  ItineraryEmpty ∈ itinerary_html (with_trip_days 1 delhi_agra).
Proof.
  split; [reflexivity|].
  destruct (empty_catalog_nothing_to_plan (with_trip_days 1 delhi_agra) eq_refl)
    as (Hhtml & Hdays & _ & Hiff).
  split; [exact Hdays|]. apply Hiff. reflexivity.
Defined.

(** C2, at two stops, four places and three days: [poisPerDay] is 2, the
    third day has no place and is skipped, and the last day written, the
    second, does not end with the destination. *)
Theorem plan_omits_destination :
  length (route_stops delhi_agra_four_places) = 2%nat ∧
  trip_days delhi_agra_four_places = 3 ∧
  length (itinerary_pois delhi_agra_four_places) = 4%nat ∧
  day_entry_types <$> itinerary_days (itinerary_html delhi_agra_four_places)
  = [ (1, ["Starting Point"; "Landmark"; "Landmark"]);
      (2, ["Landmark"; "Landmark"]) ].
Proof. repeat split; vm_compute; reflexivity. Qed.

(** With seven places the third day is written and ends with the
    destination. *)
Remark plan_with_destination :
  day_entry_types <$> itinerary_days (itinerary_html delhi_agra_seven_places)
  = [ (1, ["Starting Point"; "Landmark"; "Landmark"; "Landmark"]);
      (2, ["Landmark"; "Landmark"; "Landmark"]);
      (3, ["Landmark"; "Final Destination"]) ].
Proof. vm_compute. reflexivity. Qed.

(** The first day starts at the first stop of the route. *)
Lemma plan_first_day_starts_at_origin (st : State) :
  1 <= trip_days st → itinerary_pois st ≠ [] → route_stops st ≠ [] →
  ∃ places rest,
    itinerary_days (itinerary_html st) = (1, start_place (route_stops st) ++ places) :: rest.
Proof.
  intros Hd Hpois Hstops. destruct (itinerary_days_chunks st Hd) as [-> _].
  destruct (itinerary_pois st) as [|x l]; [congruence|].
  destruct (route_stops st) as [|s stops]; [congruence|].
  unfold contiguous_chunks. cbn [length chunks_fuel]. rewrite imap_cons.
  unfold day_places at 1. simpl. eauto.
Qed.

(** The day [tripDays], when it is written, ends at the last stop. *)
Lemma plan_day_tripDays_ends_at_destination (st : State) (places : list Place) :
  1 <= trip_days st → (1 < length (route_stops st))%nat →
  (trip_days st, places) ∈ itinerary_days (itinerary_html st) →
  ∃ before, places = before ++ end_place (route_stops st).
Proof.
  intros Hd Hstops Hin. destruct (itinerary_days_chunks st Hd) as [Hdays _].
  rewrite Hdays in Hin. apply list_elem_of_lookup in Hin as [k Hk].
  rewrite list_lookup_imap in Hk.
  destruct (contiguous_chunks _ _ !! k) as [chunk|]; [|discriminate].
  simpl in Hk. injection Hk as Hday <-. unfold day_places. rewrite Hday.
  rewrite Z.eqb_refl. destruct (Nat.ltb_spec 1 (length (route_stops st))); [|lia].
  simpl. rewrite app_assoc. eauto.
Qed.

(** When the catalog fills fewer days than [tripDays], no day ends at the
    last stop: a day holds the start of the route, if it is the first, and
    its places. *)
Lemma plan_fewer_days_no_destination (st : State) (day : Z) (places : list Place) :
  1 <= trip_days st →
  Z.of_nat (length (contiguous_chunks
                      (Z.to_nat (Math_ceil (inject_Z (Z.of_nat (length (itinerary_pois st)))
                                            / inject_Z (trip_days st))))
                      (itinerary_pois st))) < trip_days st →
  (day, places) ∈ itinerary_days (itinerary_html st) →
  ∃ chunk,
    places = (if (day =? 1) && (0 <? length (route_stops st))%nat
              then start_place (route_stops st) else [])
             ++ map poi_place chunk.
Proof.
  intros Hd Hfew Hin. destruct (itinerary_days_chunks st Hd) as [Hdays _].
  rewrite Hdays in Hin. apply list_elem_of_lookup in Hin as [k Hk].
  rewrite list_lookup_imap in Hk.
  destruct (contiguous_chunks _ _ !! k) as [chunk|] eqn:Hchunk; [|discriminate].
  apply lookup_lt_Some in Hchunk.
  simpl in Hk. injection Hk as <- <-. exists chunk. unfold day_places.
  destruct (Z.eqb_spec (Z.of_nat k + 1) (trip_days st)) as [Heq|_]; [lia|].
  simpl. rewrite app_nil_r. reflexivity.
Qed.

(** ** Search locations along the route *)

Lemma Math_round_IZR (z : Z) : Math_round (IZR z) = z.
Proof.
  unfold Math_round.
  rewrite <- (up_tech (IZR z + 1 / 2) z).
  - lia.
  - lra.
  - rewrite plus_IZR. lra.
Qed.

Section Blocks.
Context {A B : Type} (f : A → list B) (m : nat).
Hypothesis f_length : ∀ x, length (f x) = m.

Lemma flat_map_block_length (l : list A) : length (flat_map f l) = (length l * m)%nat.
Proof.
  induction l as [|x l IH]; [reflexivity|].
  cbn [flat_map]. rewrite length_app, f_length, IH. simpl. lia.
Qed.

End Blocks.

Lemma segments_length {A : Type} (l : list A) : length (segments l) = (length l - 1)%nat.
Proof.
  induction l as [|a [|b rest] IH]; [reflexivity|reflexivity|].
  change (segments (a :: b :: rest)) with ((a, b) :: segments (b :: rest)).
  cbn [length] in *. lia.
Qed.


Lemma getIntermediatePoints_length from to k :
  length (getIntermediatePoints from to k) = Z.to_nat k.
Proof. unfold getIntermediatePoints, count_from_1. rewrite !length_map, length_seq. reflexivity. Qed.

(** The point of rank [r] between two locations, counting from 0. *)
Lemma getIntermediatePoints_lookup from to k (r : nat) :
  (r < Z.to_nat k)%nat →
  getIntermediatePoints from to k !! r =
    Some {| p_lat := (p_lat from + (p_lat to - p_lat from)
                                   * (IZR (Z.of_nat (S r)) / IZR (k + 1)))%R;
            p_lon := (p_lon from + (p_lon to - p_lon from)
                                   * (IZR (Z.of_nat (S r)) / IZR (k + 1)))%R;
            p_name := EnRoute (Math_round (IZR (Z.of_nat (S r)) / IZR (k + 1) * 100)) |}.
Proof.
  intros Hr. unfold getIntermediatePoints, count_from_1.
  rewrite !list_lookup_fmap, lookup_seq_lt by exact Hr. reflexivity.
Qed.



(** ** Great-circle distance *)

Lemma nearest_values_conforming : conforming nearest_values.
Proof. repeat split. Qed.

Lemma Math_conforming : conforming Math.
Proof.
  unfold Math. apply epsilon_spec. exists nearest_values. apply nearest_values_conforming.
Qed.

Lemma haversineDistance_a (M : MathLibrary) (lat1 lon1 lat2 lon2 : float) :
  haversineDistance M lat1 lon1 lat2 lon2 =
  (6371 * (2 * Math_atan2 M (Math_sqrt (haversine_a M lat1 lon1 lat2 lon2))
                            (Math_sqrt (1 - haversine_a M lat1 lon1 lat2 lon2))))%float.
Proof. reflexivity. Qed.

(** NaN is equal to no Number. *)
Lemma eqb_nan_l (x : float) : (nan =? x)%float = false.
Proof. rewrite FloatAxioms.eqb_spec. reflexivity. Qed.

(** C8. The distance from (0.08, 0) to (-0.08, 180), two positions opposite
    each other on the globe, is NaN in every engine whose sine and cosine
    give at the angles of this call the doubles nearest to the exact values
    and whose [Math.atan2] gives NaN for NaN: the term [a] is rounded to
    1 + 2^-52, [1 - a] is negative and its square root is NaN. The
    distance is then equal to no Number, not even to the distance of the
    same positions in the other order. *)
Theorem haversineDistance_antipodal_NaN (M : MathLibrary) :
  Math_sin M (-0x1.6e05a695f8191p-10)%float = (-0x1.6e059ecaa87dcp-10)%float →
  Math_sin M 0x1.921fb54442d18p+0%float = 1%float →
  Math_cos M 0x1.6e05a695f8191p-10%float = 0x1.ffffdf4abdd1ep-1%float →
  Math_cos M (-0x1.6e05a695f8191p-10)%float = 0x1.ffffdf4abdd1ep-1%float →
  (∀ y, Math_atan2 M y nan = nan) →
  haversine_a M 0.08 0 (-0.08) 180 = 0x1.0000000000001p+0%float ∧
  Math_sqrt (1 - haversine_a M 0.08 0 (-0.08) 180) = nan ∧
  haversineDistance M 0.08 0 (-0.08) 180 = nan ∧
  (haversineDistance M 0.08 0 (-0.08) 180
   =? haversineDistance M (-0.08) 180 0.08 0)%float = false.
Proof.
  intros Hsin_lat Hsin_lon Hcos1 Hcos2 Hatan2.
  assert (haversine_a M 0.08 0 (-0.08) 180 = 0x1.0000000000001p+0%float) as Ha.
  { unfold haversine_a. cbv zeta.
    replace ((-0.08 - 0.08) * Math_PI / 180 / 2)%float
      with (-0x1.6e05a695f8191p-10)%float by (vm_compute; reflexivity).
    replace ((180 - 0) * Math_PI / 180 / 2)%float
      with 0x1.921fb54442d18p+0%float by (vm_compute; reflexivity).
    replace (0.08 * Math_PI / 180)%float
      with 0x1.6e05a695f8191p-10%float by (vm_compute; reflexivity).
    replace (-0.08 * Math_PI / 180)%float
      with (-0x1.6e05a695f8191p-10)%float by (vm_compute; reflexivity).
    rewrite Hsin_lat, Hsin_lon, Hcos1, Hcos2. vm_compute. reflexivity. }
  assert (Math_sqrt (1 - haversine_a M 0.08 0 (-0.08) 180) = nan) as Hroot.
  { rewrite Ha. vm_compute. reflexivity. }
  assert (haversineDistance M 0.08 0 (-0.08) 180 = nan) as Hd.
  { rewrite haversineDistance_a, Hroot, Hatan2. vm_compute. reflexivity. }
  split; [exact Ha|]. split; [exact Hroot|]. split; [exact Hd|].
  rewrite Hd. apply eqb_nan_l.
Qed.

Lemma haversineDistance_antipodal_NaN_witness :
  Math_sin nearest_values (-0x1.6e05a695f8191p-10)%float = (-0x1.6e059ecaa87dcp-10)%float ∧
  Math_cos nearest_values 0x1.6e05a695f8191p-10%float = 0x1.ffffdf4abdd1ep-1%float ∧
  haversineDistance nearest_values 0.08 0 (-0.08) 180 = nan.
Proof.
  split; [reflexivity|]. split; [reflexivity|].
  apply (haversineDistance_antipodal_NaN nearest_values); try reflexivity.
Defined.

(** A sum with NaN is NaN. *)
Lemma add_nan_l (x : float) : (nan + x)%float = nan.
Proof. apply FloatAxioms.Prim2SF_inj. rewrite FloatAxioms.add_spec. reflexivity. Qed.

Lemma add_nan_r (x : float) : (x + nan)%float = nan.
Proof.
  apply FloatAxioms.Prim2SF_inj. rewrite FloatAxioms.add_spec.
  change (Prim2SF nan) with S754_nan. destruct (Prim2SF x); reflexivity.
Qed.

(** A pair of consecutive stops whose distance is NaN makes the sum of
    [calculateRouteDistance] NaN, and [Math.round] returns NaN as it is: the
    distance shown for the route is then NaN. *)
Lemma route_distance_NaN (st : State) (from to : Stop) :
  (from, to) ∈ segments (route_stops st) →
  haversineDistance Math (to_double (lat from)) (to_double (lon from))
                         (to_double (lat to)) (to_double (lon to)) = nan →
  calculateRouteDistance st = nan.
Proof.
  intros Hin Hleg. unfold calculateRouteDistance.
  assert ((length (route_stops st) <? 2)%nat = false) as ->.
  { apply Nat.ltb_ge. pose proof (segments_length (route_stops st)) as Hlen.
    destruct (segments (route_stops st)); [inversion Hin|]. simpl in Hlen. lia. }
  assert (totalDistance (route_stops st) = nan) as ->; [|reflexivity].
  unfold totalDistance.
  apply list_elem_of_split in Hin as (l1 & l2 & ->).
  rewrite foldl_app. cbn [foldl]. rewrite Hleg, add_nan_r.
  induction l2 as [|[a b] l2 IH]; [reflexivity|].
  cbn [foldl]. rewrite add_nan_l. exact IH.
Qed.

(** * The route between two commands *)

Lemma updateRoute_markers_stops st : markers_stops (updateRoute st) = markers_stops st.
Proof. unfold updateRoute. repeat case_match; reflexivity. Qed.

(** What [updateRoute] leaves of the route line. *)
Lemma updateRoute_polyline st :
  (polyline_on_map st = true → is_Some (route_polyline st)) →
  polyline_on_map (updateRoute st) = (2 <=? length (route_stops st))%nat ∧
  (polyline_on_map (updateRoute st) = true →
   route_polyline (updateRoute st) = Some (stop_latlngs (route_stops st))).
Proof.
  intros Hshown. unfold updateRoute.
  destruct (Nat.leb_spec 2 (length (route_stops st))) as [Hge|Hlt];
    destruct (route_polyline st) as [p|] eqn:Hp;
    match goal with
    | |- context [(?a <? 2)%nat] =>
        destruct (Nat.ltb_spec a 2) as [Hlt'|Hge'];
        cbn [route_stops with_polyline] in *; try lia
    end.
  - split; reflexivity.
  - split; reflexivity.
  - split; [reflexivity|discriminate].
  - destruct (polyline_on_map st) eqn:Hon.
    + destruct Hshown as [p Hp']; [reflexivity|]. discriminate.
    + split; [reflexivity|discriminate].
Qed.

Lemma relabel_from_length stops : ∀ i h, length (relabel_from i stops h) = length h.
Proof.
  induction stops as [|a rest IH]; intros i h; simpl; [reflexivity|].
  rewrite IH. apply length_alter.
Qed.

(** An index that finds an element is the integer of its position. *)
Lemma array_get_Some {A : Type} (arr : list A) (q : Q) (x : A) :
  array_get arr q = Some x →
  arr !! Z.to_nat (Qfloor q) = Some x ∧ Qtrunc q = Z.of_nat (Z.to_nat (Qfloor q)).
Proof.
  unfold array_get, is_array_index.
  destruct (Qeq_bool (inject_Z (Qfloor q)) q) eqn:Hint; [|discriminate].
  destruct (Z.leb_spec 0 (Qfloor q)) as [Hpos|Hneg]; [|discriminate].
  simpl. intros Hx. split; [exact Hx|].
  apply Qeq_bool_iff in Hint. unfold Qtrunc.
  assert (Qle_bool 0 q = true) as ->.
  { apply Qle_bool_iff. rewrite <- Hint. change 0%Q with (inject_Z 0).
    rewrite <- Zle_Qle. exact Hpos. }
  lia.
Qed.

Lemma splice1_at {A : Type} (arr : list A) (q : Q) (i : nat) :
  Qtrunc q = Z.of_nat i → (i < length arr)%nat → splice1 arr q = delete i arr.
Proof.
  intros Hq Hi. unfold splice1. rewrite Hq.
  destruct (Z.ltb_spec (Z.of_nat i) 0) as [Hneg|_]; [lia|].
  rewrite Z.min_l by lia. rewrite Nat2Z.id. reflexivity.
Qed.

(** The three ways [removeStop] ends. *)
Lemma removeStop_cases st index :
  removeStop index st = (ReturnsUndefined, st) ∨
  removeStop index st = (Throws TypeError, st) ∨
  ∃ (i : nat) (stop : Stop),
    route_stops st !! i = Some stop ∧
    Qtrunc index = Z.of_nat i ∧
    removeStop index st =
      (ReturnsUndefined,
       updateRoute (updateStopsList
         (with_stop_markers
            (relabel_from 0 (delete i (route_stops st))
                          (alter removeLayer (marker stop) (stop_markers st)))
            (with_markers_stops (splice1 (markers_stops st) index)
               (with_route_stops (delete i (route_stops st))
                  (with_stop_markers (alter removeLayer (marker stop) (stop_markers st))
                     st)))))).
Proof.
  unfold removeStop.
  destruct (Qlt_bool index 0 || Qle_bool _ index); [left; reflexivity|].
  destruct (array_get (route_stops st) index) as [stop|] eqn:Hget; [|right; left; reflexivity].
  right. right. destruct (array_get_Some _ _ _ Hget) as [Hstop Htrunc].
  pose proof (lookup_lt_Some _ _ _ Hstop) as Hi.
  exists (Z.to_nat (Qfloor index)), stop.
  split; [exact Hstop|]. split; [exact Htrunc|].
  cbn [route_stops with_stop_markers with_route_stops stop_markers markers_stops
       with_markers_stops].
  rewrite (splice1_at (route_stops st) index _ Htrunc Hi). reflexivity.
Qed.

Lemma route_inv_initial : route_inv initial_state.
Proof.
  split.
  - apply initial_state_wf.
  - reflexivity.
  - intros j s Hj. discriminate.
  - intros Hne. exfalso. apply Hne. reflexivity.
  - reflexivity.
  - discriminate.
Qed.

(** Every change of the stops ends with [updateStopsList] and [updateRoute]. *)
Lemma route_inv_refresh st :
  stops_wf st →
  markers_stops st = marker <$> route_stops st →
  (∀ j s, route_stops st !! j = Some s → marker_in_place st j s) →
  (polyline_on_map st = true → is_Some (route_polyline st)) →
  route_inv (updateRoute (updateStopsList st)).
Proof.
  intros Hwf Haligned Hmarkers Hshown.
  destruct (updateRoute_polyline (updateStopsList st) Hshown) as [Hon Hline].
  split.
  - unfold stops_wf. rewrite updateRoute_route_stops, updateRoute_stop_markers. exact Hwf.
  - rewrite updateRoute_route_stops, updateRoute_markers_stops. exact Haligned.
  - intros j s Hj. rewrite updateRoute_route_stops in Hj.
    unfold marker_in_place. rewrite updateRoute_stop_markers. apply Hmarkers, Hj.
  - intros _. rewrite updateRoute_route_stops, updateRoute_dom_stops_list. reflexivity.
  - rewrite updateRoute_route_stops. exact Hon.
  - rewrite updateRoute_route_stops. exact Hline.
Qed.

Lemma route_inv_shown st :
  route_inv st → polyline_on_map st = true → is_Some (route_polyline st).
Proof. intros Hinv Hon. rewrite (inv_polyline st Hinv Hon). eauto. Qed.

Lemma route_inv_addStop st lat0 lon0 name0 type :
  route_inv st → route_inv (snd (addStop lat0 lon0 name0 type st)).
Proof.
  intros Hinv. unfold addStop. cbn [snd]. apply route_inv_refresh.
  - pose proof (append_wf {| a_lat := lat0; a_lon := lon0; a_name := name0; a_type := type |}
                  st (inv_wf st Hinv)) as Hwf.
    unfold stops_wf in Hwf |- *. rewrite append_route_stops, append_stop_markers_length in Hwf.
    simpl in Hwf |- *. rewrite length_app. simpl.
    replace (length (stop_markers st) + 1)%nat with (S (length (stop_markers st))) by lia.
    exact Hwf.
  - simpl. rewrite fmap_app, (inv_aligned st Hinv). reflexivity.
  - intros j s Hj. simpl in Hj. unfold marker_in_place. simpl.
    apply lookup_app_Some in Hj as [Hj|[Hlen Hj]].
    + destruct (inv_markers st Hinv j s Hj) as (mk & Hmk & Hrest).
      exists mk. split; [|exact Hrest].
      apply lookup_app_l_Some, Hmk.
    + apply list_lookup_singleton_Some in Hj as [Hj0 <-]. simpl.
      eexists. split; [apply list_lookup_middle; reflexivity|].
      simpl. replace j with (length (route_stops st)) by lia. auto.
  - simpl. apply route_inv_shown, Hinv.
Qed.

(** Two positions of the route have two markers. *)
Lemma stops_wf_marker_inj st (i j : nat) (a b : Stop) :
  stops_wf st → route_stops st !! i = Some a → route_stops st !! j = Some b →
  marker a = marker b → i = j.
Proof.
  intros [Hnd _] Ha Hb Heq.
  eapply NoDup_lookup; [exact Hnd| |]; rewrite list_lookup_fmap.
  - rewrite Ha. reflexivity.
  - rewrite Hb, Heq. reflexivity.
Qed.

Lemma route_inv_updateStop st index lat0 lon0 name0 :
  route_inv st → route_inv (snd (updateStop index lat0 lon0 name0 st)).
Proof.
  intros Hinv. unfold updateStop.
  destruct (array_get (route_stops st) index) as [stop|] eqn:Hget; [|exact Hinv].
  destruct (array_get_Some _ _ _ Hget) as [Hstop _].
  set (i := Z.to_nat (Qfloor index)) in *.
  assert (marker <$> <[i:={| lat := lat0; lon := lon0; name := name0; marker := marker stop |}]>
                       (route_stops st) = marker <$> route_stops st) as Hsame.
  { rewrite list_fmap_insert. apply list_insert_id. rewrite list_lookup_fmap, Hstop. reflexivity. }
  cbn [snd]. apply route_inv_refresh.
  - destruct (inv_wf st Hinv) as [Hnd Hlt]. unfold stops_wf. simpl.
    rewrite Hsame, length_alter. auto.
  - simpl. rewrite Hsame. apply (inv_aligned st Hinv).
  - intros j s Hj. simpl in Hj. unfold marker_in_place. simpl.
    apply list_lookup_insert_Some in Hj as [(<- & <- & _)|[Hne Hj]].
    + destruct (inv_markers st Hinv i stop Hstop) as (mk & Hmk & Hlabel & _ & Hon).
      exists (setLatLng (lat0, lon0) mk). simpl.
      rewrite list_lookup_alter_eq, Hmk. auto.
    + destruct (inv_markers st Hinv j s Hj) as (mk & Hmk & Hrest).
      exists mk. split; [|exact Hrest].
      rewrite list_lookup_alter_ne; [exact Hmk|].
      intros Heq. apply Hne.
      apply (stops_wf_marker_inj st i j stop s (inv_wf st Hinv) Hstop Hj Heq).
  - simpl. apply route_inv_shown, Hinv.
Qed.

Lemma route_inv_removeStop st index :
  route_inv st → route_inv (snd (removeStop index st)).
Proof.
  intros Hinv.
  destruct (removeStop_cases st index) as [-> | [-> | (i & stop & Hstop & Htrunc & ->)]];
    [exact Hinv|exact Hinv|].
  pose proof (lookup_lt_Some _ _ _ Hstop) as Hi.
  destruct (inv_wf st Hinv) as [Hnd Hlt].
  assert (∀ j s, delete i (route_stops st) !! j = Some s →
            marker s ≠ marker stop ∧ ∃ j0, route_stops st !! j0 = Some s) as Hkept.
  { intros j s Hj.
    destruct (decide (j < i)%nat) as [Hlt'|Hge];
      [rewrite list_lookup_delete_lt in Hj by lia
      |rewrite list_lookup_delete_ge in Hj by lia].
    - split; [|eauto]. intros Heq.
      pose proof (stops_wf_marker_inj st j i s stop (inv_wf st Hinv) Hj Hstop Heq). lia.
    - split; [|eauto]. intros Heq.
      pose proof (stops_wf_marker_inj st (S j) i s stop (inv_wf st Hinv) Hj Hstop Heq). lia. }
  cbn [snd]. apply route_inv_refresh.
  - unfold stops_wf. simpl. rewrite relabel_from_length, length_alter, list_fmap_delete.
    split; [eapply sublist_NoDup; [exact Hnd|apply sublist_delete]|].
    rewrite Forall_forall in Hlt |- *. intros r Hr. apply Hlt.
    eapply elem_of_sublist; [exact Hr|apply sublist_delete].
  - simpl. rewrite (splice1_at (markers_stops st) index i Htrunc).
    + rewrite (inv_aligned st Hinv), list_fmap_delete. reflexivity.
    + rewrite (inv_aligned st Hinv), length_fmap. exact Hi.
  - intros j s Hj. simpl in Hj. unfold marker_in_place. simpl.
    destruct (Hkept j s Hj) as [Hne [j0 Hj0]].
    destruct (inv_markers st Hinv j0 s Hj0) as (mk & Hmk & _ & Hll & Hon).
    exists (setIcon (relabel_icon j) mk).
    rewrite (relabel_from_lookup _ 0 _ j s); [| |exact Hj].
    + rewrite list_lookup_alter_ne by congruence. rewrite Hmk. simpl. auto.
    + rewrite list_fmap_delete. eapply sublist_NoDup; [exact Hnd|apply sublist_delete].
  - simpl. apply route_inv_shown, Hinv.
Qed.

Lemma route_inv_run_command c st : route_inv st → route_inv (snd (run_command c st)).
Proof.
  destruct c; simpl.
  - apply route_inv_addStop.
  - apply route_inv_updateStop.
  - apply route_inv_removeStop.
Qed.

Lemma route_inv_run_commands cs : ∀ st, route_inv st → route_inv (run_commands cs st).
Proof.
  induction cs as [|c cs IH]; intros st Hinv; [exact Hinv|].
  simpl. apply IH, route_inv_run_command, Hinv.
Qed.

(** X1. After any sequence of [addStop], [updateStop] and [removeStop]
    calls, [state.markers.stops] holds the markers of the stops of
    [state.route.stops], position by position, and no marker twice. *)
Theorem markers_array_follows_stops (cs : list RouteCommand) :
  let st := run_commands cs initial_state in
  markers_stops st = marker <$> route_stops st ∧
  length (markers_stops st) = length (route_stops st) ∧
  NoDup (markers_stops st).
Proof.
  intros st.
  pose proof (route_inv_run_commands cs initial_state route_inv_initial) as Hinv.
  fold st in Hinv. rewrite (inv_aligned st Hinv).
  split; [reflexivity|]. split; [apply length_fmap|]. apply (inv_wf st Hinv).
Qed.

(** X2. After any sequence of [addStop], [updateStop] and [removeStop]
    calls, the marker of the stop at position [j] shows the letter
    [String.fromCharCode(65 + j)]. *)
Theorem marker_labels_follow_positions (cs : list RouteCommand) (j : nat) (s : Stop) :
  route_stops (run_commands cs initial_state) !! j = Some s →
  ∃ mk, stop_markers (run_commands cs initial_state) !! marker s = Some mk ∧
        si_label (sm_icon mk) = String_fromCharCode (65 + Z.of_nat j).
Proof.
  intros Hj.
  pose proof (route_inv_run_commands cs initial_state route_inv_initial) as Hinv.
  destruct (inv_markers _ Hinv j s Hj) as (mk & Hmk & Hlabel & _). eauto.
Qed.

(** X3. After any sequence of [addStop], [updateStop] and [removeStop]
    calls, the marker of every stop is on the map, at the coordinates of the
    stop. *)
Theorem markers_stand_at_stops (cs : list RouteCommand) (j : nat) (s : Stop) :
  route_stops (run_commands cs initial_state) !! j = Some s →
  ∃ mk, stop_markers (run_commands cs initial_state) !! marker s = Some mk ∧
        sm_latlng mk = (lat s, lon s) ∧
        sm_on_map mk = true.
Proof.
  intros Hj.
  pose proof (route_inv_run_commands cs initial_state route_inv_initial) as Hinv.
  destruct (inv_markers _ Hinv j s Hj) as (mk & Hmk & _ & Hll & Hon). eauto.
Qed.

(** X4. After any sequence of [addStop], [updateStop] and [removeStop]
    calls that leaves at least one stop, the stops list has one item per
    stop, in the order of the route: the item of position [j] carries the
    name of the stop, the letter of the position and "Stop j+1 of n"; its
    class is [start] at position 0, [end] at the last position of a route of
    two stops or more, and empty in between. *)
Theorem stops_list_follows_stops (cs : list RouteCommand) (j : nat) (s : Stop) :
  route_stops (run_commands cs initial_state) !! j = Some s →
  let st := run_commands cs initial_state in
  let n := length (route_stops st) in
  length (dom_stops_list st) = n ∧
  ∃ item, dom_stops_list st !! j = Some item ∧
          li_index item = Some j ∧
          li_name item = name s ∧
          li_label item = String_fromCharCode (65 + Z.of_nat j) ∧
          li_details item = StopOf (j + 1) n ∧
          (j = 0%nat → li_type item = "start") ∧
          (0 < j → j = (n - 1)%nat → li_type item = "end")%nat ∧
          (0 < j → j < n - 1 → li_type item = "")%nat.
Proof.
  intros Hj st n.
  pose proof (route_inv_run_commands cs initial_state route_inv_initial) as Hinv.
  fold st in Hinv, Hj.
  assert (route_stops st ≠ []) as Hne by (intros Hnil; rewrite Hnil in Hj; discriminate).
  rewrite (inv_list st Hinv Hne).
  split.
  { unfold stops_list_html.
    destruct (Nat.eqb_spec (length (route_stops st)) 0) as [H0|_].
    - destruct (route_stops st); [congruence|discriminate].
    - apply length_imap. }
  eexists. split; [apply stops_list_html_lookup, Hj|]. simpl.
  pose proof (lookup_lt_Some _ _ _ Hj) as Hlt. fold n in Hlt |- *.
  do 4 (split; [reflexivity|]). unfold stop_item_type. split; [|split].
  - intros ->. reflexivity.
  - intros Hpos ->. destruct (Nat.eqb_spec (n - 1) 0); [lia|].
    rewrite Nat.eqb_refl. destruct (Nat.ltb_spec 1 n); [reflexivity|lia].
  - intros Hpos Hmid. destruct (Nat.eqb_spec j 0); [lia|].
    destruct (Nat.eqb_spec j (n - 1)); [lia|]. reflexivity.
Qed.

(** X5. After any sequence of [addStop], [updateStop] and [removeStop]
    calls, the route line is on the map exactly when the route has two stops
    or more, and then it goes through the stops, in their order. *)
Theorem route_line_follows_stops (cs : list RouteCommand) :
  let st := run_commands cs initial_state in
  polyline_on_map st = (2 <=? length (route_stops st))%nat ∧
  ((2 <= length (route_stops st))%nat →
   route_polyline st = Some (stop_latlngs (route_stops st)) ∧
   ∀ line, route_polyline st = Some line → length line = length (route_stops st)).
Proof.
  intros st.
  pose proof (route_inv_run_commands cs initial_state route_inv_initial) as Hinv.
  fold st in Hinv. split; [apply (inv_polyline_shown st Hinv)|].
  intros Hlen.
  assert (polyline_on_map st = true) as Hon.
  { rewrite (inv_polyline_shown st Hinv). apply Nat.leb_le, Hlen. }
  rewrite (inv_polyline st Hinv Hon). split; [reflexivity|].
  intros line [= <-]. unfold stop_latlngs. apply length_map.
Qed.

Lemma marker_labels_follow_positions_witness :
  route_stops (run_commands sample_commands initial_state) !! 1%nat = Some agra_stop ∧
  ∃ mk, stop_markers (run_commands sample_commands initial_state) !! marker agra_stop = Some mk ∧
        si_label (sm_icon mk) = String_fromCharCode (65 + Z.of_nat 1).
Proof.
  split; [reflexivity|].
  apply (marker_labels_follow_positions sample_commands 1 agra_stop). reflexivity.
Defined.

Lemma markers_stand_at_stops_witness :
  route_stops (run_commands sample_commands initial_state) !! 1%nat = Some agra_stop ∧
  ∃ mk, stop_markers (run_commands sample_commands initial_state) !! marker agra_stop = Some mk ∧
        sm_latlng mk = (lat agra_stop, lon agra_stop) ∧
        sm_on_map mk = true.
Proof.
  split; [reflexivity|].
  apply (markers_stand_at_stops sample_commands 1 agra_stop). reflexivity.
Defined.

Lemma stops_list_follows_stops_witness :
  route_stops (run_commands sample_commands initial_state) !! 1%nat = Some agra_stop ∧
  length (dom_stops_list (run_commands sample_commands initial_state)) = 2%nat.
Proof.
  split; [reflexivity|].
  apply (stops_list_follows_stops sample_commands 1 agra_stop). reflexivity.
Defined.

(** The roles and the letters of the stops list only depend on the number
    of stops. *)
Lemma stops_list_html_roles (stops1 stops2 : list Stop) :
  length stops1 = length stops2 →
  li_type <$> stops_list_html stops1 = li_type <$> stops_list_html stops2 ∧
  li_label <$> stops_list_html stops1 = li_label <$> stops_list_html stops2.
Proof.
  intros Hlen. unfold stops_list_html. rewrite Hlen.
  destruct (length stops2 =? 0)%nat; [split; reflexivity|].
  rewrite !fmap_imap.
  assert (∀ (f : nat → string + Z) , ∀ (l1 l2 : list Stop) , length l1 = length l2 →
            imap (fun i (_ : Stop) => f i) l1 = imap (fun i (_ : Stop) => f i) l2) as Hext.
  { intros f l1. revert f. induction l1 as [|x l1 IH]; intros f [|y l2] Hl; try discriminate;
      [reflexivity|].
    rewrite !imap_cons. f_equal. apply (IH (fun i => f (S i))). simpl in Hl. lia. }
  split.
  - pose proof (Hext (fun i => inl (stop_item_type i (length stops2))) stops1 stops2 Hlen) as H.
    apply (f_equal (fmap (fun x => match x with inl t => t | inr _ => "" end))) in H.
    rewrite !fmap_imap in H. exact H.
  - pose proof (Hext (fun i => inr (String_fromCharCode (65 + Z.of_nat i))) stops1 stops2 Hlen) as H.
    apply (f_equal (fmap (fun x => match x with inl _ => 0 | inr l => l end))) in H.
    rewrite !fmap_imap in H. exact H.
Qed.

(** X6. [updateStop] with the position of a stop replaces the coordinates
    and the name of that stop and moves its marker; the other stops, the
    number of stops, the marker of each stop, and the role and the letter of
    every item of the stops list stay as they are. *)
Theorem updateStop_replaces_in_place (st : State) (i : nat) (old : Stop)
    (lat0 lon0 : R) (name0 : string) :
  route_stops st !! i = Some old →
  let r := updateStop (inject_Z (Z.of_nat i)) lat0 lon0 name0 st in
  fst r = ReturnsUndefined ∧
  route_stops (snd r)
    = <[i := {| lat := lat0; lon := lon0; name := name0; marker := marker old |}]>
        (route_stops st) ∧
  length (route_stops (snd r)) = length (route_stops st) ∧
  marker <$> route_stops (snd r) = marker <$> route_stops st ∧
  markers_stops (snd r) = markers_stops st ∧
  stop_markers (snd r) = alter (setLatLng (lat0, lon0)) (marker old) (stop_markers st) ∧
  li_type <$> dom_stops_list (snd r) = li_type <$> stops_list_html (route_stops st) ∧
  li_label <$> dom_stops_list (snd r) = li_label <$> stops_list_html (route_stops st).
Proof.
  intros Hold r. subst r. unfold updateStop.
  rewrite array_get_nat, Hold, Qfloor_Z, Nat2Z.id. cbn [fst snd].
  rewrite updateRoute_route_stops, updateRoute_markers_stops, updateRoute_stop_markers,
    updateRoute_dom_stops_list.
  cbn [route_stops markers_stops stop_markers dom_stops_list updateStopsList
       with_dom_stops_list with_route_stops with_stop_markers].
  split; [reflexivity|]. split; [reflexivity|]. split; [apply length_insert|].
  split.
  { rewrite list_fmap_insert. apply list_insert_id. rewrite list_lookup_fmap, Hold. reflexivity. }
  split; [reflexivity|]. split; [reflexivity|].
  apply stops_list_html_roles, length_insert.
Qed.

Lemma updateStop_replaces_in_place_witness :
  route_stops delhi_agra !! 1%nat
    = Some {| lat := 27.1767%R; lon := 78.0081%R; name := "Agra"; marker := 1%nat |} ∧
  length (route_stops (snd (updateStop (inject_Z (Z.of_nat 1)) 26.9124%R 75.7873%R "Jaipur"
                              delhi_agra))) = length (route_stops delhi_agra).
Proof.
  split; [reflexivity|].
  apply (updateStop_replaces_in_place delhi_agra 1
           {| lat := 27.1767%R; lon := 78.0081%R; name := "Agra"; marker := 1%nat |}).
  reflexivity.
Defined.

(** X7. After any sequence of calls, [removeStop] with the position of a
    stop takes that stop out of the route and keeps the others in their
    order; the marker of the removed stop is taken off the map and out of
    [state.markers.stops]. *)
Theorem removed_stop_leaves_map (cs : list RouteCommand) (i : nat) (s : Stop) :
  route_stops (run_commands cs initial_state) !! i = Some s →
  let st := run_commands cs initial_state in
  let st' := snd (removeStop (inject_Z (Z.of_nat i)) st) in
  route_stops st' = delete i (route_stops st) ∧
  length (route_stops st') = (length (route_stops st) - 1)%nat ∧
  (marker s ∉ markers_stops st') ∧
  (∃ mk, stop_markers st' !! marker s = Some mk ∧ sm_on_map mk = false).
Proof.
  intros Hs st st'.
  pose proof (route_inv_run_commands cs initial_state route_inv_initial) as Hinv.
  fold st in Hinv, Hs.
  destruct (removeStop_in_range st i s Hs) as (_ & Hstops & _ & Hheap).
  fold st' in Hstops, Hheap.
  pose proof (route_inv_removeStop st (inject_Z (Z.of_nat i)) Hinv) as Hinv'.
  fold st' in Hinv'.
  assert (marker s ∉ marker <$> delete i (route_stops st)) as Hgone.
  { intros Hin. apply list_elem_of_fmap in Hin as (t & Heq & Hin).
    apply list_elem_of_lookup in Hin as [j Hj].
    destruct (decide (j < i)%nat) as [Hlt|Hge];
      [rewrite list_lookup_delete_lt in Hj by lia
      |rewrite list_lookup_delete_ge in Hj by lia].
    - pose proof (stops_wf_marker_inj st i j s t (inv_wf st Hinv) Hs Hj Heq). lia.
    - pose proof (stops_wf_marker_inj st i (S j) s t (inv_wf st Hinv) Hs Hj Heq). lia. }
  split; [exact Hstops|]. split.
  { rewrite Hstops, length_delete by eauto. reflexivity. }
  split.
  { rewrite (inv_aligned st' Hinv'), Hstops. exact Hgone. }
  destruct (inv_markers st Hinv i s Hs) as (mk & Hmk & _).
  exists (removeLayer mk). split; [|reflexivity].
  rewrite Hheap, relabel_from_other by exact Hgone.
  rewrite list_lookup_alter_eq, Hmk. reflexivity.
Qed.

Lemma removed_stop_leaves_map_witness :
  route_stops (run_commands sample_commands initial_state) !! 1%nat = Some agra_stop ∧
  route_stops (snd (removeStop (inject_Z (Z.of_nat 1))
                      (run_commands sample_commands initial_state)))
  = delete 1%nat (route_stops (run_commands sample_commands initial_state)).
Proof.
  split; [reflexivity|].
  apply (removed_stop_leaves_map sample_commands 1 agra_stop). reflexivity.
Defined.

(** X8. After any sequence of calls, adding a stop and removing it again
    (the last position) gives back the stops of the route, the marker array
    and the presence of the route line; the two calls return normally. *)
Theorem add_then_remove_restores_route (cs : list RouteCommand)
    (lat0 lon0 : R) (name0 type : string) :
  let st := run_commands cs initial_state in
  let added := addStop lat0 lon0 name0 type st in
  let back := removeStop (inject_Z (Z.of_nat (length (route_stops st)))) (snd added) in
  fst added = ReturnsUndefined ∧
  fst back = ReturnsUndefined ∧
  length (route_stops (snd added)) = S (length (route_stops st)) ∧
  route_stops (snd back) = route_stops st ∧
  markers_stops (snd back) = markers_stops st ∧
  polyline_on_map (snd back) = polyline_on_map st.
Proof.
  intros st added back.
  pose proof (route_inv_run_commands cs initial_state route_inv_initial) as Hinv.
  fold st in Hinv.
  pose proof (route_inv_addStop st lat0 lon0 name0 type Hinv) as Hinv1. fold added in Hinv1.
  pose proof (route_inv_removeStop (snd added)
                (inject_Z (Z.of_nat (length (route_stops st)))) Hinv1) as Hinv2.
  fold back in Hinv2.
  set (new := {| lat := lat0; lon := lon0; name := name0;
                 marker := length (stop_markers st) |}).
  assert (route_stops (snd added) = route_stops st ++ [new]) as Hadded.
  { subst added. unfold addStop. cbn [snd]. rewrite updateRoute_route_stops. reflexivity. }
  assert (route_stops (snd added) !! length (route_stops st) = Some new) as Hnew.
  { rewrite Hadded. apply list_lookup_middle. reflexivity. }
  destruct (removeStop_in_range (snd added) _ new Hnew) as (Hret & Hstops & _).
  fold back in Hret, Hstops.
  assert (route_stops (snd back) = route_stops st) as Hback.
  { rewrite Hstops, Hadded. rewrite delete_middle. apply app_nil_r. }
  split; [reflexivity|]. split; [exact Hret|]. split.
  { rewrite Hadded, length_app. simpl. lia. }
  split; [exact Hback|]. split.
  - rewrite (inv_aligned _ Hinv2), (inv_aligned _ Hinv), Hback. reflexivity.
  - rewrite (inv_polyline_shown _ Hinv2), (inv_polyline_shown _ Hinv), Hback. reflexivity.
Qed.

(** * Points between stops *)

Lemma up_monotone (x y : R) : (x <= y)%R → up x <= up y.
Proof.
  intros Hxy. destruct (archimed x) as [_ Hx]. destruct (archimed y) as [Hy _].
  assert (IZR (up x) < IZR (up y + 1))%R as Hlt by (rewrite plus_IZR; lra).
  apply lt_IZR in Hlt. lia.
Qed.

Lemma Math_round_monotone (x y : R) : (x <= y)%R → Math_round x <= Math_round y.
Proof.
  intros Hxy. unfold Math_round.
  assert (x + 1 / 2 <= y + 1 / 2)%R as Hhalf by lra.
  pose proof (up_monotone _ _ Hhalf). lia.
Qed.

Lemma Math_round_nonneg (x : R) : (0 <= x)%R → 0 <= Math_round x.
Proof. intros Hx. rewrite <- (Math_round_IZR 0). apply Math_round_monotone, Hx. Qed.

(** X11. The points that [getIntermediatePoints] puts between two locations
    lie between them, in latitude and in longitude, and are named with a
    percentage from 0 to 100; there is none when [numPoints] is zero or
    negative. *)
Theorem intermediate_points_between (from to : Point) (numPoints : Z) :
  (numPoints <= 0 → getIntermediatePoints from to numPoints = []) ∧
  ∀ pt : Point, pt ∈ getIntermediatePoints from to numPoints →
    (Rmin (p_lat from) (p_lat to) <= p_lat pt <= Rmax (p_lat from) (p_lat to))%R ∧
    (Rmin (p_lon from) (p_lon to) <= p_lon pt <= Rmax (p_lon from) (p_lon to))%R ∧
    ∃ percent, p_name pt = EnRoute percent ∧ 0 <= percent <= 100.
Proof.
  split.
  { intros Hk. unfold getIntermediatePoints, count_from_1.
    replace (Z.to_nat numPoints) with 0%nat by lia. reflexivity. }
  intros pt Hin. apply list_elem_of_lookup in Hin as [r Hr].
  pose proof (lookup_lt_Some _ _ _ Hr) as Hlt.
  rewrite getIntermediatePoints_length in Hlt.
  rewrite getIntermediatePoints_lookup in Hr by exact Hlt. injection Hr as <-.
  set (f := (IZR (Z.of_nat (S r)) / IZR (numPoints + 1))%R).
  assert (0 < f < 1)%R as Hf.
  { subst f.
    assert (0 < IZR (Z.of_nat (S r)))%R by (apply IZR_lt; lia).
    assert (IZR (Z.of_nat (S r)) < IZR (numPoints + 1))%R by (apply IZR_lt; lia).
    split.
    - apply Rdiv_lt_0_compat; lra.
    - apply (Rmult_lt_reg_r (IZR (numPoints + 1))); [lra|].
      unfold Rdiv. rewrite Rmult_assoc, Rinv_l by lra. lra. }
  cbn [p_lat p_lon p_name]. fold f.
  assert (∀ a b : R, (Rmin a b <= a + (b - a) * f <= Rmax a b)%R) as Hbetween.
  { intros a b. unfold Rmin, Rmax. destruct (Rle_dec a b); nra. }
  split; [apply Hbetween|]. split; [apply Hbetween|].
  eexists. split; [reflexivity|]. split.
  - apply Math_round_nonneg. nra.
  - etransitivity; [apply (Math_round_monotone _ (IZR 100)); nra|].
    rewrite Math_round_IZR. lia.
Qed.

(** * Ingestion of the answers of the data source *)

Lemma BUDGET_LEVELS_Some (b : Z) : 1 <= b <= 4 → is_Some (BUDGET_LEVELS b).
Proof.
  intros Hb. assert (b = 1 ∨ b = 2 ∨ b = 3 ∨ b = 4) as [->|[->|[->| ->]]] by lia;
    eexists; reflexivity.
Qed.

Lemma positive_draw_level (r : Q) : positive_draw r → 1 <= Math_ceil (r * 4) <= 4.
Proof.
  intros [H0 H1].
  pose proof (Math_ceil_draw_range r (Qlt_le_weak _ _ H0) H1) as Hrange.
  destruct (Z.eq_dec (Math_ceil (r * 4)) 0) as [Hz|Hnz]; [|lia].
  apply (Math_ceil_draw_zero r (Qlt_le_weak _ _ H0)) in Hz.
  rewrite Hz in H0. discriminate.
Qed.

(** The state after a call of [createPOIMarker] that returns. *)
Lemma createPOIMarker_positive poi category r st ty :
  POI_TYPES category = Some ty → positive_draw r →
  ∃ mk,
    createPOIMarker poi category r st =
      (ReturnsUndefined,
       with_markers_pois (markers_pois st ++ [length (poi_markers st)])
         (with_poi_markers (poi_markers st ++ [mk]) st)) ∧
    pm_budget mk = Some (Math_ceil (r * 4)) ∧
    pm_category mk = Some category ∧
    pm_opacity mk = 1%Q ∧
    pm_on_map mk = true ∧
    pm_latlng mk = (poi_lat poi, poi_lon poi) ∧
    pm_icon_glyph mk = pt_icon ty ∧
    pp_name <$> pm_popup mk = Some (or_string (poi_tags_name poi) (pt_name ty)).
Proof.
  intros Hty Hr. pose proof (positive_draw_level r Hr) as Hlevel.
  destruct (BUDGET_LEVELS_Some _ Hlevel) as [info Hinfo].
  unfold createPOIMarker. rewrite Hty. cbv zeta. rewrite Hinfo.
  cbn [poi_markers markers_pois with_poi_markers with_markers_pois].
  rewrite (alter_app_r_alt _ (poi_markers st)) by lia.
  rewrite Nat.sub_diag. cbn [alter list_alter].
  eexists. split; [reflexivity|]. cbn. auto 10.
Qed.

(** The state after a call that draws 0. *)
Lemma createPOIMarker_zero poi category r st ty :
  POI_TYPES category = Some ty → (r == 0)%Q →
  ∃ mk,
    createPOIMarker poi category r st =
      (Throws TypeError, with_poi_markers (poi_markers st ++ [mk]) st) ∧
    pm_budget mk = Some 0 ∧ pm_on_map mk = true.
Proof.
  intros Hty Hr. unfold createPOIMarker. rewrite Hty. cbv zeta.
  assert (Math_ceil (r * 4) = 0) as ->.
  { apply Math_ceil_draw_zero; [rewrite Hr; discriminate|exact Hr]. }
  cbn. eexists. split; [reflexivity|]. auto.
Qed.

(** X12. [createPOIMarker] with a category of [POI_TYPES] and a draw
    strictly between 0 and 1 returns normally and adds one record at the end
    of the catalog: a new marker on the map, at the position of the element,
    at full opacity, with the category, the glyph of the category, a level
    from 1 to 4, and a popup named after the element or, without a name,
    after the category. The records before it and the stops stay as they
    are. *)
Theorem createPOIMarker_adds_record (poi : RawPoi) (category : string) (r : Q)
    (st : State) (ty : PoiType) :
  POI_TYPES category = Some ty → positive_draw r →
  let res := createPOIMarker poi category r st in
  fst res = ReturnsUndefined ∧
  markers_pois (snd res) = markers_pois st ++ [length (poi_markers st)] ∧
  route_stops (snd res) = route_stops st ∧
  ∃ mk, poi_markers (snd res) = poi_markers st ++ [mk] ∧
        pm_budget mk = Some (Math_ceil (r * 4)) ∧
        1 <= Math_ceil (r * 4) <= 4 ∧
        pm_category mk = Some category ∧
        pm_opacity mk = 1%Q ∧
        pm_on_map mk = true ∧
        pm_latlng mk = (poi_lat poi, poi_lon poi) ∧
        pm_icon_glyph mk = pt_icon ty ∧
        pp_name <$> pm_popup mk = Some (or_string (poi_tags_name poi) (pt_name ty)).
Proof.
  intros Hty Hr res.
  destruct (createPOIMarker_positive poi category r st ty Hty Hr)
    as (mk & Hres & Hb & Hc & Ho & Hm & Hll & Hg & Hp).
  subst res. rewrite Hres. cbn [fst snd].
  split; [reflexivity|]. split; [reflexivity|]. split; [reflexivity|].
  exists mk. split; [reflexivity|].
  pose proof (positive_draw_level r Hr). auto 10.
Qed.

Lemma createPOIMarker_adds_record_witness :
  POI_TYPES "landmark" = Some {| pt_icon := "🏛️"; pt_color := "#06b6d4";
            pt_tags := ["tourism=attraction"; "tourism=museum"; "historic=monument"; "tourism=viewpoint"];
            pt_name := "Landmark" |} ∧
  positive_draw (5 # 8) ∧
  markers_pois (snd (createPOIMarker red_fort "landmark" (5 # 8) four_levels))
    = markers_pois four_levels ++ [length (poi_markers four_levels)].
Proof.
  assert (positive_draw (5 # 8)) as Hr by (split; reflexivity).
  split; [reflexivity|]. split; [exact Hr|].
  apply (createPOIMarker_adds_record red_fort "landmark" (5 # 8) four_levels _ eq_refl Hr).
Defined.

(** One call of [createPOIMarker], whatever the category and the draw:
    markers are only added, at most one record at the end of the catalog. *)
Lemma createPOIMarker_grows poi category r st :
  let st' := snd (createPOIMarker poi category r st) in
  markers_pois st `prefix_of` markers_pois st' ∧
  poi_markers st `prefix_of` poi_markers st' ∧
  (length (markers_pois st') <= S (length (markers_pois st)))%nat ∧
  stop_markers st' = stop_markers st ∧
  markers_stops st' = markers_stops st ∧
  route_stops st' = route_stops st ∧
  dom_stops_list st' = dom_stops_list st ∧
  trip_days st' = trip_days st ∧
  trip_budget st' = trip_budget st.
Proof.
  unfold createPOIMarker.
  destruct (POI_TYPES category) as [ty|]; [|cbn; repeat split; try reflexivity; lia].
  cbv zeta. destruct (BUDGET_LEVELS (Math_ceil (r * 4))) as [info|]; cbn [snd].
  - cbn [markers_pois poi_markers with_markers_pois with_poi_markers stop_markers
         markers_stops route_stops dom_stops_list trip_days trip_budget].
    rewrite (alter_app_r_alt _ (poi_markers st)) by lia.
    rewrite length_app. simpl length.
    repeat split; try reflexivity; try lia; apply prefix_app_r; reflexivity.
  - cbn. repeat split; try reflexivity; try lia. apply prefix_app_r. reflexivity.
Qed.

Lemma create_markers_grows category elements : ∀ st,
  let st' := snd (create_markers category elements st) in
  markers_pois st `prefix_of` markers_pois st' ∧
  poi_markers st `prefix_of` poi_markers st' ∧
  (length (markers_pois st') <= length (markers_pois st) + length elements)%nat ∧
  stop_markers st' = stop_markers st ∧
  markers_stops st' = markers_stops st ∧
  route_stops st' = route_stops st ∧
  dom_stops_list st' = dom_stops_list st ∧
  trip_days st' = trip_days st ∧
  trip_budget st' = trip_budget st ∧
  (valid_catalog st = true → valid_catalog st' = true).
Proof.
  induction elements as [|[poi r] rest IH]; intros st.
  - cbn. repeat split; try reflexivity; try lia. auto.
  - cbn [create_markers].
    pose proof (createPOIMarker_grows poi category r st) as Hone.
    pose proof (valid_catalog_createPOIMarker poi category r st) as Hvalid.
    destruct (createPOIMarker poi category r st) as [[|e] st1]; cbn [snd] in Hone, Hvalid |- *.
    + specialize (IH st1). cbv zeta in IH, Hone.
      destruct Hone as (H1 & H2 & H3 & H4 & H5 & H6 & H7 & H8 & H9).
      destruct IH as (I1 & I2 & I3 & I4 & I5 & I6 & I7 & I8 & I9 & I10).
      cbn [length]. repeat split; try congruence; try lia; try (etransitivity; eassumption).
      auto.
    + cbv zeta in Hone. destruct Hone as (H1 & H2 & H3 & H4 & H5 & H6 & H7 & H8 & H9).
      cbn [length]. repeat split; try assumption; try lia.
Qed.


Lemma create_markers_app category l1 : ∀ l2 st,
  create_markers category (l1 ++ l2) st =
  match create_markers category l1 st with
  | (ReturnsUndefined, st') => create_markers category l2 st'
  | (Throws e, st') => (Throws e, st')
  end.
Proof.
  induction l1 as [|[poi r] l1 IH]; intros l2 st; [reflexivity|].
  cbn [app create_markers].
  destruct (createPOIMarker poi category r st) as [[|e] st1]; [apply IH|reflexivity].
Qed.

Lemma create_markers_positive category ty elements : ∀ st,
  POI_TYPES category = Some ty →
  Forall (fun e => positive_draw (snd e)) elements →
  ∃ new,
    create_markers category elements st =
      (ReturnsUndefined,
       with_markers_pois
         (markers_pois st ++ seq (length (poi_markers st)) (length elements))
         (with_poi_markers (poi_markers st ++ new) st)) ∧
    length new = length elements ∧
    Forall (ingested category) new ∧
    Forall2 (fun e mk => pm_latlng mk = (poi_lat (fst e), poi_lon (fst e))) elements new.
Proof.
  induction elements as [|[poi r] rest IH]; intros st Hty Hpos.
  - exists []. cbn. rewrite !app_nil_r. destruct st. repeat split; constructor.
  - apply Forall_cons in Hpos as [Hr Hrest]. cbn [snd] in Hr.
    destruct (createPOIMarker_positive poi category r st ty Hty Hr)
      as (mk & Hres & Hb & Hc & Ho & Hm & Hll & _).
    cbn [create_markers]. rewrite Hres.
    destruct (IH (with_markers_pois (markers_pois st ++ [length (poi_markers st)])
                    (with_poi_markers (poi_markers st ++ [mk]) st)) Hty Hrest)
      as (new & Hnew & Hlen & Hall & Hpos2).
    exists (mk :: new). rewrite Hnew.
    cbn [markers_pois poi_markers with_markers_pois with_poi_markers length].
    rewrite length_app. cbn [length].
    rewrite <- !app_assoc. cbn [app].
    replace (length (poi_markers st) + 1)%nat with (S (length (poi_markers st))) by lia.
    split; [reflexivity|]. split; [lia|]. split.
    + constructor; [|exact Hall]. unfold ingested.
      pose proof (positive_draw_level r Hr). eauto 10.
    + constructor; [exact Hll|exact Hpos2].
Qed.

Section FoldAlter.
Context {A : Type} (f : A → A).
Hypothesis f_idem : ∀ x, f (f x) = f x.

(** A loop that applies [f] to the objects behind a list of references. *)
Lemma fold_alter_lookup (refs : list nat) : ∀ (h : list A) (r : nat),
  foldl (fun h r => alter f r h) h refs !! r =
  if bool_decide (r ∈ refs) then f <$> h !! r else h !! r.
Proof.
  induction refs as [|a refs IH]; intros h r; simpl; [reflexivity|].
  rewrite IH. destruct (decide (a = r)) as [->|Hne].
  - rewrite list_lookup_alter_eq.
    rewrite (bool_decide_eq_true_2 (r ∈ r :: refs)) by left.
    case_bool_decide; [|reflexivity].
    destruct (h !! r); simpl; [|reflexivity]. rewrite f_idem. reflexivity.
  - rewrite list_lookup_alter_ne by exact Hne.
    rewrite (bool_decide_ext (r ∈ a :: refs) (r ∈ refs)); [reflexivity|].
    rewrite elem_of_cons. split; [intros [Heq|Hin]; [congruence|exact Hin]|auto].
Qed.

Lemma fold_alter_length (refs : list nat) : ∀ (h : list A),
  length (foldl (fun h r => alter f r h) h refs) = length h.
Proof.
  induction refs as [|a refs IH]; intros h; simpl; [reflexivity|].
  rewrite IH. apply length_alter.
Qed.
End FoldAlter.

Lemma clearPOIMarkers_lookup st r :
  poi_markers (clearPOIMarkers st) !! r =
  if bool_decide (r ∈ markers_pois st)
  then poi_removeLayer <$> poi_markers st !! r else poi_markers st !! r.
Proof. unfold clearPOIMarkers. simpl. apply fold_alter_lookup. reflexivity. Qed.

(** X14. When every draw is strictly between 0 and 1, [fetchPOIs] with a
    category of [POI_TYPES] adds one record per element of the answer, in
    the order of the answer, after the records of before: each a new marker
    on the map at the position of its element, with the category and a
    level from 1 to 4. *)
Theorem fetchPOIs_adds_every_element (category : string) (ty : PoiType)
    (elements : list (RawPoi * Q)) (st : State) :
  POI_TYPES category = Some ty →
  Forall (fun e => positive_draw (snd e)) elements →
  let st' := snd (fetchPOIs category (Some elements) st) in
  markers_pois st' = markers_pois st ++ seq (length (poi_markers st)) (length elements) ∧
  length (markers_pois st') = (length (markers_pois st) + length elements)%nat ∧
  ∃ new, poi_markers st' = poi_markers st ++ new ∧
         length new = length elements ∧
         Forall (ingested category) new ∧
         Forall2 (fun e mk => pm_latlng mk = (poi_lat (fst e), poi_lon (fst e))) elements new.
Proof.
  intros Hty Hpos st'. subst st'. unfold fetchPOIs. rewrite Hty. cbn [snd].
  destruct (create_markers_positive category ty elements st Hty Hpos)
    as (new & -> & Hlen & Hall & Hat).
  cbn [snd markers_pois poi_markers with_markers_pois with_poi_markers].
  split; [reflexivity|]. split; [rewrite length_app, length_seq; reflexivity|].
  exists new. auto.
Qed.

Lemma fetchPOIs_adds_every_element_witness :
  Forall (fun e : RawPoi * Q => positive_draw (snd e)) [(red_fort, 1 # 8); (jama_masjid, 9 # 10)] ∧
  length (markers_pois (snd (fetchPOIs "landmark"
                               (Some [(red_fort, 1 # 8); (jama_masjid, 9 # 10)]) four_levels)))
  = (length (markers_pois four_levels) + 2)%nat.
Proof.
  assert (Forall (fun e : RawPoi * Q => positive_draw (snd e))
            [(red_fort, 1 # 8); (jama_masjid, 9 # 10)]) as Hpos.
  { repeat constructor. }
  split; [exact Hpos|].
  apply (fetchPOIs_adds_every_element "landmark" _ _ four_levels eq_refl Hpos).
Defined.

(** X15. When the draw of an element is 0, [fetchPOIs] still returns
    normally, but only the elements before it have become records: its own
    marker stays on the map with the level 0 without being a record, the
    elements after it are dropped, and [clearPOIMarkers] leaves that marker
    on the map. *)
Theorem fetchPOIs_stops_at_zero_draw (category : string) (ty : PoiType)
    (before after : list (RawPoi * Q)) (poi0 : RawPoi) (r0 : Q) (st : State) :
  POI_TYPES category = Some ty →
  Forall (fun e => positive_draw (snd e)) before →
  (r0 == 0)%Q →
  valid_catalog st = true →
  let res := fetchPOIs category (Some (before ++ (poi0, r0) :: after)) st in
  let lost := (length (poi_markers st) + length before)%nat in
  fst res = ReturnsUndefined ∧
  markers_pois (snd res)
    = markers_pois st ++ seq (length (poi_markers st)) (length before) ∧
  length (poi_markers (snd res)) = S lost ∧
  (lost ∉ markers_pois (snd res)) ∧
  (∃ mk, poi_markers (snd res) !! lost = Some mk ∧
         pm_on_map mk = true ∧ pm_budget mk = Some 0) ∧
  (∃ mk, poi_markers (clearPOIMarkers (snd res)) !! lost = Some mk ∧
         pm_on_map mk = true).
Proof.
  intros Hty Hpos Hzero Hvalid res lost. subst res. unfold fetchPOIs. rewrite Hty.
  cbn [fst snd]. rewrite create_markers_app.
  destruct (create_markers_positive category ty before st Hty Hpos)
    as (new & -> & Hlen & _ & _).
  cbn [create_markers].
  destruct (createPOIMarker_zero poi0 category r0
              (with_markers_pois
                 (markers_pois st ++ seq (length (poi_markers st)) (length before))
                 (with_poi_markers (poi_markers st ++ new) st)) ty Hty Hzero)
    as (mk0 & -> & Hb0 & Hon0).
  cbn [snd markers_pois poi_markers with_markers_pois with_poi_markers].
  assert (lost ∉ markers_pois st ++ seq (length (poi_markers st)) (length before)) as Hlost.
  { intros Hin. apply elem_of_app in Hin as [Hin|Hin].
    - destruct (valid_catalog_lookup st lost Hvalid Hin) as (mk & _ & Hmk & _).
      apply lookup_lt_Some in Hmk. subst lost. lia.
    - apply elem_of_seq in Hin. subst lost. lia. }
  assert (((poi_markers st ++ new) ++ [mk0]) !! lost = Some mk0) as Hthere.
  { apply list_lookup_middle. rewrite length_app. subst lost. lia. }
  split; [reflexivity|]. split; [reflexivity|]. split.
  { rewrite !length_app. simpl. subst lost. lia. }
  split; [exact Hlost|]. split; [eauto|].
  exists mk0. split; [|exact Hon0].
  rewrite clearPOIMarkers_lookup.
  cbn [markers_pois poi_markers with_markers_pois with_poi_markers].
  rewrite bool_decide_eq_false_2 by exact Hlost. exact Hthere.
Qed.

Lemma fetchPOIs_stops_at_zero_draw_witness :
  Forall (fun e : RawPoi * Q => positive_draw (snd e)) [(red_fort, 1 # 8)] ∧
  (0 == 0)%Q ∧ valid_catalog four_levels = true ∧
  markers_pois (snd (fetchPOIs "landmark"
                       (Some ([(red_fort, 1 # 8)] ++ (jama_masjid, 0%Q) :: [(red_fort, 1 # 2)]))
                       four_levels))
  = markers_pois four_levels ++ seq (length (poi_markers four_levels)) 1.
Proof.
  assert (Forall (fun e : RawPoi * Q => positive_draw (snd e)) [(red_fort, 1 # 8)]) as Hpos.
  { repeat constructor. }
  split; [exact Hpos|]. split; [reflexivity|]. split; [reflexivity|].
  apply (fetchPOIs_stops_at_zero_draw "landmark" _ [(red_fort, 1 # 8)] [(red_fort, 1 # 2)]
           jama_masjid 0%Q four_levels eq_refl Hpos (Qeq_refl 0) eq_refl).
Defined.

(** X16. [clearPOIMarkers] empties the catalog, takes every marker that was
    a record off the map and leaves all other markers, the stops and the
    trip settings as they are; the itinerary written next says that there is
    nothing to plan. *)
Theorem clearPOIMarkers_empties_catalog (st : State) :
  let st' := clearPOIMarkers st in
  markers_pois st' = [] ∧
  length (poi_markers st') = length (poi_markers st) ∧
  (∀ r mk, poi_markers st !! r = Some mk →
     poi_markers st' !! r
       = Some (if bool_decide (r ∈ markers_pois st) then poi_removeLayer mk else mk)) ∧
  route_stops st' = route_stops st ∧
  stop_markers st' = stop_markers st ∧
  trip_days st' = trip_days st ∧
  ItineraryEmpty ∈ itinerary_html st' ∧
  itinerary_days (itinerary_html st') = [].
Proof.
  intros st'. subst st'.
  split; [reflexivity|]. split.
  { unfold clearPOIMarkers. simpl. apply fold_alter_length. }
  split.
  { intros r mk Hmk. rewrite clearPOIMarkers_lookup, Hmk. case_bool_decide; reflexivity. }
  split; [reflexivity|]. split; [reflexivity|]. split; [reflexivity|].
  assert (itinerary_pois (clearPOIMarkers st) = []) as Hpois by reflexivity.
  rewrite (itinerary_html_empty _ Hpois). split; [right; left|reflexivity].
Qed.

(** * The budget filter, once more *)

Lemma budget_opacity_absorbs v w mk :
  budget_opacity v (budget_opacity w mk) = budget_opacity v mk.
Proof.
  unfold budget_opacity.
  destruct (markerBudget mk <=? w); rewrite markerBudget_setOpacity;
    destruct (markerBudget mk <=? v); reflexivity.
Qed.

Lemma budget_fold_absorbs v w refs (h : list PoiMarker) :
  foldl (fun h r => alter (budget_opacity v) r h)
        (foldl (fun h r => alter (budget_opacity w) r h) h refs) refs
  = foldl (fun h r => alter (budget_opacity v) r h) h refs.
Proof.
  apply list_eq. intros r. rewrite !budget_fold_lookup.
  case_bool_decide; [|reflexivity].
  destruct (h !! r); simpl; [|reflexivity]. rewrite budget_opacity_absorbs. reflexivity.
Qed.

(** X17. Two moves of the budget slider leave the state that the second
    move alone gives: the opacity of a record only depends on the last
    budget, and nothing else of the state changes. *)
Theorem last_budget_wins (v w : Z) (st : State) :
  handleBudgetChange v (handleBudgetChange w st) = handleBudgetChange v st.
Proof.
  unfold handleBudgetChange, filterPOIsByBudget.
  cbn [trip_budget poi_markers markers_pois with_trip_budget with_poi_markers].
  rewrite budget_fold_absorbs. reflexivity.
Qed.

Lemma filter_sublist_impl {A : Type} (p q : A → bool) (l : list A) :
  (∀ x, x ∈ l → p x = true → q x = true) →
  List.filter p l `sublist_of` List.filter q l.
Proof.
  induction l as [|x l IH]; intros Himpl; [constructor|].
  assert (List.filter p l `sublist_of` List.filter q l) as Hrest.
  { apply IH. intros y Hy. apply Himpl. right. exact Hy. }
  simpl. destruct (p x) eqn:Hp.
  - rewrite (Himpl x ltac:(left) Hp). constructor. exact Hrest.
  - destruct (q x); [constructor|]; exact Hrest.
Qed.

(** X18. A larger budget never hides a record: the records shown at full
    opacity with the budget [v] are, in the same order, among those shown
    with any budget [w >= v]. *)
Theorem larger_budget_shows_more (v w : Z) (st : State) :
  v <= w →
  visible_pois (handleBudgetChange v st) `sublist_of` visible_pois (handleBudgetChange w st).
Proof.
  intros Hvw. unfold visible_pois. rewrite !handleBudgetChange_markers_pois.
  apply filter_sublist_impl. intros r Hr.
  unfold is_visible. rewrite !handleBudgetChange_lookup, !bool_decide_eq_true_2 by exact Hr.
  destruct (poi_markers st !! r) as [mk|]; simpl; [|discriminate].
  rewrite !budget_opacity_visible. intros Hv. apply Z.leb_le in Hv. apply Z.leb_le. lia.
Qed.

Lemma larger_budget_shows_more_witness :
  1 <= 3 ∧
  visible_pois (handleBudgetChange 1 four_levels)
    `sublist_of` visible_pois (handleBudgetChange 3 four_levels).
Proof.
  split; [lia|]. apply (larger_budget_shows_more 1 3 four_levels). lia.
Defined.

(** X19. On a catalog built by ingestion a budget of 4 or more, such as the
    initial budget of 25000, shows every record at full opacity, and a
    budget of 0 or less shows none. *)
Theorem budget_extremes (v : Z) (st : State) :
  valid_catalog st = true →
  (4 <= v → visible_pois (handleBudgetChange v st) = markers_pois st) ∧
  (v <= 0 → visible_pois (handleBudgetChange v st) = []).
Proof.
  intros Hok.
  assert (∀ r, r ∈ markers_pois st →
            ∃ b, 1 <= b <= 4 ∧
                 is_visible (poi_markers (handleBudgetChange v st)) r = (b <=? v)) as Hvis.
  { intros r Hr. destruct (valid_catalog_lookup st r Hok Hr) as (mk & b & Hmk & Hb & Hrange).
    exists b. split; [exact Hrange|].
    rewrite (visible_after_filter v st r mk Hr Hmk). unfold markerBudget. rewrite Hb.
    destruct (Z.eqb_spec b 0); [lia|reflexivity]. }
  unfold visible_pois. rewrite handleBudgetChange_markers_pois.
  induction (markers_pois st) as [|r refs IH]; [split; reflexivity|].
  destruct IH as [IHall IHnone]; [intros r' Hr'; apply Hvis; right; exact Hr'|].
  destruct (Hvis r ltac:(left)) as (b & Hrange & Hb).
  cbn [List.filter]. rewrite Hb. split; intros Hv.
  - destruct (Z.leb_spec b v); [|lia]. rewrite (IHall Hv). reflexivity.
  - destruct (Z.leb_spec b v); [lia|]. apply IHnone, Hv.
Qed.

Lemma budget_extremes_witness :
  valid_catalog four_levels = true ∧
  visible_pois (handleBudgetChange (trip_budget initial_state) four_levels)
    = markers_pois four_levels.
Proof.
  split; [reflexivity|].
  apply (budget_extremes (trip_budget initial_state) four_levels eq_refl).
  vm_compute. discriminate.
Defined.

(** * The entries of the itinerary *)

Lemma POI_TYPES_entries category ty :
  POI_TYPES category = Some ty →
  pt_icon ty ≠ "" ∧ pt_name ty ≠ "" ∧ pt_name ty ≠ "Final Destination".
Proof.
  unfold POI_TYPES. intros H.
  repeat (match type of H with
          | context [String.eqb ?a ?b] =>
              destruct (String.eqb a b); [injection H as <-; repeat split; discriminate|]
          end).
  discriminate.
Qed.

Lemma or_string_nonempty (s b : string) : s ≠ "" → or_string (Some s) b = s.
Proof.
  intros Hs. unfold or_string.
  destruct (String.eqb_spec s ""); [contradiction|reflexivity].
Qed.

(** The records of before read the same in a store that has grown. *)
Lemma itinerary_pois_store_grows (h extra : list PoiMarker) (refs : list nat) :
  (∀ r, r ∈ refs → is_Some (h !! r)) →
  omap (fun r => poi_info <$> (h ++ extra) !! r) refs
  = omap (fun r => poi_info <$> h !! r) refs.
Proof.
  induction refs as [|r refs IH]; intros Hrefs; [reflexivity|].
  cbn [omap list_omap].
  destruct (Hrefs r ltac:(left)) as [mk Hmk].
  rewrite (lookup_app_l_Some _ _ _ _ Hmk), Hmk. simpl.
  rewrite IH; [reflexivity|]. intros r' Hr'. apply Hrefs. right. exact Hr'.
Qed.

(** X20. The entry that the itinerary shows for a record added by
    [createPOIMarker] has the glyph of the category both as its icon and as
    its name, and the name of the category as its type: the name of the
    place given by the data source does not appear. *)
Theorem itinerary_names_place_by_glyph (poi : RawPoi) (category : string) (r : Q)
    (st : State) (ty : PoiType) :
  POI_TYPES category = Some ty → positive_draw r → valid_catalog st = true →
  let st' := snd (createPOIMarker poi category r st) in
  ∃ info, itinerary_pois st' = itinerary_pois st ++ [info] ∧
          poi_place info
            = {| pl_icon := pt_icon ty; pl_name := pt_icon ty; pl_type := pt_name ty |}.
Proof.
  intros Hty Hr Hvalid st'. subst st'.
  destruct (createPOIMarker_positive poi category r st ty Hty Hr)
    as (mk & -> & _ & Hc & _ & _ & _ & Hg & _).
  destruct (POI_TYPES_entries category ty Hty) as (Hicon & Hname & _).
  exists (poi_info mk). split.
  - unfold itinerary_pois at 1.
    cbn [snd markers_pois poi_markers with_markers_pois with_poi_markers].
    rewrite omap_app. f_equal.
    + apply itinerary_pois_store_grows. intros k Hk.
      destruct (valid_catalog_lookup st k Hvalid Hk) as (mk' & _ & Hmk' & _). eauto.
    + cbn [omap list_omap]. rewrite list_lookup_middle by reflexivity. reflexivity.
  - unfold poi_place, poi_info. cbn [pi_icon pi_name pi_category].
    rewrite Hc, Hg. unfold category_type. cbn [mbind option_bind]. rewrite Hty.
    cbn [fmap option_fmap option_map].
    rewrite !or_string_nonempty by assumption.
    unfold icon_text. destruct (String.eqb_spec (pt_icon ty) ""); [contradiction|reflexivity].
Qed.

Lemma itinerary_names_place_by_glyph_witness :
  positive_draw (1 # 2) ∧ valid_catalog four_levels = true ∧
  ∃ info, itinerary_pois (snd (createPOIMarker red_fort "cafe" (1 # 2) four_levels))
            = itinerary_pois four_levels ++ [info] ∧
          poi_place info = {| pl_icon := "☕"; pl_name := "☕"; pl_type := "Cafe" |}.
Proof.
  assert (positive_draw (1 # 2)) as Hr by (split; reflexivity).
  split; [exact Hr|]. split; [reflexivity|].
  apply (itinerary_names_place_by_glyph red_fort "cafe" (1 # 2) four_levels _ eq_refl Hr eq_refl).
Defined.

Lemma poi_place_type (p : PoiInfo) : pl_type (poi_place p) ≠ "Final Destination".
Proof.
  unfold poi_place. cbn [pl_type].
  destruct (category_type (pi_category p)) as [ty|] eqn:Hty; cbn; [|discriminate].
  assert (pt_name ty ≠ "" ∧ pt_name ty ≠ "Final Destination") as [Hne Hfd].
  { unfold category_type in Hty. destruct (pi_category p) as [c|]; [|discriminate].
    cbn in Hty. destruct (POI_TYPES_entries c ty Hty) as (_ & H1 & H2). auto. }
  destruct (String.eqb_spec (pt_name ty) ""); [contradiction|exact Hfd].
Qed.

Lemma start_place_type (stops : list Stop) (pl : Place) :
  pl ∈ start_place stops → pl_type pl = "Starting Point".
Proof.
  unfold start_place. destruct (stops !! 0%nat); intros Hin.
  - apply list_elem_of_singleton in Hin as ->. reflexivity.
  - apply elem_of_nil in Hin. contradiction.
Qed.

(** X21. With two stops or more and [tripDays >= 1], the itinerary has an
    entry "Final Destination" exactly when the places fill all the
    [tripDays] days, that is when there are as many chunks of [poisPerDay]
    places as days. *)
Theorem destination_written_iff (st : State) :
  1 <= trip_days st → (1 < length (route_stops st))%nat →
  (∃ day places pl, (day, places) ∈ itinerary_days (itinerary_html st) ∧
                    pl ∈ places ∧ pl_type pl = "Final Destination")
  ↔ Z.of_nat (length (contiguous_chunks
                        (Z.to_nat (Math_ceil
                                     (inject_Z (Z.of_nat (length (itinerary_pois st)))
                                      / inject_Z (trip_days st))))
                        (itinerary_pois st))) = trip_days st.
Proof.
  intros Hd Hstops. destruct (itinerary_days_chunks st Hd) as [Hdays Hfuel].
  set (chunks := contiguous_chunks _ (itinerary_pois st)) in *.
  assert (Z.of_nat (length chunks) <= trip_days st) as Hmost.
  { rewrite Hfuel.
    pose proof (chunks_fuel_length (Z.to_nat (trip_days st))
                  (Z.to_nat (Math_ceil (inject_Z (Z.of_nat (length (itinerary_pois st)))
                                        / inject_Z (trip_days st))))
                  (itinerary_pois st)). lia. }
  split.
  - intros (day & places & pl & Hin & Hpl & Htype).
    destruct (Z.eq_dec (Z.of_nat (length chunks)) (trip_days st)) as [Heq|Hne]; [exact Heq|].
    exfalso.
    destruct (plan_fewer_days_no_destination st day places Hd ltac:(fold chunks; lia) Hin)
      as [chunk ->].
    apply elem_of_app in Hpl as [Hpl|Hpl].
    + destruct ((day =? 1) && (0 <? length (route_stops st))%nat).
      * apply start_place_type in Hpl. congruence.
      * apply elem_of_nil in Hpl. contradiction.
    + apply list_elem_of_In, in_map_iff in Hpl as (p & <- & _).
      apply (poi_place_type p Htype).
  - intros Hfull.
    destruct (lookup_lt_is_Some_2 chunks (Z.to_nat (trip_days st) - 1)) as [chunk Hchunk];
      [lia|].
    destruct (lookup_lt_is_Some_2 (route_stops st) (length (route_stops st) - 1))
      as [s Hs]; [lia|].
    exists (trip_days st),
      (day_places (route_stops st) (trip_days st) (trip_days st) chunk),
      {| pl_icon := "🔴"; pl_name := or_string (Some (name s)) "Destination";
         pl_type := "Final Destination" |}.
    split; [|split; [|reflexivity]].
    + rewrite Hdays. apply list_elem_of_lookup. exists (Z.to_nat (trip_days st) - 1)%nat.
      rewrite list_lookup_imap, Hchunk. simpl.
      replace (Z.of_nat (Z.to_nat (trip_days st) - 1) + 1) with (trip_days st) by lia.
      reflexivity.
    + unfold day_places. rewrite Z.eqb_refl.
      destruct (Nat.ltb_spec 1 (length (route_stops st))); [|lia]. simpl.
      rewrite !elem_of_app. right. right. unfold end_place. rewrite Hs. left.
Qed.

Lemma destination_written_iff_witness :
  1 <= trip_days delhi_agra_four_places ∧
  (1 < length (route_stops delhi_agra_four_places))%nat ∧
  ¬ ∃ day places pl,
      (day, places) ∈ itinerary_days (itinerary_html delhi_agra_four_places) ∧
      pl ∈ places ∧ pl_type pl = "Final Destination".
Proof.
  assert (1 <= trip_days delhi_agra_four_places) as Hd by (vm_compute; discriminate).
  assert (1 < length (route_stops delhi_agra_four_places))%nat as Hs by (vm_compute; lia).
  split; [exact Hd|]. split; [exact Hs|].
  intros Hex. apply (destination_written_iff delhi_agra_four_places Hd Hs) in Hex.
  vm_compute in Hex. discriminate Hex.
Defined.

(** X22. With [tripDays >= 1], a catalog that is not empty and a route that
    has a stop, the first day of the itinerary is the day 1 and begins with
    the entry "Starting Point" of the first stop, named after the stop or
    "Start" when the stop has no name. *)
Theorem itinerary_first_day (st : State) (s : Stop) :
  1 <= trip_days st → itinerary_pois st ≠ [] → route_stops st !! 0%nat = Some s →
  ∃ places rest,
    itinerary_days (itinerary_html st) =
      (1, {| pl_icon := "🟢"; pl_name := or_string (Some (name s)) "Start";
             pl_type := "Starting Point" |} :: places) :: rest.
Proof.
  intros Hd Hpois Hs.
  destruct (plan_first_day_starts_at_origin st Hd Hpois) as (places & rest & Hdays).
  { intros Hnil. rewrite Hnil in Hs. discriminate. }
  exists places, rest. rewrite Hdays. unfold start_place. rewrite Hs. reflexivity.
Qed.

Lemma itinerary_first_day_witness :
  1 <= trip_days delhi_agra_four_places ∧
  itinerary_pois delhi_agra_four_places ≠ [] ∧
  ∃ places rest,
    itinerary_days (itinerary_html delhi_agra_four_places) =
      (1, {| pl_icon := "🟢"; pl_name := "Delhi"; pl_type := "Starting Point" |} :: places)
      :: rest.
Proof.
  assert (1 <= trip_days delhi_agra_four_places) as Hd by (vm_compute; discriminate).
  assert (itinerary_pois delhi_agra_four_places ≠ []) as Hp by (vm_compute; discriminate).
  split; [exact Hd|]. split; [exact Hp|].
  apply (itinerary_first_day delhi_agra_four_places
           {| lat := 28.6139%R; lon := 77.2090%R; name := "Delhi"; marker := 0%nat |} Hd Hp).
  reflexivity.
Defined.

(** * The page around the route *)

(** ** Names of places *)

Lemma first_segment_split (s : string) :
  ∃ rest, s = first_segment s +:+ rest ∧ (rest = "" ∨ ∃ r, rest = String comma r).
Proof.
  induction s as [|c s IH]; simpl.
  - exists "". auto.
  - destruct (Ascii.eqb_spec c comma) as [->|Hne].
    + exists (String comma s). split; [reflexivity|]. right. eauto.
    + destruct IH as (rest & Hs & Hrest). exists rest. split; [|exact Hrest].
      change (String c s = String c (first_segment s +:+ rest)). f_equal. exact Hs.
Qed.

Lemma first_segment_no_comma (s : string) :
  ¬ In comma (String.list_ascii_of_string (first_segment s)).
Proof.
  induction s as [|c s IH]; simpl; [tauto|].
  destruct (Ascii.eqb_spec c comma) as [->|Hne]; simpl; [tauto|].
  intros [Heq|Hin]; [congruence|tauto].
Qed.

(** X23. The name that [reverseGeocode] gives is never empty and holds no
    comma. When the answer has a [display_name] whose text before the first
    comma is not empty, the name is that text: [display_name] is the name,
    followed by nothing or by a comma and the rest. In every other case
    (failed request, no [display_name], nothing before the first comma) the
    name is "Unknown location". *)
Theorem reverseGeocode_name (answer : option (option string)) :
  reverseGeocode answer ≠ "" ∧
  ¬ In comma (String.list_ascii_of_string (reverseGeocode answer)) ∧
  (∀ display_name, answer = Some (Some display_name) →
     first_segment display_name ≠ "" →
     ∃ rest, display_name = reverseGeocode answer +:+ rest ∧
             (rest = "" ∨ ∃ r, rest = String comma r)) ∧
  (∀ display_name, answer = Some (Some display_name) →
     first_segment display_name = "" → reverseGeocode answer = "Unknown location") ∧
  (answer = None ∨ answer = Some None → reverseGeocode answer = "Unknown location").
Proof.
  assert (¬ In comma (String.list_ascii_of_string "Unknown location")) as Hunknown.
  { vm_compute. intros H. repeat (destruct H as [H|H]; [discriminate H|]). exact H. }
  split; [|split; [|split; [|split]]].
  - destruct answer as [[d|]|]; simpl; try discriminate.
    unfold or_string. destruct (String.eqb_spec (first_segment d) ""); [discriminate|assumption].
  - destruct answer as [[d|]|]; simpl; try exact Hunknown.
    unfold or_string. destruct (String.eqb_spec (first_segment d) ""); [exact Hunknown|].
    apply first_segment_no_comma.
  - intros d -> Hne. simpl. unfold or_string.
    destruct (String.eqb_spec (first_segment d) ""); [contradiction|].
    apply first_segment_split.
  - intros d -> He. simpl. unfold or_string. rewrite He. reflexivity.
  - intros [-> | ->]; reflexivity.
Qed.

Lemma addStop_route_stops lat0 lon0 name0 type st :
  route_stops (snd (addStop lat0 lon0 name0 type st)) =
  route_stops st ++ [ {| lat := lat0; lon := lon0; name := name0;
                         marker := length (stop_markers st) |} ].
Proof. unfold addStop. cbn [snd]. rewrite updateRoute_route_stops. reflexivity. Qed.

Lemma addStop_returns lat0 lon0 name0 type st :
  fst (addStop lat0 lon0 name0 type st) = ReturnsUndefined.
Proof. reflexivity. Qed.

Lemma updateStop_returns index lat0 lon0 name0 st :
  fst (updateStop index lat0 lon0 name0 st) = ReturnsUndefined.
Proof. unfold updateStop. destruct (array_get (route_stops st) index); reflexivity. Qed.

Lemma updateStop_route_stops_nat (i : nat) lat0 lon0 name0 st stop :
  route_stops st !! i = Some stop →
  route_stops (snd (updateStop (inject_Z (Z.of_nat i)) lat0 lon0 name0 st)) =
  <[i := {| lat := lat0; lon := lon0; name := name0; marker := marker stop |}]> (route_stops st).
Proof.
  intros Hstop. unfold updateStop. rewrite array_get_nat, Hstop. cbn [snd].
  rewrite updateRoute_route_stops.
  cbn [route_stops updateStopsList with_dom_stops_list with_route_stops with_stop_markers].
  rewrite Qfloor_Z, Nat2Z.id. reflexivity.
Qed.

(** X24. A click on the map in the mode for adding a stop asks for the name
    of the position of the click, leaves the stops as they are and leaves the
    mode: a further click asks for nothing and changes nothing. When the
    answer arrives, one stop is added at the end of the route, at the
    position of the click and with the name that [reverseGeocode] gives, and
    the route stays coherent. *)
Theorem map_click_adds_one_stop (lat0 lng : R) (pg : Page) :
  isAddingStop (add_stop pg) = true →
  let pg1 := snd (handleMapClick lat0 lng pg) in
  fst (handleMapClick lat0 lng pg) = Some (lat0, lng) ∧
  state pg1 = state pg ∧
  isAddingStop (add_stop pg1) = false ∧
  (∀ lat1 lng1, handleMapClick lat1 lng1 pg1 = (None, pg1)) ∧
  (∀ answer pg2,
     let res := handleMapClick_then (lat0, lng) answer pg2 in
     fst res = ReturnsUndefined ∧
     route_stops (state (snd res)) =
       route_stops (state pg2) ++
       [ {| lat := lat0; lon := lng; name := reverseGeocode answer;
            marker := length (stop_markers (state pg2)) |} ] ∧
     (route_inv (state pg2) → route_inv (state (snd res)))).
Proof.
  intros Hmode. unfold handleMapClick. rewrite Hmode. cbn [fst snd].
  split; [reflexivity|]. split; [reflexivity|]. split; [reflexivity|]. split.
  - intros lat1 lng1. reflexivity.
  - intros answer pg2. unfold handleMapClick_then, addStop_default.
    cbn [fst snd state with_state].
    split; [reflexivity|]. split; [apply addStop_route_stops|].
    apply route_inv_addStop.
Qed.

(** ** Selection of the origin and of the destination *)

Lemma route_inv_with_currentDestination d st :
  route_inv st → route_inv (with_currentDestination d st).
Proof. intros [H1 H2 H3 H4 H5 H6]. split; assumption. Qed.

Lemma selectLocation_origin result pg :
  selectLocation result "origin" pg =
  let r := if (length (route_stops (state pg)) =? 0)%nat
           then addStop (gr_lat result) (gr_lon result)
                        (first_segment (gr_display_name result)) "start" (state pg)
           else updateStop 0 (gr_lat result) (gr_lon result)
                           (first_segment (gr_display_name result)) (state pg) in
  (fst r,
   with_state (snd r)
     (with_currentOrigin (Some (point_of_result result))
        (with_origin_search
           {| sb_value := first_segment (gr_display_name result);
              sb_results_shown := false |} pg))).
Proof. reflexivity. Qed.

Lemma selectLocation_destination result type pg :
  String.eqb type "origin" = false →
  selectLocation result type pg =
  let st := with_currentDestination (Some (point_of_result result)) (state pg) in
  let r := if (length (route_stops st) =? 0)%nat
           then addStop (gr_lat result) (gr_lon result)
                        (first_segment (gr_display_name result)) "start" st
           else if (length (route_stops st) =? 1)%nat
           then addStop (gr_lat result) (gr_lon result)
                        (first_segment (gr_display_name result)) "end" st
           else updateStop (inject_Z (Z.of_nat (length (route_stops st)) - 1))
                           (gr_lat result) (gr_lon result)
                           (first_segment (gr_display_name result)) st in
  (fst r,
   with_state (snd r)
     (with_destination_search
        {| sb_value := first_segment (gr_display_name result);
           sb_results_shown := false |} pg)).
Proof. intros Htype. unfold selectLocation, hideSearchResults. rewrite Htype. reflexivity. Qed.

(** X25. [selectLocation] returns normally and puts the selected place in
    the route: as the first stop for an origin, as the last stop for a
    destination, with the coordinates of the result and the text of
    [display_name] before the first comma as its name. Every other position
    of the route is as before. The route gets one stop longer only when it
    was empty, or when a destination is selected on a route of one stop. The
    search input shows the name and its results are hidden. A coherent route
    stays coherent. *)
Theorem selectLocation_places_selection (result : GeocodeResult) (type : string) (pg : Page) :
  let res := selectLocation result type pg in
  let stops := route_stops (state pg) in
  let stops' := route_stops (state (snd res)) in
  let k := if String.eqb type "origin" then 0%nat else (length stops' - 1)%nat in
  fst res = ReturnsUndefined ∧
  (∃ m, stops' !! k = Some (stop_of_result result m)) ∧
  (∀ j, j ≠ k → stops' !! j = stops !! j) ∧
  length stops' = (if String.eqb type "origin" then Nat.max 1 (length stops)
                   else if (length stops <=? 1)%nat then S (length stops)
                   else length stops) ∧
  (if String.eqb type "origin" then origin_search (snd res) else destination_search (snd res))
    = {| sb_value := first_segment (gr_display_name result); sb_results_shown := false |} ∧
  (route_inv (state pg) → route_inv (state (snd res))).
Proof.
  destruct (String.eqb type "origin") eqn:Htype.
  - apply String.eqb_eq in Htype. subst type. rewrite selectLocation_origin.
    cbv zeta. cbn [fst snd state with_state origin_search with_currentOrigin with_origin_search].
    destruct (route_stops (state pg)) as [|s0 stops] eqn:Hstops.
    + cbn [length Nat.eqb]. rewrite addStop_route_stops, Hstops.
      split; [reflexivity|]. split; [eexists; reflexivity|].
      split; [intros [|j] Hj; [contradiction|reflexivity]|].
      split; [reflexivity|]. split; [reflexivity|]. apply route_inv_addStop.
    + cbn [length Nat.eqb].
      change (0%Q) with (inject_Z (Z.of_nat 0)).
      rewrite (updateStop_route_stops_nat 0 _ _ _ _ s0) by (rewrite Hstops; reflexivity).
      rewrite Hstops. split; [apply updateStop_returns|].
      split; [eexists; reflexivity|].
      split; [intros [|j] Hj; [contradiction|reflexivity]|].
      split; [cbn; lia|]. split; [reflexivity|]. apply route_inv_updateStop.
  - rewrite (selectLocation_destination _ _ _ Htype).
    cbv zeta. cbn [fst snd state with_state destination_search with_destination_search].
    cbn [route_stops with_currentDestination].
    destruct (route_stops (state pg)) as [|s0 [|s1 stops]] eqn:Hstops.
    + cbn [length Nat.eqb]. rewrite addStop_route_stops.
      cbn [route_stops with_currentDestination stop_markers]. rewrite Hstops.
      split; [reflexivity|]. split; [eexists; reflexivity|].
      split; [intros [|j] Hj; [contradiction|reflexivity]|].
      split; [reflexivity|]. split; [reflexivity|].
      intros Hinv. apply route_inv_addStop, route_inv_with_currentDestination, Hinv.
    + cbn [length Nat.eqb]. rewrite addStop_route_stops.
      cbn [route_stops with_currentDestination stop_markers]. rewrite Hstops.
      split; [reflexivity|]. split; [eexists; reflexivity|].
      split; [intros [|[|j]] Hj; [reflexivity|contradiction|reflexivity]|].
      split; [reflexivity|]. split; [reflexivity|].
      intros Hinv. apply route_inv_addStop, route_inv_with_currentDestination, Hinv.
    + cbn [length Nat.eqb].
      replace (Z.of_nat (S (S (length stops))) - 1) with (Z.of_nat (S (length stops))) by lia.
      destruct (lookup_lt_is_Some_2 (s0 :: s1 :: stops) (S (length stops))) as [sl Hsl];
        [simpl; lia|].
      rewrite (updateStop_route_stops_nat (S (length stops)) _ _ _ _ sl)
        by (cbn [route_stops with_currentDestination]; rewrite Hstops; exact Hsl).
      cbn [route_stops with_currentDestination]. rewrite Hstops.
      rewrite length_insert. cbn [length].
      replace (S (S (length stops)) - 1)%nat with (S (length stops)) by lia.
      split; [apply updateStop_returns|].
      split; [eexists; apply list_lookup_insert_eq; simpl; lia|].
      split; [intros j Hj; apply list_lookup_insert_ne; lia|].
      split; [reflexivity|]. split; [reflexivity|].
      intros Hinv. apply route_inv_updateStop, route_inv_with_currentDestination, Hinv.
Qed.

Lemma addStop_stop_markers_length lat0 lon0 name0 type st :
  length (stop_markers (snd (addStop lat0 lon0 name0 type st))) = S (length (stop_markers st)).
Proof.
  unfold addStop. cbn [snd]. rewrite updateRoute_stop_markers. cbn.
  rewrite length_app. simpl. lia.
Qed.

Lemma addStop_currentDestination lat0 lon0 name0 type st :
  currentDestination (snd (addStop lat0 lon0 name0 type st)) = currentDestination st.
Proof. unfold addStop, updateRoute. cbn [snd]. repeat case_match; reflexivity. Qed.

Lemma updateStop_currentDestination index lat0 lon0 name0 st :
  currentDestination (snd (updateStop index lat0 lon0 name0 st)) = currentDestination st.
Proof.
  unfold updateStop. destruct (array_get (route_stops st) index); [|reflexivity].
  unfold updateRoute. cbn [snd]. repeat case_match; reflexivity.
Qed.

(** X26. On an empty route, selecting the origin and then the destination
    gives the route origin, destination. Selecting the destination first and
    the origin after it leaves a route of one stop, the origin: the stop of
    the destination is overwritten, although [state.currentDestination]
    still holds the destination, and [explorePlaces] would search around the
    origin only. *)
Theorem selection_order_matters (orig dest : GeocodeResult) (pg : Page) :
  route_stops (state pg) = [] →
  let m := length (stop_markers (state pg)) in
  let origin_first :=
    snd (selectLocation dest "destination" (snd (selectLocation orig "origin" pg))) in
  let destination_first :=
    snd (selectLocation orig "origin" (snd (selectLocation dest "destination" pg))) in
  route_stops (state origin_first) = [stop_of_result orig m; stop_of_result dest (S m)] ∧
  route_stops (state destination_first) = [stop_of_result orig m] ∧
  currentDestination (state destination_first) = Some (point_of_result dest) ∧
  explorePlaces_searchPoints (state destination_first) = [point_of_result orig].
Proof.
  intros Hempty m origin_first destination_first.
  assert (route_stops (state destination_first) = [stop_of_result orig m]) as Hdf.
  { subst destination_first. rewrite selectLocation_origin.
    rewrite (selectLocation_destination dest "destination" pg) by reflexivity.
    cbv zeta. cbn [fst snd state with_state with_currentOrigin with_origin_search
                   with_destination_search route_stops with_currentDestination].
    rewrite Hempty. cbn [length Nat.eqb]. rewrite addStop_route_stops.
    cbn [route_stops with_currentDestination]. rewrite Hempty. cbn [app length Nat.eqb].
    change (0%Q) with (inject_Z (Z.of_nat 0)).
    erewrite updateStop_route_stops_nat
      by (rewrite addStop_route_stops; cbn [route_stops with_currentDestination];
          rewrite Hempty; reflexivity).
    rewrite addStop_route_stops. cbn [route_stops with_currentDestination].
    rewrite Hempty. reflexivity. }
  split; [|split; [exact Hdf|split]].
  - subst origin_first.
    rewrite (selectLocation_destination dest "destination" _) by reflexivity.
    rewrite selectLocation_origin.
    cbv zeta. cbn [fst snd state with_state with_currentOrigin with_origin_search
                   with_destination_search route_stops with_currentDestination].
    rewrite Hempty. cbn [length Nat.eqb]. rewrite addStop_route_stops.
    rewrite Hempty. cbn [app length Nat.eqb].
    rewrite addStop_route_stops. cbn [route_stops with_currentDestination stop_markers].
    rewrite addStop_route_stops, addStop_stop_markers_length, Hempty. reflexivity.
  - subst destination_first. rewrite selectLocation_origin.
    rewrite (selectLocation_destination dest "destination" pg) by reflexivity.
    cbv zeta. cbn [fst snd state with_state with_currentOrigin with_origin_search
                   with_destination_search route_stops with_currentDestination].
    rewrite Hempty. cbn [length Nat.eqb]. rewrite addStop_route_stops.
    cbn [route_stops with_currentDestination]. rewrite Hempty. cbn [app length Nat.eqb].
    rewrite updateStop_currentDestination, addStop_currentDestination. reflexivity.
  - unfold explorePlaces_searchPoints, routeSearchPoints. rewrite Hdf. reflexivity.
Qed.

Lemma selection_order_matters_witness :
  route_stops (state initial_page) = [] ∧
  route_stops (state (snd (selectLocation india_gate "origin"
                             (snd (selectLocation taj_mahal "destination" initial_page)))))
    = [stop_of_result india_gate 0].
Proof.
  split; [reflexivity|].
  exact (proj1 (proj2 (selection_order_matters india_gate taj_mahal initial_page eq_refl))).
Defined.

(** ** Selected categories *)

Lemma Set_has_true x s : Set_has x s = true ↔ x ∈ s.
Proof. unfold Set_has. apply bool_decide_eq_true. Qed.

Lemma Set_has_add c x s :
  Set_has x (Set_add c s) = bool_decide (x = c) || Set_has x s.
Proof.
  unfold Set_add. destruct (Set_has c s) eqn:Hc.
  - case_bool_decide as Hx; [subst x; rewrite Hc|]; reflexivity.
  - unfold Set_has. apply eq_true_iff_eq.
    rewrite orb_true_iff, !bool_decide_eq_true, elem_of_app, list_elem_of_singleton. tauto.
Qed.

Lemma Set_has_delete c x s :
  Set_has x (Set_delete c s) = negb (bool_decide (x = c)) && Set_has x s.
Proof.
  unfold Set_has, Set_delete. apply eq_true_iff_eq.
  rewrite andb_true_iff, negb_true_iff, !bool_decide_eq_true, bool_decide_eq_false.
  rewrite list_elem_of_filter. tauto.
Qed.

Lemma NoDup_Set_add c s : NoDup s → NoDup (Set_add c s).
Proof.
  intros Hnd. unfold Set_add. destruct (Set_has c s) eqn:Hc; [exact Hnd|].
  apply NoDup_app. split; [exact Hnd|]. split; [|apply NoDup_singleton].
  intros x Hx Hx'. apply list_elem_of_singleton in Hx'. subst x.
  apply Set_has_true in Hx. congruence.
Qed.

Lemma NoDup_Set_delete c s : NoDup s → NoDup (Set_delete c s).
Proof. apply NoDup_filter. Qed.

Lemma toggleCategory_Some i pg e :
  poi_categories pg !! i = Some e →
  poi_categories (toggleCategory i pg)
    = <[i := {| ci_category := ci_category e; ci_checked := negb (ci_checked e);
                ci_active := negb (ci_checked e) |}]> (poi_categories pg) ∧
  (∀ c, Set_has c (selectedCategories (toggleCategory i pg))
        = if bool_decide (c = ci_category e) then negb (ci_checked e)
          else Set_has c (selectedCategories pg)) ∧
  (NoDup (selectedCategories pg) → NoDup (selectedCategories (toggleCategory i pg))) ∧
  state (toggleCategory i pg) = state pg.
Proof.
  intros He. unfold toggleCategory. rewrite He.
  destruct (ci_checked e); cbn [negb]; cbv zeta;
    cbn [poi_categories selectedCategories state with_selectedCategories with_poi_categories].
  - split; [reflexivity|]. split; [|split; [apply NoDup_Set_delete|reflexivity]].
    intros c. rewrite Set_has_delete. case_bool_decide; reflexivity.
  - split; [reflexivity|]. split; [|split; [apply NoDup_Set_add|reflexivity]].
    intros c. rewrite Set_has_add. case_bool_decide; reflexivity.
Qed.

(** X27. When no two categories of the side panel have the same name and
    every checkbox says whether its category is selected, a click on a
    category keeps it so: the clicked category changes side (selected to
    unselected or back), no other category changes, the selected categories
    stay without duplicate and the route and the places are untouched. *)
Theorem toggleCategory_keeps_sidebar_in_sync (i : nat) (pg : Page) :
  NoDup (ci_category <$> poi_categories pg) →
  sidebar_in_sync pg →
  let pg' := toggleCategory i pg in
  sidebar_in_sync pg' ∧
  (NoDup (selectedCategories pg) → NoDup (selectedCategories pg')) ∧
  (∀ element, poi_categories pg !! i = Some element →
     Set_has (ci_category element) (selectedCategories pg')
       = negb (Set_has (ci_category element) (selectedCategories pg)) ∧
     ∀ c, c ≠ ci_category element →
          Set_has c (selectedCategories pg') = Set_has c (selectedCategories pg)) ∧
  (poi_categories pg !! i = None → pg' = pg) ∧
  state pg' = state pg.
Proof.
  intros Hnd Hsync pg'. subst pg'.
  destruct (poi_categories pg !! i) as [e|] eqn:He.
  2:{ unfold toggleCategory. rewrite He.
      split; [exact Hsync|]. split; [auto|]. split; [discriminate|]. split; reflexivity. }
  destruct (toggleCategory_Some i pg e He) as (Hcats & Hhas & Hsel & Hstate).
  assert (e ∈ poi_categories pg) as Hin by (eapply list_elem_of_lookup_2; exact He).
  destruct (Hsync e Hin) as [Hchecked Hactive].
  split; [|split; [exact Hsel|split; [|split; [discriminate|exact Hstate]]]].
  - intros el Hel. rewrite Hhas. rewrite Hcats in Hel.
    apply list_elem_of_lookup in Hel as [j Hj].
    destruct (decide (i = j)) as [<-|Hne].
    + rewrite list_lookup_insert_eq in Hj by (eapply lookup_lt_Some; exact He).
      injection Hj as <-. cbn [ci_category ci_checked ci_active].
      rewrite bool_decide_eq_true_2 by reflexivity. auto.
    + rewrite list_lookup_insert_ne in Hj by exact Hne.
      assert (ci_category el ≠ ci_category e) as Hcat.
      { intros Heq. apply Hne. eapply NoDup_lookup; [exact Hnd| |].
        - rewrite list_lookup_fmap, He. reflexivity.
        - rewrite list_lookup_fmap, Hj. simpl. f_equal. exact Heq. }
      rewrite bool_decide_eq_false_2 by exact Hcat.
      apply Hsync. eapply list_elem_of_lookup_2. exact Hj.
  - intros el [= <-]. split.
    + rewrite Hhas, bool_decide_eq_true_2 by reflexivity. rewrite Hchecked. reflexivity.
    + intros c Hc. rewrite Hhas, bool_decide_eq_false_2 by exact Hc. reflexivity.
Qed.

Lemma toggleCategory_keeps_sidebar_in_sync_witness :
  NoDup (ci_category <$> poi_categories initial_page) ∧
  sidebar_in_sync initial_page ∧
  sidebar_in_sync (toggleCategory 2 initial_page) ∧
  selectedCategories (toggleCategory 2 initial_page) = ["food"; "cafe"; "landmark"; "shop"].
Proof.
  assert (NoDup (ci_category <$> poi_categories initial_page)) as Hnd
    by (apply (bool_decide_unpack _); vm_compute; exact I).
  assert (sidebar_in_sync initial_page) as Hsync.
  { unfold sidebar_in_sync. apply Forall_forall. repeat constructor. }
  split; [exact Hnd|]. split; [exact Hsync|]. split; [|reflexivity].
  exact (proj1 (toggleCategory_keeps_sidebar_in_sync 2 initial_page Hnd Hsync)).
Defined.

Lemma map_click_adds_one_stop_witness :
  isAddingStop (add_stop (enableAddStopMode initial_page)) = true ∧
  fst (handleMapClick 27.1767 78.0081 (enableAddStopMode initial_page))
    = Some (27.1767%R, 78.0081%R) ∧
  isAddingStop (add_stop (snd (handleMapClick 27.1767 78.0081 (enableAddStopMode initial_page))))
    = false.
Proof.
  split; [reflexivity|].
  pose proof (map_click_adds_one_stop 27.1767 78.0081 (enableAddStopMode initial_page) eq_refl)
    as (Hrequest & _ & Hmode & _).
  split; [exact Hrequest|exact Hmode].
Defined.

(** ** A run of [explorePlaces] *)

(** What every call of [createPOIMarker] keeps, every answered request
    keeps. *)
Section Preserved.
Variable P : State → Prop.
Hypothesis createPOIMarker_keeps :
  ∀ poi category r st, P st → P (snd (createPOIMarker poi category r st)).

Lemma create_markers_keeps category elements : ∀ st,
  P st → P (snd (create_markers category elements st)).
Proof.
  induction elements as [|[poi r] rest IH]; intros st HP; [exact HP|].
  cbn [create_markers].
  pose proof (createPOIMarker_keeps poi category r st HP) as Hone.
  destruct (createPOIMarker poi category r st) as [[|e] st1]; cbn [snd] in Hone |- *.
  - apply IH, Hone.
  - exact Hone.
Qed.

Lemma fetchPOIs_keeps category response st :
  P st → P (snd (fetchPOIs category response st)).
Proof.
  intros HP. unfold fetchPOIs.
  destruct (POI_TYPES category); [destruct response|]; cbn [snd]; try exact HP.
  apply create_markers_keeps, HP.
Qed.

Lemma fetch_all_keeps answers : ∀ st, P st → P (fetch_all answers st).
Proof.
  induction answers as [|a answers IH]; intros st HP; [exact HP|].
  apply IH, fetchPOIs_keeps, HP.
Qed.
End Preserved.

Lemma createPOIMarker_same_route st0 poi category r st :
  same_route st0 st → same_route st0 (snd (createPOIMarker poi category r st)).
Proof.
  unfold same_route, createPOIMarker. intros H.
  destruct (POI_TYPES category) as [ty|]; [|exact H].
  cbv zeta. destruct (BUDGET_LEVELS (Math_ceil (r * 4))); exact H.
Qed.

Lemma createPOIMarker_store_prefix st0 poi category r st :
  poi_markers st0 `prefix_of` poi_markers st →
  poi_markers st0 `prefix_of` poi_markers (snd (createPOIMarker poi category r st)).
Proof.
  intros Hpre. etransitivity; [exact Hpre|].
  apply (createPOIMarker_grows poi category r st).
Qed.

Lemma createPOIMarker_fresh base poi category r st :
  fresh_catalog base st ∧ (base <= length (poi_markers st))%nat →
  fresh_catalog base (snd (createPOIMarker poi category r st)) ∧
  (base <= length (poi_markers (snd (createPOIMarker poi category r st))))%nat.
Proof.
  intros [Hfresh Hbase]. unfold fresh_catalog in *. unfold createPOIMarker.
  destruct (POI_TYPES category) as [ty|]; [|split; assumption].
  cbv zeta. destruct (BUDGET_LEVELS (Math_ceil (r * 4))) as [info|]; cbn [snd].
  - cbn [markers_pois poi_markers with_markers_pois with_poi_markers].
    split; [|rewrite length_alter, length_app; lia].
    intros k Hk. apply elem_of_app in Hk as [Hk|Hk].
    + destruct (Hfresh k Hk) as (Hge & mk & Hmk & Hon). split; [exact Hge|].
      exists mk. split; [|exact Hon].
      pose proof (lookup_lt_Some _ _ _ Hmk) as Hlt.
      rewrite list_lookup_alter_ne by lia. rewrite lookup_app_l by exact Hlt. exact Hmk.
    + apply list_elem_of_singleton in Hk. subst k. split; [exact Hbase|].
      eexists. split.
      { rewrite list_lookup_alter_eq, lookup_app_r, Nat.sub_diag by lia. reflexivity. }
      reflexivity.
  - cbn [markers_pois poi_markers with_poi_markers].
    split; [|rewrite length_app; lia].
    intros k Hk. destruct (Hfresh k Hk) as (Hge & mk & Hmk & Hon). split; [exact Hge|].
    exists mk. split; [|exact Hon].
    rewrite lookup_app_l by (eapply lookup_lt_Some; exact Hmk). exact Hmk.
Qed.

Lemma createPOIMarker_count poi category r st :
  (length (markers_pois (snd (createPOIMarker poi category r st)))
   <= S (length (markers_pois st)))%nat.
Proof. apply (createPOIMarker_grows poi category r st). Qed.

Lemma fetchPOIs_count category response st :
  (length (markers_pois (snd (fetchPOIs category response st)))
   <= length (markers_pois st) + length (default [] response))%nat.
Proof.
  unfold fetchPOIs.
  destruct (POI_TYPES category); [destruct response as [elements|]|]; cbn [snd default];
    try lia.
  apply (create_markers_grows category elements st).
Qed.

Lemma fetch_all_count answers : ∀ st,
  (length (markers_pois (fetch_all answers st))
   <= length (markers_pois st) + answered_elements answers)%nat.
Proof.
  induction answers as [|a answers IH]; intros st; [simpl; lia|].
  unfold answered_elements. cbn [sum_list_with].
  change (fetch_all (a :: answers) st)
    with (fetch_all answers (snd (fetchPOIs (an_category a) (an_response a) st))).
  etransitivity; [apply IH|].
  pose proof (fetchPOIs_count (an_category a) (an_response a) st).
  unfold answered_elements. lia.
Qed.

Lemma filterPOIsByBudget_lookup st r :
  poi_markers (filterPOIsByBudget st) !! r =
  if bool_decide (r ∈ markers_pois st)
  then budget_opacity (trip_budget st) <$> poi_markers st !! r else poi_markers st !! r.
Proof. unfold filterPOIsByBudget. simpl. apply budget_fold_lookup. Qed.

Lemma explorePlaces_guard (pg : Page) :
  route_stops (state pg) ≠ [] ∨ is_Some (currentDestination (state pg)) →
  (length (route_stops (state pg)) =? 0)%nat
  && negb (bool_decide (is_Some (currentDestination (state pg)))) = false.
Proof.
  intros [Hstops|Hdest].
  - destruct (route_stops (state pg)); [contradiction|reflexivity].
  - rewrite (bool_decide_eq_true_2 _ Hdest). apply andb_false_r.
Qed.

(** The state at the end of a run that passed the guard. *)
Lemma explorePlaces_state answers pg :
  route_stops (state pg) ≠ [] ∨ is_Some (currentDestination (state pg)) →
  fst (explorePlaces answers pg) = ReturnsUndefined ∧
  state (snd (explorePlaces answers pg)) =
  snd (generateItinerary
         (filterPOIsByBudget (fetch_all answers (clearPOIMarkers (state pg))))).
Proof.
  intros Hguard. unfold explorePlaces. rewrite (explorePlaces_guard pg Hguard).
  cbv zeta. cbn [fst snd state with_state with_explore_btn syncWidgetWithSidebar
                 with_widget_checkboxes].
  destruct (length (markers_pois (fetch_all answers (clearPOIMarkers (state pg)))) =? 0)%nat;
    cbn [state with_state alert with_alerts with_poi_filter_widget_shown with_layers];
    (split; [|reflexivity]);
    unfold generateItinerary; case_match; reflexivity.
Qed.

Lemma generateItinerary_poi st :
  poi_markers (snd (generateItinerary st)) = poi_markers st ∧
  markers_pois (snd (generateItinerary st)) = markers_pois st ∧
  same_route st (snd (generateItinerary st)).
Proof.
  unfold generateItinerary, same_route. destruct (dom_itinerary st); cbn; tauto.
Qed.


Lemma clearPOIMarkers_store_length st :
  length (poi_markers (clearPOIMarkers st)) = length (poi_markers st).
Proof. unfold clearPOIMarkers. simpl. apply fold_alter_length. Qed.



Lemma same_route_refl st : same_route st st.
Proof. unfold same_route. repeat split; reflexivity. Qed.


(** X28. A run of [explorePlaces] with at least one stop or a destination
    returns normally and replaces the catalog: every marker of the catalog
    of before is taken off the map; every record of the catalog of after is
    a marker made during the run, is on the map, has a level from 1 to 4 and
    is at full opacity exactly when its level is within the budget, at 0.2
    otherwise; there are at most as many records as the answers have
    elements. *)
Theorem explorePlaces_replaces_catalog (answers : list Answer) (pg : Page) :
  route_stops (state pg) ≠ [] ∨ is_Some (currentDestination (state pg)) →
  let st := state pg in
  let st' := state (snd (explorePlaces answers pg)) in
  fst (explorePlaces answers pg) = ReturnsUndefined ∧
  (∀ r mk, r ∈ markers_pois st → poi_markers st !! r = Some mk →
     poi_markers st' !! r = Some (poi_removeLayer mk)) ∧
  (∀ r, r ∈ markers_pois st' →
     (length (poi_markers st) <= r)%nat ∧
     ∃ mk b, poi_markers st' !! r = Some mk ∧ pm_on_map mk = true ∧
             pm_budget mk = Some b ∧ 1 <= b <= 4 ∧
             pm_opacity mk = if b <=? trip_budget st then 1%Q else (2 # 10)%Q) ∧
  (length (markers_pois st') <= answered_elements answers)%nat.
Proof.
  intros Hguard st st'.
  destruct (explorePlaces_state answers pg Hguard) as [Hret Hstate].
  set (c := clearPOIMarkers st).
  set (f := fetch_all answers c).
  assert (fresh_catalog (length (poi_markers st)) f ∧
          (length (poi_markers st) <= length (poi_markers f))%nat) as [Hfresh _].
  { apply (fetch_all_keeps
             (fun s => fresh_catalog (length (poi_markers st)) s ∧
                       (length (poi_markers st) <= length (poi_markers s))%nat)).
    - intros poi category r s. apply createPOIMarker_fresh.
    - split; [intros r Hr; cbn in Hr; inversion Hr|].
      unfold c. rewrite clearPOIMarkers_store_length. lia. }
  assert (valid_catalog f = true) as Hvalid.
  { apply (fetch_all_keeps (fun s => valid_catalog s = true)).
    - intros poi category r s. apply valid_catalog_createPOIMarker.
    - apply valid_catalog_clear. }
  assert (poi_markers c `prefix_of` poi_markers f) as Hprefix.
  { apply (fetch_all_keeps (fun s => poi_markers c `prefix_of` poi_markers s)).
    - intros poi category r s. apply createPOIMarker_store_prefix.
    - reflexivity. }
  assert (trip_budget f = trip_budget st) as Hbudget.
  { assert (same_route c f) as Hsame
      by (apply (fetch_all_keeps (same_route c));
          [intros; apply createPOIMarker_same_route; assumption|apply same_route_refl]).
    unfold same_route in Hsame. intuition. }
  assert (poi_markers st' = poi_markers (filterPOIsByBudget f) ∧
          markers_pois st' = markers_pois f) as [Hstore Hcatalog].
  { subst st'. rewrite Hstate. fold st. fold c. fold f.
    destruct (generateItinerary_poi (filterPOIsByBudget f)) as (-> & -> & _).
    split; reflexivity. }
  split; [exact Hret|]. split; [|split].
  - intros r mk Hr Hmk. rewrite Hstore, filterPOIsByBudget_lookup.
    pose proof (lookup_lt_Some _ _ _ Hmk) as Hlt.
    rewrite bool_decide_eq_false_2
      by (intros Hin; destruct (Hfresh r Hin) as [Hge _]; lia).
    eapply prefix_lookup_Some; [|exact Hprefix].
    unfold c. rewrite clearPOIMarkers_lookup, bool_decide_eq_true_2, Hmk by exact Hr.
    reflexivity.
  - intros r Hr. rewrite Hcatalog in Hr.
    destruct (Hfresh r Hr) as (Hge & mk & Hmk & Hon). split; [exact Hge|].
    destruct (valid_catalog_lookup f r Hvalid Hr) as (mk' & b & Hmk' & Hb & Hrange).
    rewrite Hmk in Hmk'. injection Hmk' as <-.
    exists (budget_opacity (trip_budget st) mk), b.
    rewrite Hstore, filterPOIsByBudget_lookup, bool_decide_eq_true_2, Hmk, Hbudget by exact Hr.
    split; [reflexivity|].
    unfold budget_opacity, markerBudget. rewrite Hb.
    destruct (Z.eqb_spec b 0) as [->|_]; [lia|].
    destruct (b <=? trip_budget st); cbn; auto.
  - rewrite Hcatalog. pose proof (fetch_all_count answers c) as Hcount.
    exact Hcount.
Qed.




Lemma searchPoints_length (st : State) :
  route_stops st ≠ [] →
  length (explorePlaces_searchPoints st)
  = (length (route_stops st) + 3 * (length (route_stops st) - 1))%nat.
Proof.
  intros Hne. unfold explorePlaces_searchPoints, routeSearchPoints.
  destruct (route_stops st) as [|s stops] eqn:Hstops; [contradiction|].
  cbn [length Nat.ltb Nat.leb]. rewrite length_app, length_map.
  rewrite (flat_map_block_length _ 3), segments_length; [cbn [length]; lia|].
  intros [from to]. apply getIntermediatePoints_length.
Qed.

(** X30. Without a stop and without a destination [explorePlaces] only
    raises the alert "Please select a destination first". Otherwise there is
    at least one search location. With N >= 1 stops and k selected
    categories, [fetchPOIs] is called (4 N - 3) * k times: once for each
    search location and each selected category, and for nothing else. *)
Theorem explorePlaces_fetch_calls (answers : list Answer) (pg : Page) :
  (route_stops (state pg) = [] → currentDestination (state pg) = None →
   explorePlaces answers pg
     = (ReturnsUndefined, alert "Please select a destination first" pg)) ∧
  (route_stops (state pg) ≠ [] ∨ is_Some (currentDestination (state pg)) →
   explorePlaces_searchPoints (state pg) ≠ []) ∧
  (route_stops (state pg) ≠ [] →
   length (explorePlaces_fetches pg)
   = ((4 * length (route_stops (state pg)) - 3) * length (selectedCategories pg))%nat) ∧
  (∀ point category, (point, category) ∈ explorePlaces_fetches pg ↔
     point ∈ explorePlaces_searchPoints (state pg) ∧ category ∈ selectedCategories pg).
Proof.
  split; [|split; [|split]].
  - intros Hstops Hdest. unfold explorePlaces. rewrite Hstops, Hdest. reflexivity.
  - intros [Hstops|[d Hd]] Hnone.
    + pose proof (searchPoints_length (state pg) Hstops) as Hlen.
      rewrite Hnone in Hlen. destruct (route_stops (state pg)); [contradiction|].
      simpl in Hlen. lia.
    + unfold explorePlaces_searchPoints, routeSearchPoints in Hnone.
      destruct (route_stops (state pg)) as [|s stops]; [|discriminate].
      rewrite Hd in Hnone. discriminate.
  - intros Hstops. unfold explorePlaces_fetches.
    rewrite (flat_map_block_length _ (length (selectedCategories pg)))
      by (intros point; apply length_map).
    rewrite (searchPoints_length _ Hstops).
    destruct (route_stops (state pg)); [contradiction|]. cbn [length]. lia.
  - intros point category. unfold explorePlaces_fetches.
    rewrite !list_elem_of_In, in_flat_map. split.
    + intros (p & Hp & Hin). apply in_map_iff in Hin as (c & [= <- <-] & Hc). auto.
    + intros [Hp Hc]. exists point. split; [exact Hp|]. apply in_map_iff. eauto.
Qed.

Lemma explorePlaces_replaces_catalog_witness :
  (route_stops (state explore_page) ≠ [] ∨ is_Some (currentDestination (state explore_page))) ∧
  markers_pois (state explore_page) = [0; 1; 2; 3]%nat ∧
  markers_pois (state (snd (explorePlaces sample_answers explore_page))) = [4; 5]%nat ∧
  (∀ r, r ∈ markers_pois (state (snd (explorePlaces sample_answers explore_page))) →
     (length (poi_markers (state explore_page)) <= r)%nat).
Proof.
  assert (route_stops (state explore_page) ≠ [] ∨
          is_Some (currentDestination (state explore_page))) as Hguard
    by (left; discriminate).
  split; [exact Hguard|]. split; [reflexivity|]. split; [reflexivity|].
  intros r Hr.
  exact (proj1 (proj1 (proj2 (proj2 (explorePlaces_replaces_catalog
                                       sample_answers explore_page Hguard))) r Hr)).
Defined.


(** ** Tile layers *)

Lemma switch_views_one_layer (l : TileLayers) :
  one_layer_shown l →
  one_layer_shown (switchToSatelliteView l) ∧ one_layer_shown (switchToStreetView l) ∧
  currentLayer (switchToSatelliteView l) = "satellite" ∧
  currentLayer (switchToStreetView l) = "street".
Proof.
  unfold one_layer_shown, switchToSatelliteView, switchToStreetView.
  destruct l as [current street satellite]. simpl.
  intros [(-> & -> & ->)|(-> & -> & ->)]; simpl; auto 10.
Qed.
